(** * analyzeRunReports.py: a shallow embedding and its properties

    The script reads GATK run reports (XML records), filters them, decodes
    each one into a flat dictionary of fields and hands it to the handler
    of the selected stage.  This file embeds the version parser, the record
    decoder, the exception extractor, the record filter, the stage handlers
    with the driver loop, the exception aggregation and the version table,
    and proves properties of them. *)

From Stdlib Require Import ZArith String Ascii List Lia Bool DecimalString Sorted.
From stdpp Require Import base gmap strings list.

(** Let [simpl] compute concatenations of strings. *)
#[local] Arguments String.append !s1 s2 : simpl nomatch.

Local Open Scope string_scope.
Local Open Scope list_scope.
Local Open Scope Z_scope.

(** ** Python values and exceptions *)

Module Py.

(** The exceptions the embedded code can raise.  [StringRaise] stands for
    the [raise 'text', value] statements of [read_versions]. *)
Inductive pyerr :=
  | TypeError | ValueError | IndexError | KeyError | AttributeError
  | StringRaise | DBError.

Inductive result (A : Type) :=
  | Ok (a : A)
  | Raise (e : pyerr).
Arguments Ok {A} a.
Arguments Raise {A} e.

Definition bind {A B} (m : result A) (k : A -> result B) : result B :=
  match m with
  | Ok a => k a
  | Raise e => Raise e
  end.

Definition returns {A} (m : result A) : bool :=
  match m with Ok _ => true | Raise _ => false end.

(** The text of an element, the value of a dictionary entry: [None] or a
    string. *)
Inductive pyval :=
  | PyNone
  | PyStr (s : string).

#[global] Instance pyval_eq_dec : EqDecision pyval.
Proof. solve_decision. Defined.

#[global] Instance pyerr_eq_dec : EqDecision pyerr.
Proof. solve_decision. Defined.

Definition of_text (t : option string) : pyval :=
  match t with
  | Some s => PyStr s
  | None => PyNone
  end.

(** ['%s' % v] *)
Definition percent_s (v : pyval) : string :=
  match v with
  | PyNone => "None"
  | PyStr s => s
  end.

End Py.
Export Py.

Notation "x <- e ;; k" := (bind e (fun x => k))
  (at level 100, e at next level, right associativity).

(** ** Strings *)

Module Str.

Definition code (c : ascii) : N := N_of_ascii c.

Definition is_digit (c : ascii) : bool :=
  ((48 <=? code c) && (code c <=? 57))%N.

Definition is_alpha (c : ascii) : bool :=
  (((65 <=? code c) && (code c <=? 90)) || ((97 <=? code c) && (code c <=? 122)))%N.

(** [\w] without the LOCALE and UNICODE flags: [[a-zA-Z0-9_]]. *)
Definition is_word (c : ascii) : bool :=
  is_alpha c || is_digit c || (code c =? 95)%N.

(** The characters [str.split()] and [str.strip()] treat as white space. *)
Definition is_space (c : ascii) : bool :=
  ((code c =? 32) || ((9 <=? code c) && (code c <=? 13)))%N.

Definition newline : ascii := ascii_of_N 10.

Fixpoint all (p : ascii -> bool) (s : string) : bool :=
  match s with
  | EmptyString => true
  | String c s' => p c && all p s'
  end.

Definition nonempty (s : string) : bool :=
  match s with
  | EmptyString => false
  | String _ _ => true
  end.

Fixpoint take (n : nat) (s : string) : string :=
  match n, s with
  | S n', String c s' => String c (take n' s')
  | _, _ => EmptyString
  end.

(** [s.startswith(p)] *)
Fixpoint startswith (p s : string) : bool :=
  match p, s with
  | EmptyString, _ => true
  | String a p', String b s' => Ascii.eqb a b && startswith p' s'
  | String _ _, EmptyString => false
  end.

(** [sep.join(l)] on a list of strings. *)
Fixpoint join (sep : string) (l : list string) : string :=
  match l with
  | [] => ""
  | [x] => x
  | x :: l' => x +:+ sep +:+ join sep l'
  end.

(** [sep.join(l)] on a list of values: a [None] item is a TypeError. *)
Fixpoint strings_of (l : list pyval) : result (list string) :=
  match l with
  | [] => Ok []
  | PyNone :: _ => Raise TypeError
  | PyStr s :: l' => r <- strings_of l' ;; Ok (s :: r)
  end.

Definition join_vals (sep : string) (l : list pyval) : result string :=
  r <- strings_of l ;; Ok (join sep r).

(** [s.split(c)] for a one-character separator: the fields between the
    separators, empty ones included. *)
Fixpoint split_on (sep : ascii) (s : string) : list string :=
  match s with
  | EmptyString => [""]
  | String c s' =>
      if Ascii.eqb c sep then "" :: split_on sep s'
      else match split_on sep s' with
           | x :: l => String c x :: l
           | [] => [String c ""]
           end
  end.

(** [s.split()]: the maximal runs of characters that are not white space. *)
Fixpoint split_ws_aux (cur : string) (s : string) : list string :=
  match s with
  | EmptyString => if nonempty cur then [cur] else []
  | String c s' =>
      if is_space c
      then (if nonempty cur then [cur] else []) ++ split_ws_aux "" s'
      else split_ws_aux (cur +:+ String c "") s'
  end.

Definition split_ws (s : string) : list string := split_ws_aux "" s.

Fixpoint lstrip (s : string) : string :=
  match s with
  | String c s' => if is_space c then lstrip s' else s
  | EmptyString => s
  end.

Fixpoint rstrip (s : string) : string :=
  match s with
  | EmptyString => ""
  | String c s' =>
      match rstrip s' with
      | EmptyString => if is_space c then "" else String c ""
      | r => String c r
      end
  end.

(** [s.strip()] *)
Definition strip (s : string) : string := rstrip (lstrip s).

(** [s.replace(a, b)] for one-character [a] and [b]. *)
Fixpoint replace_char (a b : ascii) (s : string) : string :=
  match s with
  | EmptyString => ""
  | String c s' => String (if Ascii.eqb c a then b else c) (replace_char a b s')
  end.

Fixpoint contains_char (a : ascii) (s : string) : bool :=
  match s with
  | EmptyString => false
  | String c s' => Ascii.eqb c a || contains_char a s'
  end.

(** The value of a run of decimal digits, most significant first. *)
Fixpoint digits_value (acc : Z) (s : string) : Z :=
  match s with
  | EmptyString => acc
  | String c s' => digits_value (10 * acc + (Z.of_N (code c) - 48)) s'
  end.

(** [int(s)].  The callers pass the text of a [\d*] or [\d+] group, or the
    literal "0": a run of digits.  [int] of the empty string is a
    ValueError. *)
Definition py_int (s : string) : result Z :=
  if nonempty s && all is_digit s then Ok (digits_value 0 s) else Raise ValueError.

(** [str(n)] for an integer. *)
Definition py_str_int (n : Z) : string :=
  NilZero.string_of_int (Z.to_int n).

End Str.

(** ** Regular expressions

    The patterns of the script are sequences of single characters,
    character classes under [*] or [+], groups that hold no alternation and
    sit under no quantifier, [^] and [$].  [run] is the backtracking
    matcher of [re] for such sequences: a greedy quantifier first takes
    one more character and gives it back when the rest of the pattern
    fails. *)

Module Re.
Import Str.

Inductive cls :=
  | Digit                (* \d *)
  | Word                 (* \w *)
  | Any                  (* .  : every character but a newline *)
  | Chr (c : ascii).     (* a literal character *)

Definition in_cls (k : cls) (c : ascii) : bool :=
  match k with
  | Digit => is_digit c
  | Word => is_word c
  | Any => negb (Ascii.eqb c newline)
  | Chr a => Ascii.eqb c a
  end.

Inductive atom :=
  | One (k : cls)
  | Star (k : cls)
  | Plus (k : cls)
  | Open                 (* ( *)
  | Close                (* ) *)
  | Bol                  (* ^ *)
  | Eol.                 (* $ : at the end or before a newline that ends the text *)

(** A literal string as a sequence of atoms. *)
Fixpoint lit (s : string) : list atom :=
  match s with
  | EmptyString => []
  | String c s' => One (Chr c) :: lit s'
  end.

(** The groups closed so far (last first) and the suffixes at which the
    groups still open started. *)
Record groups := { opened : list string; closed : list string }.

Definition open_group (s : string) (g : groups) : groups :=
  {| opened := s :: opened g; closed := closed g |}.

Definition close_group (s : string) (g : groups) : groups :=
  match opened g with
  | start :: o =>
      {| opened := o;
         closed := take (String.length start - String.length s) start :: closed g |}
  | [] => g
  end.

(** [k*] against [s], then the continuation on what is left. *)
Fixpoint star {R} (k : cls) (cont : string -> option R) (s : string) : option R :=
  match s with
  | String c s' =>
      if in_cls k c
      then match star k cont s' with
           | Some r => Some r
           | None => cont s
           end
      else cont s
  | EmptyString => cont s
  end.

Definition at_eol (s : string) : bool :=
  match s with
  | EmptyString => true
  | String c EmptyString => Ascii.eqb c newline
  | _ => false
  end.

(** [run text p g s]: match the pattern [p] against the suffix [s] of
    [text]; the result is the list of groups, group 1 first. *)
Fixpoint run (text : string) (p : list atom) (g : groups) (s : string)
  : option (list string) :=
  match p with
  | [] => Some (rev (closed g))
  | One k :: p' =>
      match s with
      | String c s' => if in_cls k c then run text p' g s' else None
      | EmptyString => None
      end
  | Star k :: p' => star k (run text p' g) s
  | Plus k :: p' =>
      match s with
      | String c s' => if in_cls k c then star k (run text p' g) s' else None
      | EmptyString => None
      end
  | Open :: p' => run text p' (open_group s g) s
  | Close :: p' => run text p' (close_group s g) s
  | Bol :: p' =>
      if (String.length s =? String.length text)%nat then run text p' g s else None
  | Eol :: p' => if at_eol s then run text p' g s else None
  end.

Definition no_groups : groups := {| opened := []; closed := [] |}.

(** [re.match(p, text)]: the groups, or [None]. *)
Definition re_match (p : list atom) (text : string) : option (list string) :=
  run text p no_groups text.

(** [re.search(p, text)]: the first position from which the pattern
    matches. *)
Fixpoint search_from (text : string) (p : list atom) (s : string)
  : option (list string) :=
  match run text p no_groups s with
  | Some r => Some r
  | None =>
      match s with
      | String _ s' => search_from text p s'
      | EmptyString => None
      end
  end.

Definition re_search (p : list atom) (text : string) : option (list string) :=
  search_from text p text.

Definition group (n : nat) (m : list string) : string := nth (n - 1) m "".

End Re.

(** ** The version parser *)

Module Version.
Import Str Re.

(** The pattern of [svnMatch]: [^1\.0\.], then group 1 [\d] and group 2
    [\d*]. *)
Definition svn_re : list atom :=
  [Bol] ++ lit "1.0." ++ [Open; One Digit; Close; Open; Star Digit; Close].

(** The pattern of [gitFullMatch]: ["^(\d)\.(\d+)-(\d+)-\w*$"] *)
Definition gitFull_re : list atom :=
  [Bol; Open; One Digit; Close; One (Chr "."); Open; Plus Digit; Close;
   One (Chr "-"); Open; Plus Digit; Close; One (Chr "-"); Star Word; Eol].

(** The pattern of [gitShortMatch]: ["^(\d)\.(\d+)$"] *)
Definition gitShort_re : list atom :=
  [Bol; Open; One Digit; Close; One (Chr "."); Open; Plus Digit; Close; Eol].

(** [parseGATKVersion(text)] for a string [text]. *)
Definition parseGATKVersion (text : string) : result (string * Z) :=
  let '(major, minor) :=
    match re_match svn_re text with
    | Some svnMatch => ("0." +:+ group 1 svnMatch, group 2 svnMatch)
    | None =>
        match re_match gitFull_re text with
        | Some gitFullMatch =>
            (group 1 gitFullMatch +:+ "." +:+ group 2 gitFullMatch,
             group 3 gitFullMatch)
        | None =>
            match re_match gitShort_re text with
            | Some gitShortMatch =>
                (group 1 gitShortMatch +:+ "." +:+ group 2 gitShortMatch, "0")
            | None => ("unknown", "0")
            end
        end
    end in
  n <- py_int minor ;; Ok (major, n).

(** [parseGATKVersion(elt.text)]: [re.match] on [None] is a TypeError. *)
Definition parseGATKVersion_val (v : pyval) : result (string * Z) :=
  match v with
  | PyNone => Raise TypeError
  | PyStr text => parseGATKVersion text
  end.

End Version.

(** ** Records: trees of named elements with text *)

Module Xml.

#[local] Unset Elimination Schemes.
Inductive elt :=
  | Element (tag : string) (text : option string) (children : list elt).
#[local] Set Elimination Schemes.

Definition tag (e : elt) : string := let 'Element t _ _ := e in t.
Definition text (e : elt) : pyval := let 'Element _ x _ := e in of_text x.
Definition children (e : elt) : list elt := let 'Element _ _ c := e in c.

Definition has_tag (t : string) (e : elt) : bool := String.eqb (tag e) t.

(** [e.find(t)] for a plain tag [t]: the first child with this tag. *)
Definition find (e : elt) (t : string) : option elt :=
  List.find (has_tag t) (children e).

(** [e.findall(t)]: the children with this tag, in document order. *)
Definition findall (e : elt) (t : string) : list elt :=
  List.filter (has_tag t) (children e).

End Xml.
Export Xml.

(** ** Dates: what the script uses of [datetime] *)

Module Datetime.
Import Str.

(** A [datetime] at midnight, as [strptime] with the format [%Y/%m/%d]
    builds it. *)
Record datetime := { year : Z; month : Z; day : Z }.

#[global] Instance datetime_eq_dec : EqDecision datetime.
Proof. solve_decision. Defined.

Definition is_leap (y : Z) : bool :=
  (y mod 4 =? 0) && (negb (y mod 100 =? 0) || (y mod 400 =? 0)).

Definition days_in_month (y m : Z) : Z :=
  if m =? 2 then (if is_leap y then 29 else 28)
  else if (m =? 4) || (m =? 6) || (m =? 9) || (m =? 11) then 30
  else 31.

Definition valid_date (y m d : Z) : bool :=
  (1 <=? y) && (y <=? 9999) && (1 <=? m) && (m <=? 12)
  && (1 <=? d) && (d <=? days_in_month y m).

Definition digit (c : ascii) : Z := Z.of_N (code c) - 48.

Definition digit_in (lo hi : Z) (c : ascii) : bool :=
  is_digit c && (lo <=? digit c) && (digit c <=? hi).

(** The directive [%m]: [1[0-2]|0[1-9]|[1-9]], the alternatives in this
    order. *)
Definition parse_m (s : string) : option (Z * string) :=
  match s with
  | String a (String b r) =>
      if Ascii.eqb a "1" && digit_in 0 2 b then Some (10 + digit b, r)
      else if Ascii.eqb a "0" && digit_in 1 9 b then Some (digit b, r)
      else if digit_in 1 9 a then Some (digit a, String b r)
      else None
  | String a r => if digit_in 1 9 a then Some (digit a, r) else None
  | EmptyString => None
  end.

(** The directive [%d]: [3[0-1]|[1-2]\d|0[1-9]|[1-9]| [1-9]]. *)
Definition parse_d (s : string) : option (Z * string) :=
  match s with
  | String a (String b r) =>
      if Ascii.eqb a "3" && digit_in 0 1 b then Some (30 + digit b, r)
      else if digit_in 1 2 a && is_digit b then Some (10 * digit a + digit b, r)
      else if Ascii.eqb a "0" && digit_in 1 9 b then Some (digit b, r)
      else if digit_in 1 9 a then Some (digit a, String b r)
      else if Ascii.eqb a " " && digit_in 1 9 b then Some (digit b, r)
      else None
  | String a r => if digit_in 1 9 a then Some (digit a, r) else None
  | EmptyString => None
  end.

(** The directive [%Y]: four digits. *)
Definition parse_Y (s : string) : option (Z * string) :=
  match s with
  | String a (String b (String c (String d r))) =>
      if is_digit a && is_digit b && is_digit c && is_digit d
      then Some (1000 * digit a + 100 * digit b + 10 * digit c + digit d, r)
      else None
  | _ => None
  end.

Definition expect (c : ascii) (s : string) : option string :=
  match s with
  | String a r => if Ascii.eqb a c then Some r else None
  | EmptyString => None
  end.

(** [datetime.datetime.strptime(s, "%Y/%m/%d")]: the text has to match
    the format to its end and name a day of the calendar; everything else
    is a ValueError. *)
Definition strptime (s : string) : result datetime :=
  match parse_Y s with
  | Some (y, s1) =>
      match expect "/" s1 with
      | Some s2 =>
          match parse_m s2 with
          | Some (m, s3) =>
              match expect "/" s3 with
              | Some s4 =>
                  match parse_d s4 with
                  | Some (d, EmptyString) =>
                      if valid_date y m d
                      then Ok {| year := y; month := m; day := d |}
                      else Raise ValueError
                  | _ => Raise ValueError
                  end
              | None => Raise ValueError
              end
          | None => Raise ValueError
          end
      | None => Raise ValueError
      end
  | None => Raise ValueError
  end.

Definition pad2 (n : Z) : string :=
  if n <? 10 then "0" +:+ py_str_int n else py_str_int n.

(** [d.strftime("%m/%d/%y")]: month, day and year of the century, two
    digits each.  Python 2 has no [strftime] for a year before 1900: the
    call is a ValueError. *)
Definition strftime (d : datetime) : result string :=
  if year d <? 1900 then Raise ValueError
  else Ok (pad2 (month d) +:+ "/" +:+ pad2 (day d) +:+ "/" +:+ pad2 (year d mod 100)).

(** [d.toordinal()]: the number of the day, 1 for 1 January of year 1. *)
Definition days_before_year (y : Z) : Z :=
  let y1 := y - 1 in y1 * 365 + y1 / 4 - y1 / 100 + y1 / 400.

Fixpoint days_before_month_aux (y : Z) (n : nat) : Z :=
  match n with
  | O => 0
  | S n' => days_before_month_aux y n' + days_in_month y (Z.of_nat n)
  end.

Definition days_before_month (y m : Z) : Z :=
  days_before_month_aux y (Z.to_nat (m - 1)).

Definition toordinal (d : datetime) : Z :=
  days_before_year (year d) + days_before_month (year d) (month d) + day d.

(** [a <= b] on dates. *)
Definition dt_leb (a b : datetime) : bool :=
  (year a <? year b)
  || ((year a =? year b)
      && ((month a <? month b) || ((month a =? month b) && (day a <=? day b)))).

(** The value [decodeTime] returns: the string "ND" or a date. *)
Inductive timeval :=
  | ND
  | DT (d : datetime).

#[global] Instance timeval_eq_dec : EqDecision timeval.
Proof. solve_decision. Defined.

(** [decodeTime(time)].  On [None] the call [time.split()] is an
    AttributeError, on a blank string [time.split()[0]] is an
    IndexError. *)
Definition decodeTime (time : pyval) : result timeval :=
  match time with
  | PyNone => Raise AttributeError
  | PyStr t =>
      if String.eqb t "ND" then Ok ND
      else match split_ws t with
           | [] => Raise IndexError
           | t0 :: _ => d <- strptime t0 ;; Ok (DT d)
           end
  end.

End Datetime.
Export Datetime.

(** ** The exception extractor *)

Module Extractor.
Import Str Re.

Definition RUN_STATUS_SUCCESS : string := "success".

(** [eltIsException(elt)] *)
Definition eltIsException (e : elt) : bool := String.eqb (tag e) "exception".

(** [parseException(elt)]: message, stack trace, user flag, run status.
    The message and the user flag are texts of elements, which can be
    [None]; joining the frames is a TypeError when one of them has no
    text. *)
Definition parseException (e : elt) : result (pyval * string * pyval * string) :=
  let msgElt := find e "message" in
  let msgText := match msgElt with Some m => text m | None => PyStr "MISSING" end in
  let runStatus := match msgElt with Some _ => "sting-exception" | None => RUN_STATUS_SUCCESS end in
  stackTraceString <-
    match find e "stacktrace" with
    | Some stackTrace =>
        let strings := findall stackTrace "string" in
        if (0 <? Z.of_nat (length strings))
        then join_vals (String newline "") (map text strings)
        else Ok "NA"
    | None => Ok "NA"
    end ;;
  let '(userException, runStatus) :=
    match find e "is-user-exception" with
    | Some u =>
        (text u, if decide (text u = PyStr "true") then "user-exception" else runStatus)
    | None => (PyStr "NA", runStatus)
    end in
  Ok (msgText, stackTraceString, userException, runStatus).

(** The pattern of [javaExceptionFile]: an opening parenthesis, the group
    [.*\.java:.*], a closing parenthesis. *)
Definition javaFile_re : list atom :=
  [One (Chr "("); Open; Star Any] ++ lit ".java:" ++ [Star Any; Close; One (Chr ")")].

(** [javaExceptionFile(javaException)] *)
Definition javaExceptionFile (javaException : string) : string :=
  match re_search javaFile_re javaException with
  | Some m => group 1 m
  | None => javaException
  end.

End Extractor.
Export Extractor.

(** ** The record decoder *)

Module Decoder.
Import Str Version.

Definition MISSING_VALUE : string := "NA".

(** A formatter maps an element to the value of a field, or raises. *)
Definition formatter := elt -> result pyval.

Record RecordDecoder := {
  fields : list string;
  formatters : gmap string (list (string * formatter))
}.

Section Formatters.
(** [OPTIONS.versions]: the release type of each known version. *)
Variable versions : gmap string pyval.

Definition id : formatter := fun e => Ok (text e).
Definition toString : formatter := fun e => Ok (PyStr (percent_s (text e))).

Definition formatMajorVersion : formatter := fun e =>
  v <- parseGATKVersion_val (text e) ;; Ok (PyStr (fst v)).

Definition formatMinorVersion : formatter := fun e =>
  v <- parseGATKVersion_val (text e) ;; Ok (PyStr (py_str_int (snd v))).

Definition formatReleaseType : formatter := fun e =>
  match text e with
  | PyNone => Ok (PyStr "unknown")
  | PyStr t =>
      match versions !! t with
      | None => Ok (PyStr "unknown")
      | Some type => Ok type
      end
  end.

Definition formatExceptionMsg : formatter := fun e =>
  x <- parseException e ;;
  let '(msg, _, _, _) := x in Ok (PyStr (percent_s msg)).

Definition formatExceptionAt : formatter := fun e =>
  x <- parseException e ;;
  let '(_, at_, _, _) := x in Ok (PyStr at_).

Definition formatExceptionAtBrief : formatter := fun e =>
  x <- parseException e ;;
  let '(_, at_, _, _) := x in Ok (PyStr (javaExceptionFile at_)).

Definition formatExceptionUser : formatter := fun e =>
  x <- parseException e ;;
  let '(_, _, user, _) := x in Ok (PyStr (percent_s user)).

Definition formatRunStatus : formatter := fun e =>
  x <- parseException e ;;
  let '(_, _, _, status) := x in Ok (PyStr status).

Definition hostName (e : elt) : string :=
  match text e with
  | PyStr t => t
  | PyNone => "unknown"
  end.

Definition formatHostName : formatter := fun e => Ok (PyStr (hostName e)).

(** [parts[-2:]] joined with a dot when there are two parts or more. *)
Definition formatDomainName : formatter := fun e =>
  let parts := split_on "." (hostName e) in
  if (2 <=? Z.of_nat (length parts))
  then Ok (PyStr (join "." (skipn (length parts - 2) parts)))
  else Ok (PyStr "unknown").

Definition empty_decoder : RecordDecoder :=
  {| fields := []; formatters := ∅ |}.

(** [addComplex(key, fields, funcs)] *)
Definition addComplex (key : string) (fs : list string) (funcs : list formatter)
    (self : RecordDecoder) : RecordDecoder :=
  {| fields := fields self ++ fs;
     formatters := <[key := combine fs funcs]> (formatters self) |}.

(** [add(names, func)] *)
Definition add (names : list string) (func : formatter) (self : RecordDecoder)
  : RecordDecoder :=
  fold_left (fun d name => addComplex name [name] [func] d) names self.

(** [RecordDecoder.__init__] *)
Definition new_decoder : RecordDecoder :=
  let d := empty_decoder in
  let d := add ["id"; "walker-name"] id d in
  let d := addComplex "svn-version"
             ["svn-version"; "gatk-version"; "gatk-minor-version"; "release-type"]
             [id; formatMajorVersion; formatMinorVersion; formatReleaseType] d in
  let d := add ["start-time"; "end-time"] toString d in
  let d := add ["run-time"; "user-name"] id d in
  let d := addComplex "host-name" ["host-name"; "domain-name"]
             [formatHostName; formatDomainName] d in
  let d := add ["java"; "machine"] toString d in
  let d := add ["max-memory"; "total-memory"; "iterations"] id d in
  addComplex "exception"
    ["exception-msg"; "stacktrace"; "exception-at-brief"; "is-user-exception";
     "run-status"]
    [formatExceptionMsg; formatExceptionAt; formatExceptionAtBrief;
     formatExceptionUser; formatRunStatus] d.
End Formatters.

(** A loop whose body can raise. *)
Fixpoint foldM {A B} (f : B -> A -> result B) (l : list A) (b : B) : result B :=
  match l with
  | [] => Ok b
  | a :: l' => b' <- f b a ;; foldM f l' b'
  end.

(** The inner loop of [decode]: the formatters of one element. *)
Definition apply_formats (e : elt) (fieldFormats : list (string * formatter))
    (bindings : gmap string pyval) : result (gmap string pyval) :=
  foldM (fun b ff => v <- snd ff e ;; Ok (<[fst ff := v]> b)) fieldFormats bindings.

(** The first loop of [decode]. *)
Definition decode_children (self : RecordDecoder) (report : elt)
    (bindings : gmap string pyval) : result (gmap string pyval) :=
  foldM (fun b e =>
           match formatters self !! tag e with
           | Some fieldFormats => apply_formats e fieldFormats b
           | None => Ok b
           end)
        (children report) bindings.

(** The second loop of [decode]: add missing data. *)
Definition add_missing (fs : list string) (bindings : gmap string pyval)
  : gmap string pyval :=
  fold_left (fun b field =>
               match b !! field with
               | None => <[field := PyStr MISSING_VALUE]> b
               | Some _ => b
               end)
            fs bindings.

(** [RecordDecoder.decode(report)] *)
Definition decode (self : RecordDecoder) (report : elt) : result (gmap string pyval) :=
  bindings <- decode_children self report ∅ ;;
  Ok (add_missing (fields self) bindings).

(** [d[key]] *)
Definition getitem (d : gmap string pyval) (key : string) : result pyval :=
  match d !! key with
  | Some v => Ok v
  | None => Raise KeyError
  end.

End Decoder.
Export Decoder.

(** ** The options and the record filter *)

Module Filter.
Import Str.

(** The fields of [OPTIONS] the embedded code reads. *)
Record options := {
  verbose : bool;
  ID : option string;
  maxRecords : option Z;
  noDev : bool;
  rev : option string;
  exception_selection : string;
  dryRun : bool;
  versions : gmap string pyval;
  maxDays : option Z;
  updateFreq : Z
}.

(** The defaults of the option parser, with an empty version table. *)
Definition default_options : options :=
  {| verbose := false; ID := None; maxRecords := None; noDev := false;
     rev := None; exception_selection := "all"; dryRun := false;
     versions := ∅; maxDays := None; updateFreq := -1 |}.

(** [eltTagEquals(elt, tag, value, startsWith)].  [msgElt.text.startswith]
    on a text that is [None] is an AttributeError. *)
Definition eltTagEquals (e : option elt) (tag : string) (value : pyval)
    (startsWith : option string) : result bool :=
  match e with
  | None => Ok false
  | Some e =>
      match find e tag with
      | None => Ok false
      | Some msgElt =>
          if decide (text msgElt = value) then Ok true
          else match startsWith with
               | None => Ok true
               | Some p =>
                   match text msgElt with
                   | PyNone => Raise AttributeError
                   | PyStr t => Ok (startswith p t)
                   end
               end
      end
  end.

(** [passesFilters(elt)]; [today] is [datetime.datetime.today()] at
    midnight. *)
Definition passesFilters (O : options) (today : datetime) (e : elt) : result bool :=
  dev <- (if noDev O
          then eltTagEquals (find e "argument-collection") "phone-home-type"
                            (PyStr "DEV") None
          else Ok false) ;;
  if dev then Ok false
  else
    revOk <- match rev O with
             | Some r => eltTagEquals (Some e) "svn-version" PyNone (Some r)
             | None => Ok true
             end ;;
    if negb revOk then Ok false
    else
      match maxDays O with
      | Some maxDays =>
          match find e "end-time" with
          | None => Raise AttributeError
          | Some endTime =>
              eltTime <- decodeTime (text endTime) ;;
              match eltTime with
              | ND => Raise TypeError
              | DT d => Ok (negb (maxDays <? toordinal today - toordinal d))
              end
          end
      | None => Ok true
      end.

Definition RUN_REPORT : string := "GATK-run-report".

(** One file of [readReports]: [elems] are the elements of the file in the
    order [iterparse] completes them.  When the filter raises, the
    [except] clause drops the rest of the file. *)
Fixpoint read_file (O : options) (today : datetime) (elems : list elt) : list elt :=
  match elems with
  | [] => []
  | elem :: rest =>
      if has_tag RUN_REPORT elem
      then match passesFilters O today elem with
           | Ok true => elem :: read_file O today rest
           | Ok false => read_file O today rest
           | Raise _ => []
           end
      else read_file O today rest
  end.

(** [readReports(files)]: the reports it yields, in order. *)
Definition readReports (O : options) (today : datetime) (files : list (list elt))
  : list elt :=
  concat (map (read_file O today) files).

End Filter.
Export Filter.

(** ** The stage handlers and the driver loop *)

Module Stage.
Import Str.

Inductive stage := table | minimaltable | count | exceptions | summary | loadToDB.

(** What a handler prints to standard output. *)
Inductive message :=
  | FailedToConvertToTable (record : elt)
  | SkippingExceptingRecord (id : pyval) (inst : pyerr).

(** The state of a handler: the lines printed to [self.out], the messages
    printed to standard output, [self.exceptions], [self.reports],
    [self.counter] and the statements the database cursor executed. *)
Record handler := {
  out : list string;
  stdout : list message;
  h_exceptions : list (gmap string pyval);
  h_reports : list (gmap string pyval);
  h_counter : Z;
  executed : list string
}.

Definition print_out (line : string) (h : handler) : handler :=
  {| out := out h ++ [line]; stdout := stdout h;
     h_exceptions := h_exceptions h; h_reports := h_reports h;
     h_counter := h_counter h; executed := executed h |}.

Definition print (m : message) (h : handler) : handler :=
  {| out := out h; stdout := stdout h ++ [m];
     h_exceptions := h_exceptions h; h_reports := h_reports h;
     h_counter := h_counter h; executed := executed h |}.

Definition tab : string := String (ascii_of_N 9) "".
Definition dquote : string := String (ascii_of_N 34) "".
Definition dquote_char : ascii := ascii_of_N 34.

Definition FIELDS_TO_TAKE : list string :=
  ["walker-name"; "start-time"; "run-time"; "host-name"].

Definition sql_fields : list string :=
  ["id"; "walker-name"; "gatk-version"; "gatk-minor-version"; "svn-version";
   "start-time"; "end-time"; "run-time"; "user-name"; "host-name"; "domain-name";
   "total-memory"; "stacktrace"; "exception-at-brief"; "exception-msg";
   "is-user-exception"; "run-status"; "release-type"].

Section Handlers.
Variable O : options.
(** [self.dbc.execute(command)]: the database accepts the statement or
    raises. *)
Variable dbc_execute : string -> result unit.

Definition decoder : RecordDecoder := new_decoder (versions O).

(** [oneField] of [AbstractRecordAsTable.processRecord]; the message it
    writes to [sys.stderr] in verbose mode is left out. *)
Definition oneField_table (parsed : gmap string pyval) (field : string) : pyval :=
  match parsed !! field with
  | None => PyStr MISSING_VALUE
  | Some PyNone => PyNone
  | Some (PyStr val) =>
      let val := replace_char dquote_char "'" val in
      if contains_char " " val then PyStr (dquote +:+ val +:+ dquote)
      else PyStr val
  end.

(** The body of the [try] of [AbstractRecordAsTable.processRecord]. *)
Definition table_line (getFields : list string) (record : elt) : result string :=
  parsed <- decode decoder record ;;
  join_vals tab (map (oneField_table parsed) getFields).

(** [AbstractRecordAsTable.processRecord]: a bare [except] catches
    everything. *)
Definition table_processRecord (getFields : list string) (h : handler)
    (record : elt) : result handler :=
  match table_line getFields record with
  | Ok line => Ok (print_out line h)
  | Raise _ => Ok (print (FailedToConvertToTable record) h)
  end.

(** [CountRecords.processRecord] *)
Definition count_processRecord (h : handler) (record : elt) : result handler :=
  Ok {| out := out h; stdout := stdout h;
        h_exceptions := h_exceptions h; h_reports := h_reports h;
        h_counter := h_counter h + 1; executed := executed h |}.

(** [ExceptionReport.processRecord] *)
Definition exceptions_processRecord (h : handler) (record : elt) : result handler :=
  if existsb eltIsException (children record)
  then
    parsed <- decode decoder record ;;
    Ok {| out := out h; stdout := stdout h;
          h_exceptions := h_exceptions h ++ [parsed]; h_reports := h_reports h;
          h_counter := h_counter h; executed := executed h |}
  else Ok h.

(** [SummaryReport.processRecord] *)
Definition summary_processRecord (h : handler) (record : elt) : result handler :=
  parsed <- decode decoder record ;;
  Ok {| out := out h; stdout := stdout h;
        h_exceptions := h_exceptions h; h_reports := h_reports h ++ [parsed];
        h_counter := h_counter h; executed := executed h |}.

(** [oneField] of [InsertRecordIntoTable.processRecord] *)
Definition oneField_sql (parsed : gmap string pyval) (field : string) : pyval :=
  match parsed !! field with
  | None => PyStr MISSING_VALUE
  | Some PyNone => PyNone
  | Some (PyStr val) =>
      let val := if String.eqb field "run-status" && String.eqb val MISSING_VALUE
                 then RUN_STATUS_SUCCESS else val in
      let val := replace_char dquote_char "'" val in
      PyStr (dquote +:+ val +:+ dquote)
  end.

(** [SQLRecordHandler.execute(command)] *)
Definition execute (command : string) (h : handler) : result handler :=
  if negb (dryRun O)
  then
    _ <- dbc_execute command ;;
    Ok {| out := out h; stdout := stdout h;
          h_exceptions := h_exceptions h; h_reports := h_reports h;
          h_counter := h_counter h; executed := executed h ++ [command] |}
  else Ok h.

(** What [except Exception, inst] does with an exception raised after
    [id] was bound: it does not catch a string exception. *)
Definition except_Exception (id : pyval) (h : handler) (e : pyerr) : result handler :=
  if decide (e = StringRaise) then Raise e
  else Ok (print (SkippingExceptingRecord id e) h).

(** [InsertRecordIntoTable.processRecord] *)
Definition sql_processRecord (h : handler) (record : elt) : result handler :=
  match decode decoder record with
  | Raise e => except_Exception (PyStr "unknown") h e
  | Ok parsed =>
      match getitem parsed "id" with
      | Raise e => except_Exception (PyStr "unknown") h e
      | Ok id =>
          match (values <- join_vals ", " (map (oneField_sql parsed) sql_fields) ;;
                 execute ("INSERT INTO " +:+ "GATK_LOGS" +:+ " VALUES(" +:+ values +:+ ")") h)
          with
          | Ok h' => Ok h'
          | Raise e => except_Exception id h e
          end
      end
  end.

(** [handler.processRecord(record)] for the handler of the stage. *)
Definition processRecord (s : stage) : handler -> elt -> result handler :=
  match s with
  | table => table_processRecord (fields decoder)
  | minimaltable => table_processRecord FIELDS_TO_TAKE
  | count => count_processRecord
  | exceptions => exceptions_processRecord
  | summary => summary_processRecord
  | loadToDB => sql_processRecord
  end.

Definition empty_handler : handler :=
  {| out := []; stdout := []; h_exceptions := []; h_reports := [];
     h_counter := 0; executed := [] |}.

(** [handler.initialize(files)]: the table stages print the header. *)
Definition initialize (s : stage) : handler :=
  match s with
  | table => print_out (join tab (fields decoder)) empty_handler
  | minimaltable => print_out (join tab FIELDS_TO_TAKE) empty_handler
  | _ => empty_handler
  end.

(** The state of the loop of [main]: the handler, [counter] and the
    counters printed as progress. *)
Record loop (H : Type) := {
  the_handler : H;
  counter : Z;
  progress : list Z
}.
Arguments the_handler {H} _.
Arguments counter {H} _.
Arguments progress {H} _.

(** [OPTIONS.ID == None or ID == OPTIONS.ID] *)
Definition selected (ID_ : pyval) : bool :=
  match ID O with
  | None => true
  | Some i => bool_decide (ID_ = PyStr i)
  end.

(** [OPTIONS.maxRecords > 0 and counter > OPTIONS.maxRecords]; in
    Python 2 [None > 0] is false. *)
Definition cutoff (counter : Z) : bool :=
  match maxRecords O with
  | None => false
  | Some m => (0 <? m) && (m <? counter)
  end.

(** The loop of [main] over the reports [readReports] yields, for a
    handler whose [processRecord] is [process].  [report.find('id').text]
    is an AttributeError on a report without an [id] child. *)
Fixpoint main_loop {H} (process : H -> elt -> result H) (reports : list elt)
    (st : loop H) : result (loop H) :=
  match reports with
  | [] => Ok st
  | report :: rest =>
      match find report "id" with
      | None => Raise AttributeError
      | Some idElt =>
          if selected (text idElt)
          then
            h <- process (the_handler st) report ;;
            let counter := counter st + 1 in
            let progress :=
              if (0 <? updateFreq O) && (counter mod updateFreq O =? 0)
              then progress st ++ [counter] else progress st in
            let st := {| the_handler := h; counter := counter; progress := progress |} in
            if cutoff counter then Ok st else main_loop process rest st
          else main_loop process rest st
      end
  end.

Definition start {H} (h : H) : loop H :=
  {| the_handler := h; counter := 0; progress := [] |}.

(** [main] from [handler.initialize] to the end of the loop. *)
Definition run_stage (s : stage) (reports : list elt) : result (loop handler) :=
  main_loop (processRecord s) reports (start (initialize s)).
End Handlers.

Arguments the_handler {H} _.
Arguments counter {H} _.
Arguments progress {H} _.

End Stage.
Export Stage.

(** ** The exception digest: aggregation by stack trace *)

Module Digest.
Import Str.

(** A Python [set] as the list of its members in the order they were
    added: [add] leaves the set alone when the member is there. *)
Definition set_add {A} `{EqDecision A} (x : A) (s : list A) : list A :=
  if decide (x ∈ s) then s else s ++ [x].

Record CommonException := {
  msgs : list pyval;
  at_ : pyval;
  svns : list pyval;
  users : list pyval;
  userError : pyval;
  counts : Z;
  times : list timeval;
  walkers : list pyval;
  ids : list pyval
}.

(** [CommonException.__init__(ex)] *)
Definition new_CommonException (ex : gmap string pyval) : result CommonException :=
  msg <- getitem ex "exception-msg" ;;
  at' <- getitem ex "stacktrace" ;;
  svn <- getitem ex "svn-version" ;;
  user <- getitem ex "user-name" ;;
  userError' <- getitem ex "is-user-exception" ;;
  endTime <- getitem ex "end-time" ;;
  time <- decodeTime endTime ;;
  walker <- getitem ex "walker-name" ;;
  id <- getitem ex "id" ;;
  Ok {| msgs := [msg]; at_ := at'; svns := [svn]; users := [user];
        userError := userError'; counts := 1; times := [time];
        walkers := [walker]; ids := [id] |}.

(** [CommonException.equals(ex)] *)
Definition equals (self : CommonException) (ex : gmap string pyval) : result bool :=
  at' <- getitem ex "stacktrace" ;;
  Ok (bool_decide (at_ self = at')).

(** [CommonException.update(ex)] *)
Definition update (self : CommonException) (ex : gmap string pyval)
  : result CommonException :=
  msg <- getitem ex "exception-msg" ;;
  svn <- getitem ex "svn-version" ;;
  user <- getitem ex "user-name" ;;
  walker <- getitem ex "walker-name" ;;
  endTime <- getitem ex "end-time" ;;
  time <- decodeTime endTime ;;
  id <- getitem ex "id" ;;
  Ok {| msgs := set_add msg (msgs self); at_ := at_ self;
        svns := set_add svn (svns self); users := set_add user (users self);
        userError := userError self; counts := counts self + 1;
        times := set_add time (times self);
        walkers := set_add walker (walkers self); ids := set_add id (ids self) |}.

(** [addToCommons(ex)] of [ExceptionReport.finalize]: the first entry with
    the stack trace of [ex] is updated, and without one a new entry is
    appended. *)
Fixpoint addToCommons (commonExceptions : list CommonException)
    (ex : gmap string pyval) : result (list CommonException) :=
  match commonExceptions with
  | [] => c <- new_CommonException ex ;; Ok [c]
  | common :: rest =>
      same <- equals common ex ;;
      if same : bool
      then c <- update common ex ;; Ok (c :: rest)
      else r <- addToCommons rest ex ;; Ok (common :: r)
  end.

(** The loop [for ex in self.exceptions: addToCommons(ex)]. *)
Definition aggregate (exceptions : list (gmap string pyval))
  : result (list CommonException) :=
  foldM addToCommons exceptions [].

(** [sorted(l, None, key)]: a stable sort by the key. *)
Fixpoint insert_by {A} (key : A -> Z) (x : A) (l : list A) : list A :=
  match l with
  | [] => [x]
  | y :: l' => if key x <=? key y then x :: l else y :: insert_by key x l'
  end.

Definition sorted_by {A} (key : A -> Z) (l : list A) : list A :=
  fold_right (insert_by key) [] l.

(** [sorted(l)] on dates. *)
Fixpoint insert_date (x : datetime) (l : list datetime) : list datetime :=
  match l with
  | [] => [x]
  | y :: l' => if dt_leb x y then x :: l else y :: insert_date x l'
  end.

Definition sorted_dates (l : list datetime) : list datetime :=
  fold_right insert_date [] l.

(** [filter(lambda x: x != "ND", times)] *)
Fixpoint valid_dates (times : list timeval) : list datetime :=
  match times with
  | [] => []
  | ND :: l => valid_dates l
  | DT d :: l => d :: valid_dates l
  end.

(** What [duration] returns: a string, or the [datetime] itself. *)
Inductive rendered :=
  | RStr (s : string)
  | RDate (d : datetime).

Definition epoch : datetime := {| year := 1; month := 1; day := 1 |}.

(** [CommonException.duration()]: [map] calls [strftime] on the first
    date and then on the last one, and either call can raise. *)
Definition duration (self : CommonException) : result rendered :=
  let x := sorted_dates (valid_dates (times self)) in
  if 2 <=? Z.of_nat (length x)
  then lo <- strftime (nth 0 x epoch) ;;
       hi <- strftime (List.last x epoch) ;;
       Ok (RStr (join "-" [lo; hi]))
  else if Z.of_nat (length x) =? 1
       then Ok (RDate (nth 0 x epoch))
       else Ok (RStr "ND").

(** [len(v)] is a TypeError on [None]. *)
Definition py_len (v : pyval) : result Z :=
  match v with
  | PyNone => Raise TypeError
  | PyStr s => Ok (Z.of_nat (String.length s))
  end.

(** [bestExample(examples)]: [reduce(takeShorter, examples)]. *)
Definition takeShorter (x y : pyval) : result pyval :=
  ly <- py_len y ;; lx <- py_len x ;; Ok (if ly <? lx then y else x).

Definition bestExample (examples : list pyval) : result pyval :=
  match examples with
  | [] => Raise TypeError
  | x :: l => foldM takeShorter l x
  end.

Definition MAX_SET_ITEMS_TO_SHOW : Z := 5.

(** [setString(s)] *)
Definition setString (s : list pyval) : result string :=
  let s := if MAX_SET_ITEMS_TO_SHOW <? Z.of_nat (length s)
           then firstn (Z.to_nat MAX_SET_ITEMS_TO_SHOW) s ++ [PyStr "..."]
           else s in
  join_vals "," s.

(** The list [toStrings] returns. *)
Record digest := {
  d_msg : pyval; d_at : pyval; d_svns : string; d_walkers : string;
  d_counts : Z; d_ids : string; d_duration : rendered; d_users : string;
  d_userError : pyval
}.

(** [CommonException.toStrings()]: the items of the list are evaluated
    from left to right. *)
Definition toStrings (self : CommonException) : result digest :=
  msg <- bestExample (msgs self) ;;
  svns' <- setString (svns self) ;;
  walkers' <- setString (walkers self) ;;
  ids' <- setString (ids self) ;;
  duration' <- duration self ;;
  users' <- setString (users self) ;;
  Ok {| d_msg := msg; d_at := at_ self; d_svns := svns'; d_walkers := walkers';
        d_counts := counts self; d_ids := ids'; d_duration := duration';
        d_users := users'; d_userError := userError self |}.

(** [matchesExceptionSelection(userError)] *)
Definition matchesExceptionSelection (O : options) (userError : pyval) : bool :=
  if String.eqb (exception_selection O) "all" then true
  else if String.eqb (exception_selection O) "user" && bool_decide (userError = PyStr "true")
  then true
  else if String.eqb (exception_selection O) "sting" && bool_decide (userError = PyStr "false")
  then true
  else false.

(** [ExceptionReport.finalize]: the entries it prints, in order. *)
Definition finalize (O : options) (exceptions : list (gmap string pyval))
  : result (list digest) :=
  commonExceptions <- aggregate exceptions ;;
  let commonExceptions := sorted_by counts commonExceptions in
  foldM (fun printed common =>
           d <- toStrings common ;;
           Ok (if matchesExceptionSelection O (d_userError d)
               then printed ++ [d] else printed))
        commonExceptions [].

End Digest.
Export Digest.

(** ** The version table *)

Module Versions.
Import Str.

(** [d[line].append(type)], with [d[line] = list()] first for a new
    line. *)
Definition record_type (line : string) (type : pyval) (d : gmap string (list pyval))
  : gmap string (list pyval) :=
  <[line := default [] (d !! line) ++ [type]]> d.

(** The first loop of [read_versions] over the lines of the file.  A
    blank line, or a line [type] with nothing after it, is an
    IndexError. *)
Fixpoint read_lines (lines : list string) (type : pyval) (d : gmap string (list pyval))
  : result (gmap string (list pyval)) :=
  match lines with
  | [] => Ok d
  | line :: rest =>
      let line := strip line in
      match split_ws line with
      | [] => Raise IndexError
      | v0 :: vals =>
          if String.eqb v0 "type"
          then match vals with
               | [] => Raise IndexError
               | v1 :: _ => read_lines rest (PyStr v1) d
               end
          else read_lines rest type (record_type line type d)
      end
  end.

(** [resolveType(version, types)] *)
Definition resolveType (version : string) (types : list pyval) : result pyval :=
  if 3 <? Z.of_nat (length types) then Raise StringRaise
  else if Z.of_nat (length types) =? 3 then Ok (PyStr "gatk.git")
  else if Z.of_nat (length types) =? 2
       then if negb (bool_decide (PyStr "stable" ∈ types))
            then Raise StringRaise
            else Ok (PyStr "stable")
       else match types with
            | t :: _ => Ok t
            | [] => Raise IndexError
            end.

(** [[[version, resolveType(version, types)] for version, types in ...]] *)
Fixpoint resolve_all (items : list (string * list pyval))
  : result (list (string * pyval)) :=
  match items with
  | [] => Ok []
  | (version, types) :: rest =>
      t <- resolveType version types ;;
      r <- resolve_all rest ;;
      Ok ((version, t) :: r)
  end.

(** The version table from the tags collected for each version. *)
Definition resolve_table (d : gmap string (list pyval)) : result (gmap string pyval) :=
  r <- resolve_all (map_to_list d) ;; Ok (list_to_map r).

(** [read_versions(file)] on the lines of the file. *)
Definition read_versions (lines : list string) : result (gmap string pyval) :=
  d <- read_lines lines PyNone ∅ ;; resolve_table d.

(** The release type of a version string: what [formatReleaseType] binds
    for an element with this text, given [OPTIONS.versions]. *)
Definition releaseType (versions : gmap string pyval) (version : string) : pyval :=
  match versions !! version with
  | None => PyStr "unknown"
  | Some type => type
  end.

End Versions.
Export Versions.

(** ** The summary report *)

Module Summary.
Import Str.

(** [userID(rec)] *)
Definition userID (rec : gmap string pyval) : result pyval := getitem rec "user-name".

(** [rec['stacktrace'] != "NA" and rec['is-user-exception'] == flag] *)
Definition isException (flag : string) (rec : gmap string pyval) : result bool :=
  at' <- getitem rec "stacktrace" ;;
  if negb (bool_decide (at' = PyStr "NA"))
  then user <- getitem rec "is-user-exception" ;; Ok (bool_decide (user = PyStr flag))
  else Ok false.

(** [isStingException(rec)] and [isUserException(rec)] *)
Definition isStingException : gmap string pyval -> result bool := isException "false".
Definition isUserException : gmap string pyval -> result bool := isException "true".

(** [len(filter(p, l))] for a test that can raise. *)
Fixpoint count_if {A} (p : A -> result bool) (l : list A) : result Z :=
  match l with
  | [] => Ok 0
  | a :: l' =>
      b <- p a ;;
      n <- count_if p l' ;;
      Ok (if b : bool then n + 1 else n)
  end.

(** [set(map(userID, reports))], in the order of the first sightings. *)
Fixpoint user_set (reports : list (gmap string pyval)) (seen : list pyval)
  : result (list pyval) :=
  match reports with
  | [] => Ok seen
  | rec :: l => u <- userID rec ;; user_set l (set_add u seen)
  end.

(** What [SummaryReport.finalize] prints after the date of the day. *)
Record day_summary := {
  n_runs : Z;
  n_sting : Z;
  n_user : Z;
  user_names : string
}.

(** [SummaryReport.finalize] *)
Definition summary_finalize (reports : list (gmap string pyval)) : result day_summary :=
  sting <- count_if isStingException reports ;;
  user <- count_if isUserException reports ;;
  us <- user_set reports [] ;;
  names <- join_vals ", " us ;;
  Ok {| n_runs := Z.of_nat (length reports); n_sting := sting;
        n_user := user; user_names := names |}.

End Summary.

(** * Properties *)

(** ** Facts about strings and the matcher *)

Module ReFacts.
Import Str Re.

Lemma append_assoc (a b c : string) : (a +:+ b) +:+ c = a +:+ (b +:+ c).
Proof. induction a as [|x a IH]; simpl; [reflexivity | f_equal; exact IH]. Qed.

Lemma length_append (a b : string) :
  String.length (a +:+ b) = (String.length a + String.length b)%nat.
Proof. induction a as [|x a IH]; simpl; [reflexivity | f_equal; exact IH]. Qed.

(** What a group records: the text between its two ends. *)
Lemma take_consumed (a b : string) :
  take (String.length (a +:+ b) - String.length b) (a +:+ b) = a.
Proof.
  rewrite length_append.
  replace (String.length a + String.length b - String.length b)%nat
    with (String.length a) by lia.
  induction a as [|x a IH]; simpl.
  - destruct b; reflexivity.
  - f_equal. exact IH.
Qed.

(** [rest] does not go on with a character of the class. *)
Definition stops (k : cls) (rest : string) : bool :=
  match rest with
  | EmptyString => true
  | String c _ => negb (in_cls k c)
  end.

(** A greedy star takes a whole run of the class when the rest of the
    pattern matches after it. *)
Lemma star_run {R} (k : cls) (cont : string -> option R) (ds rest : string) (r : R) :
  all (in_cls k) ds = true ->
  stops k rest = true ->
  cont rest = Some r ->
  star k cont (ds +:+ rest) = Some r.
Proof.
  intros Hds Hrest Hcont. induction ds as [|c ds IH]; simpl in *.
  - destruct rest as [|c rest]; simpl in *; [assumption |].
    apply negb_true_iff in Hrest. now rewrite Hrest.
  - apply andb_true_iff in Hds as [Hc Hds]. rewrite Hc, (IH Hds). reflexivity.
Qed.

Definition with_group (x : string) (g : groups) : groups :=
  {| opened := opened g; closed := x :: closed g |}.

Lemma close_open (a s : string) (g : groups) :
  close_group s (open_group (a +:+ s) g) = with_group a g.
Proof. unfold close_group, open_group, with_group. simpl. now rewrite take_consumed. Qed.

Lemma run_bol (text : string) (p : list atom) (g : groups) :
  run text (Bol :: p) g text = run text p g text.
Proof. simpl. now rewrite Nat.eqb_refl. Qed.

Lemma run_one (text : string) (k : cls) (p : list atom) (g : groups) (c : ascii)
    (s : string) :
  in_cls k c = true -> run text (One k :: p) g (String c s) = run text p g s.
Proof. intros H. simpl. now rewrite H. Qed.

Lemma run_one_fails (text : string) (k : cls) (p : list atom) (g : groups) (c : ascii)
    (s : string) :
  in_cls k c = false -> run text (One k :: p) g (String c s) = None.
Proof. intros H. simpl. now rewrite H. Qed.

(** A group around one character. *)
Lemma run_group_one (text : string) (k : cls) (p : list atom) (g : groups)
    (c : ascii) (s : string) :
  in_cls k c = true ->
  run text (Open :: One k :: Close :: p) g (String c s)
  = run text p (with_group (String c "") g) s.
Proof.
  intros H. change (run text (Open :: One k :: Close :: p) g (String c s))
    with (run text (One k :: Close :: p) (open_group (String c "" +:+ s) g) (String c s)).
  rewrite run_one by assumption.
  change (run text (Close :: p) (open_group (String c "" +:+ s) g) s)
    with (run text p (close_group s (open_group (String c "" +:+ s) g)) s).
  now rewrite close_open.
Qed.

(** A group around a greedy run of a class, when the rest of the pattern
    matches after the whole run. *)
Lemma run_group_star (text : string) (k : cls) (p : list atom) (g : groups)
    (ds rest : string) (r : list string) :
  all (in_cls k) ds = true ->
  stops k rest = true ->
  run text p (with_group ds g) rest = Some r ->
  run text (Open :: Star k :: Close :: p) g (ds +:+ rest) = Some r.
Proof.
  intros Hds Hrest Hp.
  change (run text (Open :: Star k :: Close :: p) g (ds +:+ rest))
    with (star k (run text (Close :: p) (open_group (ds +:+ rest) g)) (ds +:+ rest)).
  apply star_run; [assumption | assumption |].
  change (run text (Close :: p) (open_group (ds +:+ rest) g) rest)
    with (run text p (close_group rest (open_group (ds +:+ rest) g)) rest).
  now rewrite close_open.
Qed.

Lemma run_group_plus (text : string) (k : cls) (p : list atom) (g : groups)
    (ds rest : string) (r : list string) :
  nonempty ds = true ->
  all (in_cls k) ds = true ->
  stops k rest = true ->
  run text p (with_group ds g) rest = Some r ->
  run text (Open :: Plus k :: Close :: p) g (ds +:+ rest) = Some r.
Proof.
  intros Hne Hds Hrest Hp. destruct ds as [|c ds]; [discriminate |].
  simpl in Hds. apply andb_true_iff in Hds as [Hc Hds].
  change (run text (Open :: Plus k :: Close :: p) g (String c ds +:+ rest))
    with (if in_cls k c
          then star k (run text (Close :: p) (open_group (String c ds +:+ rest) g))
                      (ds +:+ rest)
          else None).
  rewrite Hc. apply star_run; [assumption | assumption |].
  change (run text (Close :: p) (open_group (String c ds +:+ rest) g) rest)
    with (run text p (close_group rest (open_group (String c ds +:+ rest) g)) rest).
  now rewrite close_open.
Qed.

(** A greedy run of a class outside of a group. *)
Lemma run_star (text : string) (k : cls) (p : list atom) (g : groups)
    (ds rest : string) (r : list string) :
  all (in_cls k) ds = true ->
  stops k rest = true ->
  run text p g rest = Some r ->
  run text (Star k :: p) g (ds +:+ rest) = Some r.
Proof. intros Hds Hrest Hp. simpl. now apply star_run. Qed.

Lemma digit_not (c a : ascii) :
  is_digit a = false -> is_digit c = true -> Ascii.eqb c a = false.
Proof.
  intros Ha Hc. destruct (Ascii.eqb_spec c a) as [->|]; [congruence | reflexivity].
Qed.

Lemma digit_is_word (c : ascii) : is_digit c = true -> is_word c = true.
Proof. intros H. unfold is_word. rewrite H. now rewrite orb_true_r. Qed.

Lemma all_digits_int (ds : string) :
  nonempty ds = true -> all is_digit ds = true -> py_int ds = Ok (digits_value 0 ds).
Proof. intros H1 H2. unfold py_int. now rewrite H1, H2. Qed.

End ReFacts.

(** ** The version parser *)

Module VersionProps.
Import Str Re Version ReFacts.

(** The table of [TestSequenceFunctions]. *)
Example test_parsing :
  map parseGATKVersion
    ["1.0.5777"; "1.0.6000"; "1.3-33-g1bfe280"; "1.4-1-xafdasdf"; "1.3";
     "<unknown>"; "382343549e2e98e2727e66548b6b2bafa6fa4297"]
  = [Ok ("0.5", 777); Ok ("0.6", 0); Ok ("1.3", 33); Ok ("1.4", 1);
     Ok ("1.3", 0); Ok ("unknown", 0); Ok ("unknown", 0)].
Proof. vm_compute. reflexivity. Qed.

(** The text [1.0.<d><digits>]. *)
Definition legacy (d : ascii) (digits : string) : string :=
  "1.0." +:+ String d digits.

(** The text [<d>.<ds1>-<ds2>-<hash>]. *)
Definition modern (d : ascii) (ds1 ds2 hash : string) : string :=
  String d ("." +:+ ds1 +:+ "-" +:+ ds2 +:+ "-" +:+ hash).

Lemma append_empty (a : string) : a +:+ "" = a.
Proof. induction a as [|x a IH]; simpl; [reflexivity | f_equal; exact IH]. Qed.

(** After [^], the text itself plays no part in the match any more. *)
Ltac forget_text :=
  match goal with
  | |- run ?t _ _ _ = _ => set (text := t) at 1; clearbody text
  end.

Lemma svn_legacy (d : ascii) (digits : string) :
  is_digit d = true -> all is_digit digits = true ->
  re_match svn_re (legacy d digits) = Some [String d ""; digits].
Proof.
  intros Hd Hds. unfold re_match, legacy, svn_re.
  cbn [lit app String.append]. rewrite run_bol. forget_text.
  rewrite !run_one by reflexivity.
  rewrite run_group_one by assumption.
  rewrite <- (append_empty digits) at 1.
  apply run_group_star; [assumption | reflexivity | reflexivity].
Qed.

(** The legacy form with digits after the first one: the minor version is
    their value. *)
Lemma parse_legacy (d : ascii) (digits : string) :
  is_digit d = true -> all is_digit digits = true -> nonempty digits = true ->
  parseGATKVersion (legacy d digits) = Ok ("0." +:+ String d "", digits_value 0 digits).
Proof.
  intros Hd Hds Hne. unfold parseGATKVersion.
  rewrite svn_legacy by assumption. cbn [group nth Nat.sub].
  now rewrite all_digits_int.
Qed.

(** The legacy form with nothing after the first digit: group 2 is empty
    and [int] raises. *)
Lemma parse_legacy_one_digit (d : ascii) :
  is_digit d = true -> parseGATKVersion (legacy d "") = Raise ValueError.
Proof.
  intros Hd. unfold parseGATKVersion.
  rewrite svn_legacy by (assumption || reflexivity). reflexivity.
Qed.

(** C4: on the version string "1.0.5", of the legacy form with an empty
    remainder after the first digit, [parseGATKVersion] raises a ValueError
    where the claim has it return ("0.5", 0); and so on each string with one
    digit after [1.0.]. *)
Theorem parseGATKVersion_legacy_empty_remainder :
  legacy "5" "" = "1.0.5"
  /\ parseGATKVersion "1.0.5" = Raise ValueError
  /\ map (fun d => parseGATKVersion (legacy d ""))
         ["0"; "1"; "2"; "3"; "4"; "5"; "6"; "7"; "8"; "9"]%char
     = repeat (Raise ValueError) 10.
Proof. repeat split; vm_compute; reflexivity. Qed.

Lemma svn_not_modern (d : ascii) (ds1 rest : string) :
  nonempty ds1 = true -> all is_digit ds1 = true ->
  re_match svn_re (String d ("." +:+ ds1 +:+ "-" +:+ rest)) = None.
Proof.
  intros Hne Hds. unfold re_match, svn_re.
  cbn [lit app String.append]. rewrite run_bol. forget_text.
  destruct ds1 as [|a ds1]; [discriminate |].
  simpl in Hds. apply andb_true_iff in Hds as [Ha Hds].
  cbn [String.append].
  destruct (in_cls (Chr "1") d) eqn:E1; [| now rewrite run_one_fails].
  rewrite run_one by assumption. rewrite run_one by reflexivity.
  destruct (in_cls (Chr "0") a) eqn:E0; [| now rewrite run_one_fails].
  rewrite run_one by assumption.
  destruct ds1 as [|b ds1]; cbn [String.append].
  - now rewrite run_one_fails.
  - simpl in Hds. apply andb_true_iff in Hds as [Hb _].
    rewrite run_one_fails; [reflexivity |].
    simpl. now apply digit_not.
Qed.

Lemma gitFull_modern (d : ascii) (ds1 ds2 hash : string) :
  is_digit d = true ->
  nonempty ds1 = true -> all is_digit ds1 = true ->
  nonempty ds2 = true -> all is_digit ds2 = true ->
  all is_word hash = true ->
  re_match gitFull_re (modern d ds1 ds2 hash) = Some [String d ""; ds1; ds2].
Proof.
  intros Hd Hne1 Hds1 Hne2 Hds2 Hw. unfold re_match, gitFull_re, modern.
  rewrite run_bol. forget_text.
  rewrite run_group_one by assumption.
  cbn [String.append]. rewrite run_one by reflexivity.
  apply run_group_plus; [assumption | assumption | reflexivity |].
  cbn [String.append]. rewrite run_one by reflexivity.
  apply run_group_plus; [assumption | assumption | reflexivity |].
  cbn [String.append]. rewrite run_one by reflexivity.
  rewrite <- (append_empty hash).
  apply run_star; [assumption | reflexivity | reflexivity].
Qed.

(** The full modern form with a hash of word characters. *)
Lemma parse_modern (d : ascii) (ds1 ds2 hash : string) :
  is_digit d = true ->
  nonempty ds1 = true -> all is_digit ds1 = true ->
  nonempty ds2 = true -> all is_digit ds2 = true ->
  all is_word hash = true ->
  parseGATKVersion (modern d ds1 ds2 hash)
  = Ok (String d "" +:+ "." +:+ ds1, digits_value 0 ds2).
Proof.
  intros Hd Hne1 Hds1 Hne2 Hds2 Hw. unfold parseGATKVersion.
  unfold modern at 1. rewrite svn_not_modern by assumption.
  rewrite gitFull_modern by assumption. cbn [group nth Nat.sub].
  now rewrite all_digits_int.
Qed.

(** C5, as amended: for a digit [d], non-empty runs of digits [ds1] and
    [ds2] and a non-empty hash made of word characters (letters, digits,
    underscore), [parseGATKVersion] on [d.ds1-ds2-hash] returns the major
    version [d.ds1] and the minor version the value of [ds2]. *)
Theorem parseGATKVersion_modern_word_hash (d : ascii) (ds1 ds2 hash : string) :
  is_digit d = true ->
  nonempty ds1 = true -> all is_digit ds1 = true ->
  nonempty ds2 = true -> all is_digit ds2 = true ->
  nonempty hash = true -> all is_word hash = true ->
  parseGATKVersion (modern d ds1 ds2 hash)
  = Ok (String d "" +:+ "." +:+ ds1, digits_value 0 ds2).
Proof. intros Hd Hne1 Hds1 Hne2 Hds2 _ Hw. now apply parse_modern. Qed.

Lemma parseGATKVersion_modern_word_hash_witness :
  modern "1" "3" "33" "g1bfe280" = "1.3-33-g1bfe280"
  /\ parseGATKVersion (modern "1" "3" "33" "g1bfe280") = Ok ("1.3", 33).
Proof.
  split; [reflexivity |].
  exact (parseGATKVersion_modern_word_hash "1" "3" "33" "g1bfe280"
           eq_refl eq_refl eq_refl eq_refl eq_refl eq_refl eq_refl).
Defined.

(** C5 as stated fails: the hash "g1bfe280-dirty" is not empty, and the
    string is of the form digit, dot, digits, dash, digits, dash, hash, but
    the result is ("unknown", 0) and not ("1.3", 33). *)
Lemma parseGATKVersion_modern_any_hash_fails :
  modern "1" "3" "33" "g1bfe280-dirty" = "1.3-33-g1bfe280-dirty"
  /\ is_digit "1" = true
  /\ (nonempty "3" = true /\ all is_digit "3" = true)
  /\ (nonempty "33" = true /\ all is_digit "33" = true)
  /\ nonempty "g1bfe280-dirty" = true
  /\ parseGATKVersion (modern "1" "3" "33" "g1bfe280-dirty") = Ok ("unknown", 0)
  /\ parseGATKVersion (modern "1" "3" "33" "g1bfe280-dirty") <> Ok ("1.3", 33).
Proof. repeat split; try reflexivity. vm_compute. discriminate. Qed.

End VersionProps.

(** ** The record filter *)

Module FilterProps.
Import Str.

Definition no_dev : options :=
  {| verbose := false; ID := None; maxRecords := None; noDev := true;
     rev := None; exception_selection := "all"; dryRun := false;
     versions := ∅; maxDays := None; updateFreq := -1 |}.

(** A report of a run whose phone-home type is [t]. *)
Definition report_with_phone_home (t : option string) : elt :=
  Element "GATK-run-report" None
    [Element "id" (Some "D7uhPv") [];
     Element "argument-collection" None
       [Element "phone-home-type" t []]].

(** With the startsWith argument left out, [eltTagEquals] is true as soon
    as the child exists: its text is not looked at. *)
Lemma eltTagEquals_no_prefix (e : elt) (tag : string) (value : pyval) :
  eltTagEquals (Some e) tag value None = Ok (bool_decide (is_Some (find e tag))).
Proof.
  unfold eltTagEquals. destruct (find e tag) as [m|]; [| reflexivity].
  now destruct (decide (text m = value)).
Qed.

(** With only the dev-build exclusion switched on, a record is rejected
    exactly when its first [argument-collection] child has a
    [phone-home-type] child, whatever the text of that child. *)
Lemma passesFilters_noDev (O : options) (today : datetime) (e : elt) :
  noDev O = true -> rev O = None -> maxDays O = None ->
  passesFilters O today e
  = Ok (negb (match find e "argument-collection" with
              | Some a => bool_decide (is_Some (find a "phone-home-type"))
              | None => false
              end)).
Proof.
  intros H1 H2 H3. unfold passesFilters. rewrite H1, H2, H3.
  destruct (find e "argument-collection") as [a|]; [| reflexivity].
  rewrite eltTagEquals_no_prefix. simpl.
  now destruct (bool_decide (is_Some (find a "phone-home-type"))).
Qed.

(** C1: with the dev-build exclusion enabled, a record whose
    phone-home-type child has the text "STANDARD", or no text, is rejected
    like one with the text "DEV", where the claim has only "DEV"
    rejected. *)
Theorem passesFilters_rejects_every_phone_home_type (today : datetime) :
  passesFilters no_dev today (report_with_phone_home (Some "DEV")) = Ok false
  /\ passesFilters no_dev today (report_with_phone_home (Some "STANDARD")) = Ok false
  /\ passesFilters no_dev today (report_with_phone_home None) = Ok false.
Proof. repeat split; reflexivity. Qed.

End FilterProps.

(** ** The record decoder *)

Module DecoderProps.
Import Str Version.

(** An invariant of a loop that returns holds at its end. *)
Lemma foldM_invariant {A B} (P : B -> Prop) (f : B -> A -> result B) (l : list A)
    (b b' : B) :
  (forall x a y, a ∈ l -> P x -> f x a = Ok y -> P y) ->
  P b -> foldM f l b = Ok b' -> P b'.
Proof.
  revert b. induction l as [|a l IH]; intros b Hstep Hb H; simpl in H.
  - now inversion H; subst.
  - destruct (f b a) as [y|] eqn:E; simpl in H; [| discriminate].
    apply (IH y); [| | assumption].
    + intros x a' y' Ha'. apply Hstep. now right.
    + apply (Hstep b a y); [now left | assumption | assumption].
Qed.

(** A loop whose body returns on each item returns. *)
Lemma foldM_returns {A B} (f : B -> A -> result B) (l : list A) (b : B) :
  (forall x a, a ∈ l -> exists y, f x a = Ok y) ->
  exists b', foldM f l b = Ok b'.
Proof.
  revert b. induction l as [|a l IH]; intros b Hstep; simpl.
  - now exists b.
  - destruct (Hstep b a) as [y Hy]; [now left |]. rewrite Hy. simpl.
    apply IH. intros x a' Ha'. apply Hstep. now right.
Qed.

(** What [add_missing] leaves at a field. *)
Lemma add_missing_lookup (fs : list string) (b : gmap string pyval) (f : string) :
  add_missing fs b !! f
  = match b !! f with
    | Some v => Some v
    | None => if bool_decide (f ∈ fs) then Some (PyStr MISSING_VALUE) else None
    end.
Proof.
  revert b. induction fs as [|a fs IH]; intros b.
  - simpl. now destruct (b !! f).
  - unfold add_missing in *. simpl. rewrite IH. clear IH.
    destruct (decide (a = f)) as [->|Hne].
    + destruct (b !! f) eqn:E; [now rewrite E |].
      rewrite lookup_insert_eq.
      now rewrite (bool_decide_eq_true_2 (f ∈ f :: fs)) by now left.
    + assert (Hb : (match b !! a with
                    | Some _ => b
                    | None => <[a:=PyStr MISSING_VALUE]> b
                    end) !! f = b !! f).
      { destruct (b !! a); [reflexivity |]. now rewrite lookup_insert_ne. }
      rewrite Hb. destruct (b !! f); [reflexivity |].
      destruct (decide (f ∈ fs)) as [Hin|Hnin].
      * rewrite (bool_decide_eq_true_2 (f ∈ fs)) by assumption.
        now rewrite (bool_decide_eq_true_2 (f ∈ a :: fs)) by now right.
      * rewrite (bool_decide_eq_false_2 (f ∈ fs)) by assumption.
        rewrite (bool_decide_eq_false_2 (f ∈ a :: fs)); [reflexivity |].
        intros [?|?]%elem_of_cons; congruence.
Qed.

(** The formatters of an element bind only their own fields. *)
Lemma apply_formats_other (e : elt) (ffs : list (string * formatter))
    (b b' : gmap string pyval) (f : string) :
  f ∉ ffs.*1 -> apply_formats e ffs b = Ok b' -> b' !! f = b !! f.
Proof.
  intros Hf H. unfold apply_formats in H.
  apply (foldM_invariant (fun x => x !! f = b !! f) _ _ _ _) in H;
    [assumption | | reflexivity].
  intros x [f' fmt] y Hin Hx Hy. simpl in Hy.
  destruct (fmt e); simpl in Hy; [| discriminate].
  inversion Hy; subst. rewrite lookup_insert_ne; [assumption |].
  intros ->. apply Hf. apply list_elem_of_fmap. now exists (f, fmt).
Qed.

(** No formatter a child of the record triggers writes the field [f]. *)
Definition underivable (self : RecordDecoder) (report : elt) (f : string) : Prop :=
  forall child ffs,
    child ∈ children report -> formatters self !! tag child = Some ffs -> f ∉ ffs.*1.

Lemma decode_children_other (self : RecordDecoder) (report : elt)
    (b b' : gmap string pyval) (f : string) :
  underivable self report f ->
  decode_children self report b = Ok b' -> b' !! f = b !! f.
Proof.
  intros Hf H. unfold decode_children in H.
  apply (foldM_invariant (fun x => x !! f = b !! f) _ _ _ _) in H;
    [assumption | | reflexivity].
  intros x child y Hin Hx Hy.
  destruct (formatters self !! tag child) as [ffs|] eqn:E.
  - rewrite <- Hx. eapply apply_formats_other; [| eassumption]. now apply (Hf child).
  - now inversion Hy; subst.
Qed.

(** Completeness of [decode] for every decoder: a mapping it returns binds
    every declared field, and binds the sentinel to the declared fields no
    child of the record gives a value to. *)
Lemma decode_binds_fields (self : RecordDecoder) (report : elt) (b : gmap string pyval) :
  decode self report = Ok b ->
  (forall f, f ∈ fields self -> is_Some (b !! f))
  /\ (forall f, f ∈ fields self -> underivable self report f ->
                b !! f = Some (PyStr MISSING_VALUE)).
Proof.
  unfold decode. destruct (decode_children self report ∅) as [b0|] eqn:E;
    simpl; [| discriminate].
  intros H. inversion H; subst. split.
  - intros f Hf. rewrite add_missing_lookup.
    destruct (b0 !! f); [now eexists |].
    rewrite bool_decide_eq_true_2 by assumption. now eexists.
  - intros f Hf Hu. rewrite add_missing_lookup.
    rewrite (decode_children_other _ _ _ _ _ Hu E), lookup_empty.
    now rewrite bool_decide_eq_true_2.
Qed.

(** The formatters of an element return when each of them does. *)
Lemma apply_formats_returns (e : elt) (ffs : list (string * formatter))
    (b : gmap string pyval) :
  Forall (fun ff => returns (ff.2 e) = true) ffs ->
  exists b', apply_formats e ffs b = Ok b'.
Proof.
  intros H. unfold apply_formats. apply foldM_returns.
  intros x [f fmt] Hin. rewrite Forall_forall in H.
  specialize (H _ Hin). simpl in *. destruct (fmt e); [| discriminate].
  simpl. now eexists.
Qed.

(** The children on which the formatters of [RecordDecoder] return: a
    version element needs a text [parseGATKVersion] accepts, an exception
    element frames with a text. *)
Definition decodable (e : elt) : bool :=
  if String.eqb (tag e) "svn-version" then returns (parseGATKVersion_val (text e))
  else if String.eqb (tag e) "exception" then returns (parseException e)
  else true.

(** Case analysis on the tag an entry of the formatter table is registered
    under; [tac] solves each case. *)
Ltac formatter_cases H tac :=
  unfold new_decoder, add, addComplex, empty_decoder in H;
  cbn [fold_left formatters fields] in H;
  repeat (rewrite lookup_insert in H;
          case_decide; [simplify_eq; tac |]);
  try (rewrite lookup_empty in H; discriminate H).

Lemma formatters_return (versions : gmap string pyval) (e : elt)
    (ffs : list (string * formatter)) :
  formatters (new_decoder versions) !! tag e = Some ffs ->
  decodable e = true ->
  Forall (fun ff => returns (ff.2 e) = true) ffs.
Proof.
  intros H Hd.
  formatter_cases H ltac:(idtac).
  all: unfold decodable in Hd.
  all: match goal with E : _ = tag _ |- _ => rewrite <- E in Hd end.
  all: cbn in Hd.
  all: repeat constructor.
  all: cbn [snd].
  all: unfold formatMajorVersion, formatMinorVersion, formatExceptionMsg,
         formatExceptionAt, formatExceptionAtBrief, formatExceptionUser,
         formatRunStatus.
  all: try match goal with
           | |- context [parseGATKVersion_val ?t] =>
               destruct (parseGATKVersion_val t); [reflexivity | discriminate]
           | |- context [parseException ?x] =>
               destruct (parseException x) as [[[[? ?] ?] ?]|];
               [reflexivity | discriminate]
           end.
  - unfold formatDomainName.
    now destruct (2 <=? Z.of_nat (length (split_on "." (hostName e)))).
  - unfold formatReleaseType. destruct (text e) as [|t]; [reflexivity |].
    now destruct (versions !! t).
Qed.

(** [decode] returns on a record whose children are decodable. *)
Lemma decode_returns (versions : gmap string pyval) (report : elt) :
  forallb decodable (children report) = true ->
  exists b, decode (new_decoder versions) report = Ok b.
Proof.
  intros H. unfold decode.
  destruct (foldM_returns
              (fun b e =>
                 match formatters (new_decoder versions) !! tag e with
                 | Some fieldFormats => apply_formats e fieldFormats b
                 | None => Ok b
                 end) (children report) ∅) as [b Hb].
  - intros x child Hin.
    destruct (formatters (new_decoder versions) !! tag child) as [ffs|] eqn:E;
      [| now eexists].
    apply apply_formats_returns. eapply formatters_return; [eassumption |].
    rewrite forallb_forall in H. apply H. now apply list_elem_of_In.
  - unfold decode_children. rewrite Hb. unfold bind. eexists. reflexivity.
Qed.

(** The declared fields, in the order [__init__] registers them. *)
Lemma declared_fields (versions : gmap string pyval) :
  fields (new_decoder versions)
  = ["id"; "walker-name"; "svn-version"; "gatk-version"; "gatk-minor-version";
     "release-type"; "start-time"; "end-time"; "run-time"; "user-name";
     "host-name"; "domain-name"; "java"; "machine"; "max-memory";
     "total-memory"; "iterations"; "exception-msg"; "stacktrace";
     "exception-at-brief"; "is-user-exception"; "run-status"].
Proof. reflexivity. Qed.

(** C6: for every record, [decode] returns a mapping when the children of
    the record are decodable, and a mapping it returns binds every declared
    field, with the sentinel "NA" at each declared field that no child of
    the record gives a value to. *)
Theorem decode_complete (versions : gmap string pyval) (report : elt) :
  (forallb decodable (children report) = true ->
   exists b, decode (new_decoder versions) report = Ok b)
  /\ (forall b, decode (new_decoder versions) report = Ok b ->
        (forall f, f ∈ fields (new_decoder versions) -> is_Some (b !! f))
        /\ (forall f, f ∈ fields (new_decoder versions) ->
                      underivable (new_decoder versions) report f ->
                      b !! f = Some (PyStr MISSING_VALUE))).
Proof.
  split; [apply decode_returns |].
  intros b. apply decode_binds_fields.
Qed.

(** A report of a run that ended well: no exception element. *)
Definition sample_report : elt :=
  Element "GATK-run-report" None
    [Element "id" (Some "D7uhPv") [];
     Element "walker-name" (Some "CountReads") [];
     Element "svn-version" (Some "1.4-28-g26ab3e8") [];
     Element "end-time" (Some "2010/08/31 15.38.00") [];
     Element "host-name" (Some "node1.broadinstitute.org") []].

(** The fields written under a tag. *)
Definition fields_of_tag (self : RecordDecoder) (t : string) : list string :=
  match formatters self !! t with
  | Some ffs => ffs.*1
  | None => []
  end.

(** A test for [underivable]. *)
Definition underivableb (self : RecordDecoder) (report : elt) (f : string) : bool :=
  forallb (fun child => negb (bool_decide (f ∈ fields_of_tag self (tag child))))
          (children report).

Lemma underivableb_sound (self : RecordDecoder) (report : elt) (f : string) :
  underivableb self report f = true -> underivable self report f.
Proof.
  intros H child ffs Hin Hffs Hf. unfold underivableb in H.
  rewrite forallb_forall in H. specialize (H child).
  unfold fields_of_tag in H. rewrite Hffs in H.
  rewrite bool_decide_eq_true_2 in H by assumption.
  assert (false = true) by (apply H; now apply list_elem_of_In). discriminate.
Qed.

Lemma decode_complete_witness :
  exists b, decode (new_decoder ∅) sample_report = Ok b
            /\ (forall f, f ∈ fields (new_decoder ∅) -> is_Some (b !! f))
            /\ b !! "java" = Some (PyStr "NA").
Proof.
  destruct (decode_complete ∅ sample_report) as [Hret Hcomp].
  assert (Hd : forallb decodable (children sample_report) = true)
    by (vm_compute; reflexivity).
  destruct (Hret Hd) as [b Hb]. exists b.
  destruct (Hcomp b Hb) as [Hall Hna].
  split; [exact Hb |]. split; [exact Hall |].
  apply Hna.
  - rewrite declared_fields.
    repeat (first [apply list_elem_of_here | apply list_elem_of_further]).
  - apply underivableb_sound. vm_compute. reflexivity.
Defined.

(** The fields the formatters of the exception element write. *)
Definition exception_fields : list string :=
  ["exception-msg"; "stacktrace"; "exception-at-brief"; "is-user-exception";
   "run-status"].

(** They are written under the tag [exception] only. *)
Lemma exception_fields_source (versions : gmap string pyval) (t f : string)
    (ffs : list (string * formatter)) :
  formatters (new_decoder versions) !! t = Some ffs ->
  f ∈ ffs.*1 -> f ∈ exception_fields -> t = "exception".
Proof.
  intros H Hf He.
  formatter_cases H ltac:(idtac); [reflexivity | ..].
  all: cbn in Hf; unfold exception_fields in He.
  all: repeat (apply elem_of_cons in Hf as [-> | Hf]);
       try (inversion Hf; fail).
  all: repeat (apply elem_of_cons in He as [He | He]; [discriminate He |]).
  all: inversion He.
Qed.

Lemma no_exception_underivable (versions : gmap string pyval) (report : elt)
    (f : string) :
  existsb eltIsException (children report) = false ->
  f ∈ exception_fields ->
  underivable (new_decoder versions) report f.
Proof.
  intros Hno Hf child ffs Hin Hffs Hfin.
  assert (Ht : tag child = "exception")
    by (eapply exception_fields_source; eassumption).
  assert (Hex : existsb eltIsException (children report) = true).
  { apply existsb_exists. exists child. split; [now apply list_elem_of_In |].
    unfold eltIsException. rewrite Ht. reflexivity. }
  congruence.
Qed.

(** C2, as amended: for a record without an exception child, [decode]
    returns when the children are decodable, and what it returns binds the
    sentinel "NA" to the exception message, the user-exception flag, the
    stack trace and the run status. *)
Theorem decode_without_exception (versions : gmap string pyval) (report : elt) :
  existsb eltIsException (children report) = false ->
  (forallb decodable (children report) = true ->
   exists b, decode (new_decoder versions) report = Ok b)
  /\ (forall b, decode (new_decoder versions) report = Ok b ->
        b !! "exception-msg" = Some (PyStr "NA")
        /\ b !! "is-user-exception" = Some (PyStr "NA")
        /\ b !! "stacktrace" = Some (PyStr "NA")
        /\ b !! "run-status" = Some (PyStr "NA")).
Proof.
  intros Hno. split; [apply decode_returns |].
  intros b Hb. destruct (decode_binds_fields _ _ _ Hb) as [_ Hna].
  assert (Hf : forall f, f ∈ exception_fields -> b !! f = Some (PyStr "NA")).
  { intros f Hf. apply Hna.
    - rewrite declared_fields. unfold exception_fields in Hf.
      repeat (apply elem_of_cons in Hf as [-> | Hf];
              [repeat (first [apply list_elem_of_here | apply list_elem_of_further]) |]).
      inversion Hf.
    - now apply no_exception_underivable. }
  repeat split; apply Hf; unfold exception_fields;
    repeat (first [apply list_elem_of_here | apply list_elem_of_further]).
Qed.

Lemma decode_without_exception_witness :
  exists b, decode (new_decoder ∅) sample_report = Ok b
            /\ b !! "exception-msg" = Some (PyStr "NA")
            /\ b !! "run-status" = Some (PyStr "NA").
Proof.
  assert (Hno : existsb eltIsException (children sample_report) = false)
    by (vm_compute; reflexivity).
  assert (Hd : forallb decodable (children sample_report) = true)
    by (vm_compute; reflexivity).
  destruct (decode_without_exception ∅ sample_report Hno) as [Hret Hna].
  destruct (Hret Hd) as [b Hb]. exists b.
  destruct (Hna b Hb) as (H1 & _ & _ & H4).
  split; [exact Hb |]. split; [exact H1 | exact H4].
Defined.

(** C2 as stated fails: the sample report has no exception child, and in
    what [decode] returns the exception message is "NA", not "MISSING", and
    the run status is "NA", not "success". *)
Lemma decode_without_exception_not_defaults :
  existsb eltIsException (children sample_report) = false
  /\ exists b, decode (new_decoder ∅) sample_report = Ok b
               /\ b !! "exception-msg" = Some (PyStr "NA")
               /\ b !! "exception-msg" <> Some (PyStr "MISSING")
               /\ b !! "run-status" = Some (PyStr "NA")
               /\ b !! "run-status" <> Some (PyStr "success").
Proof.
  split; [reflexivity |].
  assert (Hd : forallb decodable (children sample_report) = true)
    by (vm_compute; reflexivity).
  destruct (decode_returns ∅ sample_report Hd) as [b Hb]. exists b.
  destruct (decode_binds_fields _ _ _ Hb) as [_ Hna].
  assert (H1 : b !! "exception-msg" = Some (PyStr "NA")).
  { apply Hna; [rewrite declared_fields;
                repeat (first [apply list_elem_of_here | apply list_elem_of_further]) |].
    apply underivableb_sound. vm_compute. reflexivity. }
  assert (H2 : b !! "run-status" = Some (PyStr "NA")).
  { apply Hna; [rewrite declared_fields;
                repeat (first [apply list_elem_of_here | apply list_elem_of_further]) |].
    apply underivableb_sound. vm_compute. reflexivity. }
  split; [exact Hb |]. rewrite H1, H2. repeat split; discriminate.
Qed.

(** The defaults "MISSING", "NA", "NA" and "success" are those of an
    exception element that is there, without a message, a stack trace and
    a user flag. *)
Lemma parseException_defaults (e : elt) :
  find e "message" = None -> find e "stacktrace" = None ->
  find e "is-user-exception" = None ->
  parseException e = Ok (PyStr "MISSING", "NA", PyStr "NA", "success").
Proof. intros H1 H2 H3. unfold parseException. now rewrite H1, H2, H3. Qed.

End DecoderProps.

(** ** The driver loop and the handlers *)

Module StageProps.
Import Str DecoderProps.

(** The reports the loop of [main] hands to the handler: those whose
    identifier the option [-i] selects. *)
Definition wanted (O : options) (report : elt) : bool :=
  match find report "id" with
  | Some idElt => selected O (text idElt)
  | None => false
  end.

Definition has_id (report : elt) : Prop := is_Some (find report "id").

Section Cutoff.
Variable O : options.
Variable N : Z.
Hypothesis HN : maxRecords O = Some N.
Hypothesis Hpos : 0 < N.
Context {H : Type}.
Variable f : H -> elt -> H.

Lemma cutoff_after (c : Z) : cutoff O c = (N <? c).
Proof.
  unfold cutoff. rewrite HN.
  replace (0 <? N) with true by (symmetry; apply Z.ltb_lt; exact Hpos).
  reflexivity.
Qed.

(** From a counter [c <= N], with more than [N - c] wanted reports left,
    the loop stops at the counter [N + 1], after the first [N + 1 - c]
    wanted reports. *)
Lemma main_loop_from (reports : list elt) (st : loop H) :
  Forall has_id reports ->
  0 <= counter st <= N ->
  N - counter st < Z.of_nat (length (List.filter (wanted O) reports)) ->
  exists st',
    main_loop O (fun h r => Ok (f h r)) reports st = Ok st'
    /\ counter st' = N + 1
    /\ the_handler st'
       = fold_left f (firstn (Z.to_nat (N + 1 - counter st))
                             (List.filter (wanted O) reports))
                   (the_handler st).
Proof.
  revert st. induction reports as [|report rest IH]; intros st Hid Hc Hlen.
  - simpl in Hlen. lia.
  - inversion Hid as [|? ? [idElt Hfind] Hrest]; subst.
    assert (Hw : wanted O report = selected O (text idElt))
      by (unfold wanted; now rewrite Hfind).
    cbn [main_loop List.filter] in Hlen |- *. rewrite Hfind. rewrite Hw in *.
    destruct (selected O (text idElt)) eqn:Hsel.
    + cbn [bind]. rewrite cutoff_after.
      destruct (N <? counter st + 1) eqn:Hcut.
      * apply Z.ltb_lt in Hcut. eexists. split; [reflexivity |].
        cbn [counter the_handler]. split; [lia |].
        replace (Z.to_nat (N + 1 - counter st)) with 1%nat by lia.
        reflexivity.
      * apply Z.ltb_ge in Hcut. cbn [length] in Hlen.
        edestruct (IH {| the_handler := f (the_handler st) report;
                         counter := counter st + 1;
                         progress := if (0 <? updateFreq O)
                                        && ((counter st + 1) mod updateFreq O =? 0)
                                     then progress st ++ [counter st + 1]
                                     else progress st |})
          as (st' & Hrun & Hcnt & Hh); [assumption | cbn; lia | cbn; lia |].
        exists st'. split; [exact Hrun |]. split; [exact Hcnt |].
        rewrite Hh. cbn [counter the_handler].
        replace (Z.to_nat (N + 1 - counter st))
          with (S (Z.to_nat (N + 1 - (counter st + 1)))) by lia.
        reflexivity.
    + apply IH; assumption.
Qed.

End Cutoff.

(** C10: with a maximum of [N > 0] records and more than [N] wanted
    reports in the stream, the loop of [main] stops with the counter at
    [N + 1], and the handler has been given the first [N + 1] wanted
    reports, in order, and no other. *)
Theorem main_loop_cutoff (O : options) (N : Z) {H : Type} (f : H -> elt -> H)
    (reports : list elt) (h0 : H) :
  maxRecords O = Some N ->
  0 < N ->
  Forall has_id reports ->
  N < Z.of_nat (length (List.filter (wanted O) reports)) ->
  exists st,
    main_loop O (fun h r => Ok (f h r)) reports (start h0) = Ok st
    /\ counter st = N + 1
    /\ the_handler st
       = fold_left f (firstn (Z.to_nat (N + 1)) (List.filter (wanted O) reports)) h0.
Proof.
  intros HN Hpos Hid Hlen.
  destruct (main_loop_from O N HN Hpos f reports (start h0)) as (st & H1 & H2 & H3);
    [assumption | cbn; lia | cbn; lia |].
  exists st. split; [exact H1 |]. split; [exact H2 |].
  rewrite H3. cbn [counter the_handler start].
  now replace (N + 1 - 0) with (N + 1) by lia.
Qed.

Definition report_with_id (i : string) : elt :=
  Element "GATK-run-report" None [Element "id" (Some i) []].

Definition max_two : options :=
  {| verbose := false; ID := None; maxRecords := Some 2; noDev := false;
     rev := None; exception_selection := "all"; dryRun := false;
     versions := ∅; maxDays := None; updateFreq := -1 |}.

(** With [-M 2] and five reports, a handler that keeps what it is given
    holds the first three. *)
Lemma main_loop_cutoff_witness :
  exists st,
    main_loop max_two (fun h r => Ok (h ++ [r]))
      (map report_with_id ["a"; "b"; "c"; "d"; "e"]) (start [])
    = Ok st
    /\ counter st = 3
    /\ the_handler st = map report_with_id ["a"; "b"; "c"].
Proof.
  assert (Hid : Forall has_id (map report_with_id ["a"; "b"; "c"; "d"; "e"]))
    by (repeat constructor; eexists; reflexivity).
  assert (Hlen : 2 < Z.of_nat (length (List.filter (wanted max_two)
                    (map report_with_id ["a"; "b"; "c"; "d"; "e"]))))
    by (vm_compute; reflexivity).
  exact (main_loop_cutoff max_two 2 (fun h r => h ++ [r])
           (map report_with_id ["a"; "b"; "c"; "d"; "e"]) []
           eq_refl eq_refl Hid Hlen).
Defined.

(** A report that [decode] fails on: its version element is empty, and
    [re.match] on the text [None] is a TypeError. *)
Definition malformed_report : elt :=
  Element "GATK-run-report" None
    [Element "id" (Some "bad1") [];
     Element "svn-version" None [];
     Element "exception" None [Element "message" (Some "boom") []]].

Definition good_report : elt :=
  Element "GATK-run-report" None
    [Element "id" (Some "ok2") [];
     Element "svn-version" (Some "1.4-28-g26ab3e8") [];
     Element "end-time" (Some "2010/08/31 15.38.00") [];
     Element "exception" None [Element "message" (Some "boom") []]].

(** A database that accepts every statement. *)
Definition accepting : string -> result unit := fun _ => Ok tt.

(** The summary handler lets an exception of [decode] through, and the
    loop of [main] ends with it: the reports after are not processed. *)
Lemma summary_aborts (O : options) (report : elt) (rest : list elt)
    (st : loop handler) (e : pyerr) :
  wanted O report = true ->
  decode (decoder O) report = Raise e ->
  main_loop O (summary_processRecord O) (report :: rest) st = Raise e.
Proof.
  intros Hw Hd. unfold wanted in Hw. cbn [main_loop].
  destruct (find report "id") as [idElt|]; [| discriminate].
  rewrite Hw. unfold summary_processRecord. now rewrite Hd.
Qed.

(** So does the handler of the exception digest, for a record with an
    exception child. *)
Lemma exceptions_aborts (O : options) (report : elt) (rest : list elt)
    (st : loop handler) (e : pyerr) :
  wanted O report = true ->
  existsb eltIsException (children report) = true ->
  decode (decoder O) report = Raise e ->
  main_loop O (exceptions_processRecord O) (report :: rest) st = Raise e.
Proof.
  intros Hw Hex Hd. unfold wanted in Hw. cbn [main_loop].
  destruct (find report "id") as [idElt|]; [| discriminate].
  rewrite Hw. unfold exceptions_processRecord. now rewrite Hex, Hd.
Qed.

(** The table handler catches it and goes on. *)
Lemma table_catches (O : options) (getFields : list string) (h : handler)
    (report : elt) (e : pyerr) :
  decode (decoder O) report = Raise e ->
  table_processRecord O getFields h report
  = Ok (print (FailedToConvertToTable report) h).
Proof. intros Hd. unfold table_processRecord, table_line. now rewrite Hd. Qed.

(** The handler of the SQL stage catches it, with the identifier still
    "unknown". *)
Lemma sql_catches (O : options) (db : string -> result unit) (h : handler)
    (report : elt) (e : pyerr) :
  e <> StringRaise ->
  decode (decoder O) report = Raise e ->
  sql_processRecord O db h report
  = Ok (print (SkippingExceptingRecord (PyStr "unknown") e) h).
Proof.
  intros He Hd. unfold sql_processRecord. rewrite Hd. unfold except_Exception.
  now destruct (decide (e = StringRaise)).
Qed.

(** C3: on a stream of a malformed report and a good one, [decode] raises
    on the first; the stages [summary] and [exceptions] end with this
    exception and never process the second report, where the claim has the
    error caught and the stream continued in every mode.  The stage [table]
    goes on but prints the record, not its identifier; the stage
    [loadToDB] goes on and prints "unknown". *)
Theorem decode_error_ends_summary_and_digest :
  decode (decoder default_options) malformed_report = Raise TypeError
  /\ run_stage default_options accepting summary [malformed_report; good_report]
     = Raise TypeError
  /\ run_stage default_options accepting exceptions [malformed_report; good_report]
     = Raise TypeError
  /\ (exists st,
        run_stage default_options accepting table [malformed_report; good_report]
        = Ok st
        /\ counter st = 2
        /\ stdout (the_handler st) = [FailedToConvertToTable malformed_report]
        /\ length (out (the_handler st)) = 2%nat)
  /\ (exists st,
        run_stage default_options accepting loadToDB [malformed_report; good_report]
        = Ok st
        /\ counter st = 2
        /\ stdout (the_handler st) = [SkippingExceptingRecord (PyStr "unknown") TypeError]
        /\ length (executed (the_handler st)) = 1%nat).
Proof.
  assert (Hd : decode (decoder default_options) malformed_report = Raise TypeError)
    by (vm_compute; reflexivity).
  split; [exact Hd |].
  split; [now apply summary_aborts |].
  split; [now apply exceptions_aborts |].
  split; eexists; (split; [vm_compute; reflexivity |]);
    repeat split; vm_compute; reflexivity.
Qed.

End StageProps.

(** ** Dates and the duration of an aggregated exception *)

Module DurationProps.
Import Str.

Definition dt_le (a b : datetime) : Prop :=
  year a < year b
  \/ (year a = year b
      /\ (month a < month b \/ (month a = month b /\ day a <= day b))).

Lemma dt_leb_le (a b : datetime) : dt_leb a b = true <-> dt_le a b.
Proof.
  unfold dt_leb, dt_le.
  rewrite !orb_true_iff, !andb_true_iff, !orb_true_iff, !andb_true_iff.
  rewrite !Z.ltb_lt, !Z.eqb_eq, Z.leb_le. reflexivity.
Qed.

Lemma dt_leb_total (a b : datetime) : dt_leb a b = false -> dt_leb b a = true.
Proof.
  intros H. apply dt_leb_le. apply not_true_iff_false in H.
  rewrite dt_leb_le in H. unfold dt_le in *. lia.
Qed.

Lemma dt_leb_trans (a b c : datetime) :
  dt_leb a b = true -> dt_leb b c = true -> dt_leb a c = true.
Proof. rewrite !dt_leb_le. unfold dt_le. lia. Qed.

Lemma dt_leb_refl (a : datetime) : dt_leb a a = true.
Proof. rewrite dt_leb_le. unfold dt_le. lia. Qed.

(** [l] is in ascending order. *)
Fixpoint ascending (l : list datetime) : Prop :=
  match l with
  | [] => True
  | x :: l' => (forall d, d ∈ l' -> dt_leb x d = true) /\ ascending l'
  end.

Lemma insert_date_elem (x d : datetime) (l : list datetime) :
  d ∈ insert_date x l <-> d = x \/ d ∈ l.
Proof.
  induction l as [|y l IH]; simpl.
  - rewrite list_elem_of_singleton. split; [now left | intros [?|H]; [assumption | inversion H]].
  - destruct (dt_leb x y).
    + now rewrite elem_of_cons.
    + rewrite !elem_of_cons, IH. tauto.
Qed.

Lemma insert_date_ascending (x : datetime) (l : list datetime) :
  ascending l -> ascending (insert_date x l).
Proof.
  induction l as [|y l IH]; intros Hl; simpl.
  - split; [intros d Hd; inversion Hd | exact I].
  - destruct Hl as [Hy Hl]. destruct (dt_leb x y) eqn:E; simpl.
    + split; [| split; assumption].
      intros d [->|Hd]%elem_of_cons; [assumption |].
      eapply dt_leb_trans; [exact E | now apply Hy].
    + split; [| now apply IH].
      intros d [->|Hd]%insert_date_elem; [now apply dt_leb_total | now apply Hy].
Qed.

Lemma insert_date_length (x : datetime) (l : list datetime) :
  length (insert_date x l) = S (length l).
Proof.
  induction l as [|y l IH]; simpl; [reflexivity |].
  destruct (dt_leb x y); simpl; [reflexivity | now rewrite IH].
Qed.

Lemma sorted_dates_elem (d : datetime) (l : list datetime) :
  d ∈ sorted_dates l <-> d ∈ l.
Proof.
  induction l as [|y l IH]; simpl; [reflexivity |].
  rewrite insert_date_elem, elem_of_cons, IH. reflexivity.
Qed.

Lemma sorted_dates_ascending (l : list datetime) : ascending (sorted_dates l).
Proof.
  induction l as [|y l IH]; simpl; [exact I | now apply insert_date_ascending].
Qed.

Lemma sorted_dates_length (l : list datetime) : length (sorted_dates l) = length l.
Proof.
  induction l as [|y l IH]; simpl; [reflexivity |].
  now rewrite insert_date_length, IH.
Qed.

(** In an ascending list the first date is the earliest and the last one
    the latest. *)
Lemma ascending_first (x : datetime) (l : list datetime) (d : datetime) :
  ascending (x :: l) -> d ∈ x :: l -> dt_leb x d = true.
Proof.
  intros [Hx _] [->|Hd]%elem_of_cons; [apply dt_leb_refl | now apply Hx].
Qed.

Lemma last_elem (l : list datetime) (x dflt : datetime) :
  List.last (x :: l) dflt ∈ x :: l.
Proof.
  revert x. induction l as [|y l IH]; intros x.
  - simpl. now left.
  - change (List.last (x :: y :: l) dflt) with (List.last (y :: l) dflt).
    right. apply IH.
Qed.

Lemma ascending_last (l : list datetime) (x dflt d : datetime) :
  ascending (x :: l) -> d ∈ x :: l -> dt_leb d (List.last (x :: l) dflt) = true.
Proof.
  revert x. induction l as [|y l IH]; intros x Hasc Hd.
  - simpl. apply list_elem_of_singleton in Hd as ->. apply dt_leb_refl.
  - change (List.last (x :: y :: l) dflt) with (List.last (y :: l) dflt).
    destruct Hasc as [Hx Hasc].
    apply elem_of_cons in Hd as [->|Hd].
    + apply Hx. apply last_elem.
    + now apply IH.
Qed.

(** The text [s] is the two decimal digits of [n]. *)
Definition reads_two (s : string) (n : Z) : bool :=
  match s with
  | String a (String b EmptyString) =>
      is_digit a && is_digit b && (10 * digit a + digit b =? n)
  | _ => false
  end.

(** The text [s] reads [MM/DD/YY] for the date [d]: the month, the day and
    the year of the century of [d], two decimal digits each, with a slash
    between them. *)
Definition reads_mdy (s : string) (d : datetime) : bool :=
  match s with
  | String m1 (String m2 (String s1 (String d1 (String d2
      (String s2 (String y1 (String y2 EmptyString))))))) =>
      reads_two (String m1 (String m2 "")) (month d)
      && Ascii.eqb s1 "/"
      && reads_two (String d1 (String d2 "")) (day d)
      && Ascii.eqb s2 "/"
      && reads_two (String y1 (String y2 "")) (year d mod 100)
  | _ => false
  end.

Lemma pad2_reads (n : Z) : 0 <= n < 100 -> reads_two (pad2 n) n = true.
Proof.
  intros Hn. rewrite <- (Z2Nat.id n) by lia.
  assert (Hk : (Z.to_nat n < 100)%nat) by lia.
  generalize dependent (Z.to_nat n). clear n Hn. intros k Hk.
  do 100 (destruct k as [|k]; [vm_compute; reflexivity |]). lia.
Qed.

Definition date_ok (d : datetime) : Prop :=
  valid_date (year d) (month d) (day d) = true.

Lemma days_in_month_le (y m : Z) : days_in_month y m <= 31.
Proof.
  unfold days_in_month.
  destruct (m =? 2); [destruct (is_leap y); lia |].
  destruct ((m =? 4) || (m =? 6) || (m =? 9) || (m =? 11)); lia.
Qed.

(** Only a text that reads as the date is of the shape [MM/DD/YY], and
    one text at most reads as a date. *)
Lemma reads_mdy_unique (s s' : string) (d : datetime) :
  reads_mdy s d = true -> reads_mdy s' d = true -> s = s'.
Proof.
  assert (Hdigit : forall a b, is_digit a = true -> is_digit b = true ->
                               digit a = digit b -> a = b).
  { intros a b Ha Hb Hab. unfold digit in Hab.
    rewrite <- (ascii_N_embedding a), <- (ascii_N_embedding b). f_equal.
    unfold code in Hab. lia. }
  assert (Hrange : forall a, is_digit a = true -> 0 <= digit a <= 9).
  { intros a Ha. unfold is_digit in Ha. unfold digit.
    apply andb_true_iff in Ha as [H1 H2].
    apply N.leb_le in H1, H2. lia. }
  unfold reads_mdy, reads_two.
  destruct s as [|m1 [|m2 [|s1 [|d1 [|d2 [|s2 [|y1 [|y2 [|? ?]]]]]]]]]; try discriminate.
  destruct s' as [|n1 [|n2 [|t1 [|e1 [|e2 [|t2 [|z1 [|z2 [|? ?]]]]]]]]]; try discriminate.
  rewrite !andb_true_iff, !Z.eqb_eq. rewrite !Ascii.eqb_eq.
  intros [[[[[[M1 M2] M3] S1] [[D1 D2] D3]] S2] [[Y1 Y2] Y3]].
  intros [[[[[[N1 N2] N3] T1] [[E1 E2] E3]] T2] [[Z1 Z2] Z3]].
  pose proof (Hrange _ M1). pose proof (Hrange _ M2). pose proof (Hrange _ N1).
  pose proof (Hrange _ N2). pose proof (Hrange _ D1). pose proof (Hrange _ D2).
  pose proof (Hrange _ E1). pose proof (Hrange _ E2). pose proof (Hrange _ Y1).
  pose proof (Hrange _ Y2). pose proof (Hrange _ Z1). pose proof (Hrange _ Z2).
  rewrite (Hdigit m1 n1), (Hdigit m2 n2), (Hdigit d1 e1), (Hdigit d2 e2),
    (Hdigit y1 z1), (Hdigit y2 z2) by (assumption || lia).
  now subst.
Qed.

(** From 1900 on [strftime] returns the text that reads as the date. *)
Lemma strftime_reads (d : datetime) :
  date_ok d -> 1900 <= year d ->
  exists s, strftime d = Ok s /\ reads_mdy s d = true.
Proof.
  unfold date_ok, valid_date. rewrite !andb_true_iff, !Z.leb_le.
  intros [[[[[Hy1 Hy2] Hm1] Hm2] Hd1] Hd2] Hy.
  pose proof (days_in_month_le (year d) (month d)) as Hdim.
  assert (H1 : reads_two (pad2 (month d)) (month d) = true) by (apply pad2_reads; lia).
  assert (H2 : reads_two (pad2 (day d)) (day d) = true) by (apply pad2_reads; lia).
  assert (H3 : reads_two (pad2 (year d mod 100)) (year d mod 100) = true).
  { apply pad2_reads. apply Z.mod_pos_bound. lia. }
  unfold strftime. replace (year d <? 1900) with false by (symmetry; apply Z.ltb_ge; lia).
  eexists. split; [reflexivity |].
  destruct (pad2 (month d)) as [|a1 [|a2 [|? ?]]]; try discriminate.
  destruct (pad2 (day d)) as [|b1 [|b2 [|? ?]]]; try discriminate.
  destruct (pad2 (year d mod 100)) as [|c1 [|c2 [|? ?]]]; try discriminate.
  cbn [String.append reads_mdy]. rewrite H1, H2, H3. reflexivity.
Qed.

(** Before 1900 [strftime] raises. *)
Lemma strftime_raises (d : datetime) : year d < 1900 -> strftime d = Raise ValueError.
Proof. intros Hy. unfold strftime. now rewrite (proj2 (Z.ltb_lt _ _) Hy). Qed.

(** What [strptime] returns is a day of the calendar. *)
Lemma strptime_ok (s : string) (d : datetime) : strptime s = Ok d -> date_ok d.
Proof.
  unfold strptime, date_ok. intros H.
  repeat match type of H with
         | match ?x with _ => _ end = _ => destruct x eqn:?; try discriminate
         | (if ?x then _ else _) = _ => destruct x eqn:?; try discriminate
         | (let '(_, _) := ?x in _) = _ => destruct x eqn:?
         end.
  inversion H; subst. assumption.
Qed.

(** C8, amended: for an aggregated exception whose dates are days of the
    calendar, [duration] renders "ND" when no date was collected besides
    "ND" and the date itself (the [datetime], not a string) when there is
    one.  With two or more, when the earliest is of the year 1900 or later
    it renders the earliest and the latest of them as [MM/DD/YY-MM/DD/YY],
    month, day and year of the century in two digits each, and this is
    the only text of that form for the two dates; when the earliest is
    before 1900 it raises a ValueError. *)
Theorem duration_rendering (self : CommonException) :
  Forall date_ok (valid_dates (times self)) ->
  match valid_dates (times self) with
  | [] => duration self = Ok (RStr "ND")
  | [d] => duration self = Ok (RDate d)
  | x =>
      exists lo hi,
        lo ∈ x /\ hi ∈ x
        /\ (forall d, d ∈ x -> dt_leb lo d = true /\ dt_leb d hi = true)
        /\ (1900 <= year lo ->
            (exists a b,
                duration self = Ok (RStr (a +:+ "-" +:+ b))
                /\ reads_mdy a lo = true /\ reads_mdy b hi = true)
            /\ (forall a b, reads_mdy a lo = true -> reads_mdy b hi = true ->
                            duration self = Ok (RStr (a +:+ "-" +:+ b))))
        /\ (year lo < 1900 -> duration self = Raise ValueError)
  end.
Proof.
  intros Hok. unfold duration.
  pose proof (sorted_dates_length (valid_dates (times self))) as Hlen.
  pose proof (sorted_dates_ascending (valid_dates (times self))) as Hasc.
  pose proof (fun d => sorted_dates_elem d (valid_dates (times self))) as Hel.
  destruct (valid_dates (times self)) as [|d1 [|d2 l]] eqn:Ex.
  - reflexivity.
  - reflexivity.
  - cbv beta iota. clear Ex.
    remember (d1 :: d2 :: l) as x eqn:Hx.
    assert (Hx2 : (2 <= length x)%nat) by (subst x; simpl; lia).
    clear Hx d1 d2 l.
    destruct (sorted_dates x) as [|lo s] eqn:Es; [simpl in Hlen; lia |].
    assert (Hge : (2 <=? Z.of_nat (length (lo :: s))) = true)
      by (apply Z.leb_le; lia).
    rewrite Hge. cbn [nth]. exists lo, (List.last (lo :: s) epoch).
    assert (Hlo : lo ∈ x) by (apply Hel; now left).
    assert (Hhi : List.last (lo :: s) epoch ∈ x) by (apply Hel, last_elem).
    assert (Hends : dt_leb lo (List.last (lo :: s) epoch) = true).
    { apply (ascending_first lo s); [assumption | apply last_elem]. }
    rewrite Forall_forall in Hok.
    split; [exact Hlo |]. split; [exact Hhi |]. split; [| split].
    + intros d Hd. apply Hel in Hd. split.
      * now apply (ascending_first lo s).
      * now apply ascending_last.
    + intros Hy.
      destruct (strftime_reads lo) as (a & -> & Ha); [now apply Hok | assumption |].
      destruct (strftime_reads (List.last (lo :: s) epoch)) as (b & -> & Hb).
      { now apply Hok. }
      { apply dt_leb_le in Hends. unfold dt_le in Hends. lia. }
      cbn [bind]. split.
      * exists a, b. split; [reflexivity |]. now split.
      * intros a' b' Ha' Hb'.
        now rewrite (reads_mdy_unique a' a lo Ha' Ha), (reads_mdy_unique b' b _ Hb' Hb).
    + intros Hy. now rewrite (strftime_raises lo Hy).
Qed.

(** An aggregated exception with the given set of times. *)
Definition with_times (ts : list timeval) : CommonException :=
  {| msgs := [PyStr "boom"]; at_ := PyStr "a.b.C(Foo.java:12)";
     svns := [PyStr "1.4-28-g26ab3e8"]; users := [PyStr "depristo"];
     userError := PyStr "false"; counts := Z.of_nat (length ts); times := ts;
     walkers := [PyStr "CountReads"]; ids := [PyStr "D7uhPv"] |}.

Definition aug31 : datetime := {| year := 2010; month := 8; day := 31 |}.
Definition sep02 : datetime := {| year := 2010; month := 9; day := 2 |}.
Definition jan1850 : datetime := {| year := 1850; month := 1; day := 1 |}.

Lemma duration_rendering_witness :
  exists lo hi,
    lo ∈ [sep02; aug31] /\ hi ∈ [sep02; aug31]
    /\ (forall d, d ∈ [sep02; aug31] -> dt_leb lo d = true /\ dt_leb d hi = true)
    /\ (1900 <= year lo ->
        (exists a b,
            duration (with_times [DT sep02; ND; DT aug31]) = Ok (RStr (a +:+ "-" +:+ b))
            /\ reads_mdy a lo = true /\ reads_mdy b hi = true)
        /\ (forall a b, reads_mdy a lo = true -> reads_mdy b hi = true ->
                        duration (with_times [DT sep02; ND; DT aug31])
                        = Ok (RStr (a +:+ "-" +:+ b))))
    /\ (year lo < 1900 ->
        duration (with_times [DT sep02; ND; DT aug31]) = Raise ValueError).
Proof.
  assert (Hok : Forall date_ok (valid_dates (times (with_times [DT sep02; ND; DT aug31]))))
    by (repeat constructor).
  exact (duration_rendering (with_times [DT sep02; ND; DT aug31]) Hok).
Defined.

(** C8 as stated fails: two end times that [decodeTime] accepts, the
    earlier of the year 1850, are two distinct valid dates of an
    aggregated exception, and [duration] does not render the string
    "01/01/50-09/02/10", nor any other: it raises a ValueError. *)
Lemma duration_before_1900_raises :
  decodeTime (PyStr "1850/01/01 12.00.00") = Ok (DT jan1850)
  /\ decodeTime (PyStr "2010/09/02 09.00.01") = Ok (DT sep02)
  /\ valid_dates (times (with_times [DT jan1850; DT sep02])) = [jan1850; sep02]
  /\ jan1850 <> sep02
  /\ duration (with_times [DT jan1850; DT sep02]) = Raise ValueError
  /\ duration (with_times [DT jan1850; DT sep02]) <> Ok (RStr "01/01/50-09/02/10").
Proof. repeat split; try (vm_compute; reflexivity); vm_compute; discriminate. Qed.

(** The examples of the specification, from the end times of the
    reports. *)
Example duration_examples :
  decodeTime (PyStr "2010/08/31 15.38.00") = Ok (DT aug31)
  /\ decodeTime (PyStr "2010/09/02 09.00.01") = Ok (DT sep02)
  /\ decodeTime (PyStr "ND") = Ok ND
  /\ duration (with_times [DT sep02; DT aug31]) = Ok (RStr "08/31/10-09/02/10")
  /\ duration (with_times [DT aug31]) = Ok (RDate aug31)
  /\ duration (with_times [ND; DT aug31]) = Ok (RDate aug31)
  /\ duration (with_times [ND]) = Ok (RStr "ND").
Proof. repeat split; vm_compute; reflexivity. Qed.

End DurationProps.

(** ** The aggregation of the exception digest *)

Module DigestProps.
Import Str DecoderProps DurationProps.

(** The records among [exs] with the stack trace of the entry [c]. *)
Definition merged (c : CommonException) (exs : list (gmap string pyval))
  : list (gmap string pyval) :=
  List.filter (fun ex => bool_decide (ex !! "stacktrace" = Some (at_ c))) exs.

(** The records an entry can be built from: the keys are there and the
    end time is one [decodeTime] accepts. *)
Definition aggregable (ex : gmap string pyval) : bool :=
  returns (new_CommonException ex).

Lemma elem_of_set_add {A} `{EqDecision A} (x y : A) (s : list A) :
  x ∈ set_add y s <-> x = y \/ x ∈ s.
Proof.
  unfold set_add. destruct (decide (y ∈ s)) as [Hin|Hnin].
  - split; [now right | intros [->|?]; assumption].
  - rewrite elem_of_app, list_elem_of_singleton. tauto.
Qed.

(** One step of a chain of [getitem]s and [decodeTime] in a hypothesis. *)
Ltac step_get H :=
  match type of H with
  | context [getitem ?ex ?k] =>
      let E := fresh "E" in
      unfold getitem at 1 in H;
      destruct (ex !! k) eqn:E; cbn [bind] in H; [| discriminate H]
  | context [decodeTime ?t] =>
      let E := fresh "E" in
      destruct (decodeTime t) eqn:E; cbn [bind] in H; [| discriminate H]
  end.

Lemma new_spec (ex : gmap string pyval) (c : CommonException) :
  new_CommonException ex = Ok c ->
  ex !! "stacktrace" = Some (at_ c) /\ counts c = 1
  /\ exists i, ex !! "id" = Some i /\ ids c = [i].
Proof.
  intros H. unfold new_CommonException in H. repeat step_get H.
  inversion H; subst; simpl. eauto.
Qed.

Lemma update_spec (self c : CommonException) (ex : gmap string pyval) :
  update self ex = Ok c ->
  at_ c = at_ self /\ counts c = counts self + 1
  /\ exists i, ex !! "id" = Some i /\ ids c = set_add i (ids self).
Proof.
  intros H. unfold update in H. repeat step_get H.
  inversion H; subst; simpl. eauto.
Qed.

Lemma aggregable_returns (ex : gmap string pyval) :
  aggregable ex = true ->
  (exists c, new_CommonException ex = Ok c)
  /\ (forall self, exists c, update self ex = Ok c)
  /\ (forall self, equals self ex = Ok (bool_decide (Some (at_ self) = ex !! "stacktrace"))).
Proof.
  unfold aggregable. intros H.
  destruct (new_CommonException ex) as [c|] eqn:Hc; [| discriminate]. clear H.
  unfold new_CommonException in Hc. repeat step_get Hc.
  split; [eexists; reflexivity |]. split.
  - intros self. unfold update, getitem. rewrite E, E1, E2, E4, E6, E7. cbn [bind].
    rewrite E5. cbn [bind]. eexists. reflexivity.
  - intros self. unfold equals, getitem. rewrite E0. cbn [bind]. f_equal.
    apply bool_decide_ext. split; congruence.
Qed.

(** What [addToCommons] does: with no entry for the stack trace of [ex] it
    appends a new one, and else it updates the entry, which is the only
    one. *)
Lemma addToCommons_spec (cs cs' : list CommonException) (ex : gmap string pyval) :
  addToCommons cs ex = Ok cs' ->
  exists s, ex !! "stacktrace" = Some s
    /\ (((s ∉ at_ <$> cs)
         /\ exists c, new_CommonException ex = Ok c /\ cs' = cs ++ [c])
        \/ (exists l1 common l2 c,
              cs = l1 ++ common :: l2 /\ at_ common = s /\ (s ∉ at_ <$> l1)
              /\ update common ex = Ok c /\ cs' = l1 ++ c :: l2)).
Proof.
  revert cs'. induction cs as [|common rest IH]; intros cs' H; simpl in H.
  - destruct (new_CommonException ex) as [c|] eqn:Hc; [| discriminate].
    cbn [bind] in H. inversion H; subst.
    destruct (new_spec _ _ Hc) as (Hs & _).
    exists (at_ c). split; [exact Hs |]. left.
    split; [intros Hin; inversion Hin |]. now exists c.
  - unfold equals in H. step_get H.
    destruct (bool_decide (at_ common = p)) eqn:Hsame.
    + apply bool_decide_eq_true in Hsame.
      destruct (update common ex) as [c|] eqn:Hc; [| discriminate].
      cbn [bind] in H. inversion H; subst.
      exists (at_ common). split; [reflexivity |]. right.
      exists [], common, rest, c. repeat split; try reflexivity; try assumption.
      intros Hin; inversion Hin.
    + apply bool_decide_eq_false in Hsame.
      destruct (addToCommons rest ex) as [r|] eqn:Hr; [| discriminate].
      cbn [bind] in H. inversion H; subst.
      destruct (IH r eq_refl) as (s & Hs & Hcase).
      assert (s = p) by congruence. subst s.
      exists p. split; [reflexivity |].
      destruct Hcase as [[Hnot (c & Hc & ->)] | (l1 & cm & l2 & c & -> & Hat & Hnot & Hc & ->)].
      * left. split; [| now exists c].
        rewrite fmap_cons. intros [?|?]%elem_of_cons; congruence.
      * right. exists (common :: l1), cm, l2, c.
        repeat split; try reflexivity; try assumption.
        rewrite fmap_cons. intros [?|?]%elem_of_cons; congruence.
Qed.

Lemma addToCommons_returns (cs : list CommonException) (ex : gmap string pyval) :
  aggregable ex = true -> exists cs', addToCommons cs ex = Ok cs'.
Proof.
  intros Ha. destruct (aggregable_returns ex Ha) as ([c Hc] & Hup & Heq).
  induction cs as [|common rest IH]; simpl.
  - rewrite Hc. cbn [bind]. now eexists.
  - rewrite Heq. cbn [bind].
    destruct (bool_decide (Some (at_ common) = ex !! "stacktrace")).
    + destruct (Hup common) as [c' Hc']. rewrite Hc'. cbn [bind]. now eexists.
    + destruct IH as [r Hr]. rewrite Hr. cbn [bind]. now eexists.
Qed.

Lemma merged_snoc (c : CommonException) (pre : list (gmap string pyval))
    (ex : gmap string pyval) :
  merged c (pre ++ [ex])
  = merged c pre ++ (if bool_decide (ex !! "stacktrace" = Some (at_ c)) then [ex] else []).
Proof. unfold merged. now rewrite List.filter_app. Qed.

Lemma merged_same_at (c c' : CommonException) (exs : list (gmap string pyval)) :
  at_ c = at_ c' -> merged c exs = merged c' exs.
Proof. intros H. unfold merged. now rewrite H. Qed.

Lemma elem_of_merged (c : CommonException) (exs : list (gmap string pyval))
    (ex : gmap string pyval) :
  ex ∈ merged c exs <-> ex ∈ exs /\ ex !! "stacktrace" = Some (at_ c).
Proof.
  unfold merged. rewrite !list_elem_of_In, List.filter_In, bool_decide_eq_true.
  reflexivity.
Qed.

(** The invariant of the loop of [finalize]: one entry for each stack
    trace seen, with the count and the identifiers of the records that
    have it. *)
Record grouped (exs : list (gmap string pyval)) (cs : list CommonException) : Prop := {
  one_entry : NoDup (at_ <$> cs);
  all_merged : forall ex, ex ∈ exs ->
                 exists c, c ∈ cs /\ ex !! "stacktrace" = Some (at_ c);
  count_ids : forall c, c ∈ cs ->
                counts c = Z.of_nat (length (merged c exs))
                /\ 1 <= counts c
                /\ (forall i, i ∈ ids c <->
                      exists ex, ex ∈ merged c exs /\ ex !! "id" = Some i)
}.

Lemma grouped_nil : grouped [] [].
Proof.
  split.
  - constructor.
  - intros ex Hex. inversion Hex.
  - intros c Hc. inversion Hc.
Qed.

(** An entry with another stack trace does not see the new record. *)
Lemma grouped_other (c : CommonException) (pre : list (gmap string pyval))
    (ex : gmap string pyval) (s : pyval) :
  ex !! "stacktrace" = Some s -> at_ c <> s ->
  merged c (pre ++ [ex]) = merged c pre.
Proof.
  intros Hs Hne. rewrite merged_snoc.
  rewrite bool_decide_eq_false_2; [apply app_nil_r |]. congruence.
Qed.

Lemma grouped_same (c : CommonException) (pre : list (gmap string pyval))
    (ex : gmap string pyval) :
  ex !! "stacktrace" = Some (at_ c) ->
  merged c (pre ++ [ex]) = merged c pre ++ [ex].
Proof. intros Hs. rewrite merged_snoc. now rewrite bool_decide_eq_true_2. Qed.

Lemma count_ids_kept (c : CommonException) (pre : list (gmap string pyval))
    (ex : gmap string pyval) (s : pyval) :
  ex !! "stacktrace" = Some s -> at_ c <> s ->
  (counts c = Z.of_nat (length (merged c pre))
   /\ 1 <= counts c
   /\ (forall i, i ∈ ids c <-> exists ex', ex' ∈ merged c pre /\ ex' !! "id" = Some i)) ->
  counts c = Z.of_nat (length (merged c (pre ++ [ex])))
  /\ 1 <= counts c
  /\ (forall i, i ∈ ids c <->
        exists ex', ex' ∈ merged c (pre ++ [ex]) /\ ex' !! "id" = Some i).
Proof. intros Hs Hne H. now rewrite (grouped_other c pre ex s). Qed.

(** One call of [addToCommons] keeps the invariant. *)
Lemma grouped_step (pre : list (gmap string pyval)) (cs cs' : list CommonException)
    (ex : gmap string pyval) :
  grouped pre cs -> addToCommons cs ex = Ok cs' -> grouped (pre ++ [ex]) cs'.
Proof.
  intros [Hnd Hall Hcnt] H.
  destruct (addToCommons_spec _ _ _ H) as (s & Hs & Hcase).
  destruct Hcase as [[Hnot (c & Hc & ->)] | (l1 & cm & l2 & c & -> & Hat & Hnot & Hc & ->)].
  - (* a new entry *)
    destruct (new_spec _ _ Hc) as (Hs' & Hone & i & Hi & Hids).
    assert (Hcs : at_ c = s) by congruence.
    assert (Hfresh : merged c pre = []).
    { destruct (merged c pre) as [|ex' m] eqn:Em; [reflexivity |].
      assert (Hex' : ex' ∈ merged c pre) by (rewrite Em; now left).
      apply elem_of_merged in Hex' as [Hin Hsig].
      destruct (Hall ex' Hin) as (c0 & Hc0 & Hsig0).
      exfalso. apply Hnot. apply list_elem_of_fmap. exists c0.
      split; [congruence | assumption]. }
    split.
    + rewrite fmap_app. apply NoDup_app. split; [assumption |]. split.
      * intros x Hx Hx'. apply list_elem_of_singleton in Hx'. simpl in Hx'. congruence.
      * apply NoDup_singleton.
    + intros ex' [Hin | Hin]%elem_of_app.
      * destruct (Hall ex' Hin) as (c0 & Hc0 & Hsig0).
        exists c0. split; [apply elem_of_app; now left | assumption].
      * apply list_elem_of_singleton in Hin as ->.
        exists c. split; [apply elem_of_app; right; now left | assumption].
    + intros c0 [Hin | Hin]%elem_of_app.
      * apply (count_ids_kept c0 pre ex s); [assumption | | now apply Hcnt].
        intros Heq. apply Hnot. apply list_elem_of_fmap. now exists c0.
      * apply list_elem_of_singleton in Hin as ->.
        rewrite grouped_same by assumption. rewrite Hfresh. simpl.
        split; [lia |]. split; [lia |].
        intros i'. rewrite Hids, list_elem_of_singleton. split.
        -- intros ->. exists ex. split; [now left | assumption].
        -- intros (ex' & Hex' & Hi'). apply list_elem_of_singleton in Hex' as ->.
           congruence.
  - (* the entry of this stack trace is updated *)
    destruct (update_spec _ _ _ Hc) as (Hat' & Hcount & i & Hi & Hids).
    assert (Hfmap : at_ <$> (l1 ++ c :: l2) = at_ <$> (l1 ++ cm :: l2))
      by (rewrite !fmap_app, !fmap_cons; congruence).
    assert (Hl2 : s ∉ at_ <$> l2).
    { rewrite fmap_app, fmap_cons in Hnd. apply NoDup_app in Hnd as (_ & _ & Hnd).
      apply NoDup_cons in Hnd as [Hnd _]. congruence. }
    assert (Hcm : cm ∈ l1 ++ cm :: l2) by (apply elem_of_app; right; now left).
    split.
    + now rewrite Hfmap.
    + assert (Hsame : forall c0, c0 ∈ l1 ++ cm :: l2 ->
                exists c0', c0' ∈ l1 ++ c :: l2 /\ at_ c0' = at_ c0).
      { intros c0 [Hin | [-> | Hin]%elem_of_cons]%elem_of_app.
        - exists c0. split; [apply elem_of_app; now left | reflexivity].
        - exists c. split; [apply elem_of_app; right; now left | assumption].
        - exists c0. split; [apply elem_of_app; right; now right | reflexivity]. }
      intros ex' [Hin | Hin]%elem_of_app.
      * destruct (Hall ex' Hin) as (c0 & Hc0 & Hsig0).
        destruct (Hsame c0 Hc0) as (c0' & Hc0' & Heq).
        exists c0'. split; [assumption | congruence].
      * apply list_elem_of_singleton in Hin as ->.
        exists c. split; [apply elem_of_app; right; now left | congruence].
    + intros c0 [Hin | [-> | Hin]%elem_of_cons]%elem_of_app.
      * apply (count_ids_kept c0 pre ex s); [assumption | |].
        -- intros Heq. apply Hnot. apply list_elem_of_fmap. now exists c0.
        -- apply Hcnt. apply elem_of_app. now left.
      * destruct (Hcnt cm Hcm) as (Hc1 & Hc2 & Hc3).
        rewrite grouped_same by congruence.
        rewrite (merged_same_at c cm) by assumption.
        rewrite length_app. simpl. split; [lia |]. split; [lia |].
        intros i'. rewrite Hids, elem_of_set_add, Hc3. split.
        -- intros [-> | (ex' & Hex' & Hi')].
           ++ exists ex. split; [apply elem_of_app; right; now left | assumption].
           ++ exists ex'. split; [apply elem_of_app; now left | assumption].
        -- intros (ex' & [Hex' | Hex']%elem_of_app & Hi').
           ++ right. now exists ex'.
           ++ apply list_elem_of_singleton in Hex' as ->. left. congruence.
      * apply (count_ids_kept c0 pre ex s); [assumption | |].
        -- intros Heq. apply Hl2. apply list_elem_of_fmap. now exists c0.
        -- apply Hcnt. apply elem_of_app. right. now right.
Qed.

Lemma grouped_loop (l pre : list (gmap string pyval)) (cs cs' : list CommonException) :
  grouped pre cs -> foldM addToCommons l cs = Ok cs' -> grouped (pre ++ l) cs'.
Proof.
  revert pre cs. induction l as [|ex l IH]; intros pre cs Hg H; simpl in H.
  - inversion H; subst. now rewrite app_nil_r.
  - destruct (addToCommons cs ex) as [cs1|] eqn:E; [| discriminate].
    cbn [bind] in H.
    replace (pre ++ ex :: l) with ((pre ++ [ex]) ++ l) by now rewrite <- app_assoc.
    apply (IH _ cs1); [| assumption]. now apply (grouped_step pre cs).
Qed.

Lemma aggregate_grouped (exs : list (gmap string pyval)) (cs : list CommonException) :
  aggregate exs = Ok cs -> grouped exs cs.
Proof. intros H. apply (grouped_loop exs [] [] cs grouped_nil H). Qed.

Lemma aggregate_returns (exs : list (gmap string pyval)) :
  forallb aggregable exs = true -> exists cs, aggregate exs = Ok cs.
Proof.
  intros H. unfold aggregate. refine (foldM_returns addToCommons exs [] _).
  intros cs ex Hin. apply (addToCommons_returns cs ex).
  rewrite forallb_forall in H. apply H. now apply list_elem_of_In.
Qed.

(** A record with a stack trace not yet seen makes a new entry, at the end,
    with the count 1. *)
Lemma addToCommons_new (cs cs' : list CommonException) (ex : gmap string pyval)
    (s : pyval) :
  ex !! "stacktrace" = Some s -> (s ∉ at_ <$> cs) ->
  addToCommons cs ex = Ok cs' ->
  exists c, cs' = cs ++ [c] /\ at_ c = s /\ counts c = 1.
Proof.
  intros Hs Hnot H.
  destruct (addToCommons_spec _ _ _ H) as (s' & Hs' & Hcase).
  assert (s' = s) by congruence. subst s'.
  destruct Hcase as [[_ (c & Hc & ->)] | (l1 & cm & l2 & c & -> & Hat & _ & _ & _)].
  - destruct (new_spec _ _ Hc) as (Hsc & Hone & _).
    exists c. repeat split; [congruence | assumption].
  - exfalso. apply Hnot. apply list_elem_of_fmap. exists cm.
    split; [now symmetry | apply elem_of_app; right; now left].
Qed.

(** C7: the aggregation returns on aggregable records, and then there is
    one entry for each stack trace: two records with the same stack trace
    are merged into the same entry, the count of an entry is the number of
    records merged into it and its identifiers are those of these records;
    a record whose stack trace has no entry yet makes a new entry with the
    count 1. *)
Theorem aggregate_groups (exs : list (gmap string pyval)) :
  (forallb aggregable exs = true -> exists cs, aggregate exs = Ok cs)
  /\ (forall cs, aggregate exs = Ok cs ->
        NoDup (at_ <$> cs)
        /\ (forall ex1 ex2,
              ex1 ∈ exs -> ex2 ∈ exs ->
              ex1 !! "stacktrace" = ex2 !! "stacktrace" ->
              exists c, c ∈ cs /\ ex1 ∈ merged c exs /\ ex2 ∈ merged c exs)
        /\ (forall c, c ∈ cs ->
              counts c = Z.of_nat (length (merged c exs))
              /\ (forall i, i ∈ ids c <->
                    exists ex, ex ∈ merged c exs /\ ex !! "id" = Some i)))
  /\ (forall cs cs' ex s,
        ex !! "stacktrace" = Some s -> (s ∉ at_ <$> cs) ->
        addToCommons cs ex = Ok cs' ->
        exists c, cs' = cs ++ [c] /\ at_ c = s /\ counts c = 1).
Proof.
  split; [apply aggregate_returns |]. split; [| apply addToCommons_new].
  intros cs Hcs. destruct (aggregate_grouped exs cs Hcs) as [Hnd Hall Hcnt].
  split; [assumption |]. split.
  - intros ex1 ex2 H1 H2 Heq.
    destruct (Hall ex1 H1) as (c & Hc & Hs).
    exists c. split; [assumption |].
    split; apply elem_of_merged; split; congruence.
  - intros c Hc. destruct (Hcnt c Hc) as (Hn & _ & Hids). now split.
Qed.

(** A decoded record of the digest. *)
Definition exception_record (id stacktrace endTime : string) : gmap string pyval :=
  list_to_map
    [("id", PyStr id); ("stacktrace", PyStr stacktrace); ("end-time", PyStr endTime);
     ("exception-msg", PyStr "boom"); ("svn-version", PyStr "1.4-28-g26ab3e8");
     ("user-name", PyStr "depristo"); ("is-user-exception", PyStr "false");
     ("walker-name", PyStr "CountReads")].

Definition sample_records : list (gmap string pyval) :=
  [exception_record "a" "a.b.C(Foo.java:12)" "2010/08/31 15.38.00";
   exception_record "b" "x.y.Z(Bar.java:3)" "2010/09/01 10.00.00";
   exception_record "c" "a.b.C(Foo.java:12)" "2010/09/02 09.00.01"].

Lemma aggregate_groups_witness :
  exists cs,
    aggregate sample_records = Ok cs
    /\ NoDup (at_ <$> cs)
    /\ (forall c, c ∈ cs -> counts c = Z.of_nat (length (merged c sample_records))).
Proof.
  destruct (aggregate_groups sample_records) as (Hret & Hprop & _).
  assert (Ha : forallb aggregable sample_records = true) by (vm_compute; reflexivity).
  destruct (Hret Ha) as [cs Hcs]. exists cs.
  destruct (Hprop cs Hcs) as (H1 & _ & H3).
  split; [exact Hcs |]. split; [exact H1 |].
  intros c Hc. exact (proj1 (H3 c Hc)).
Defined.

(** The entries for the sample: stack trace, count, identifiers and
    duration. *)
Example aggregate_sample :
  (fun cs => map (fun c => (at_ c, counts c, ids c, duration c)) cs)
    <$> match aggregate sample_records with Ok cs => Some cs | Raise _ => None end
  = Some [(PyStr "a.b.C(Foo.java:12)", 2, [PyStr "a"; PyStr "c"],
           Ok (RStr "08/31/10-09/02/10"));
          (PyStr "x.y.Z(Bar.java:3)", 1, [PyStr "b"],
           Ok (RDate {| year := 2010; month := 9; day := 1 |}))].
Proof. vm_compute. reflexivity. Qed.

Lemma decodeTime_ok (t : pyval) (d : datetime) :
  decodeTime t = Ok (DT d) -> date_ok d.
Proof.
  unfold decodeTime. destruct t as [|t]; [discriminate |].
  destruct (String.eqb t "ND"); [discriminate |].
  destruct (split_ws t) as [|t0 ?]; [discriminate |].
  destruct (strptime t0) as [d'|] eqn:Ed; [| discriminate].
  cbn [bind]. intros H. inversion H; subst. now apply (strptime_ok t0).
Qed.

Lemma elem_of_valid_dates (d : datetime) (l : list timeval) :
  d ∈ valid_dates l <-> DT d ∈ l.
Proof.
  induction l as [|[|d'] l IH]; simpl.
  - split; intros H; inversion H.
  - rewrite IH, elem_of_cons. split; [now right | intros [?|?]; [discriminate | assumption]].
  - rewrite !elem_of_cons, IH. split; intros [?|?]; try (now right); left; congruence.
Qed.

(** The times of an entry are a set of days of the calendar and "ND". *)
Definition times_ok (c : CommonException) : Prop :=
  NoDup (times c) /\ Forall date_ok (valid_dates (times c)).

Lemma times_ok_add (time : timeval) (ts : list timeval) :
  (forall d, time = DT d -> date_ok d) ->
  NoDup ts -> Forall date_ok (valid_dates ts) ->
  NoDup (set_add time ts) /\ Forall date_ok (valid_dates (set_add time ts)).
Proof.
  intros Ht Hnd Hok. split.
  - unfold set_add. destruct (decide (time ∈ ts)); [assumption |].
    apply NoDup_app. split; [assumption |]. split; [| apply NoDup_singleton].
    intros x Hx Hx'. apply list_elem_of_singleton in Hx'. congruence.
  - rewrite Forall_forall in *. intros d Hd.
    apply elem_of_valid_dates, elem_of_set_add in Hd as [Hd | Hd].
    + apply Ht. now symmetry.
    + apply Hok. now apply elem_of_valid_dates.
Qed.

Lemma new_times (ex : gmap string pyval) (c : CommonException) :
  new_CommonException ex = Ok c -> times_ok c.
Proof.
  intros H. unfold new_CommonException in H. repeat step_get H.
  inversion H; subst. unfold times_ok. cbn [times].
  match goal with E : decodeTime _ = Ok ?t |- _ =>
    apply (times_ok_add t []); [| constructor | constructor];
    intros d ->; exact (decodeTime_ok _ _ E)
  end.
Qed.

Lemma update_times (self c : CommonException) (ex : gmap string pyval) :
  update self ex = Ok c -> times_ok self -> times_ok c.
Proof.
  intros H [Hnd Hok]. unfold update in H. repeat step_get H.
  inversion H; subst. unfold times_ok. cbn [times].
  match goal with E : decodeTime _ = Ok ?t |- _ =>
    apply (times_ok_add t (times self)); [| assumption | assumption];
    intros d ->; exact (decodeTime_ok _ _ E)
  end.
Qed.

(** Every entry the aggregation builds meets the hypothesis of
    [duration_rendering]. *)
Lemma aggregate_times (exs : list (gmap string pyval)) (cs : list CommonException) :
  aggregate exs = Ok cs -> Forall times_ok cs.
Proof.
  unfold aggregate. intros H.
  apply (foldM_invariant (Forall times_ok) _ _ _ _) in H; [assumption | | constructor].
  intros x ex y _ Hx Hy.
  destruct (addToCommons_spec _ _ _ Hy) as (s & Hs & Hcase).
  destruct Hcase as [[_ (c & Hc & ->)] | (l1 & cm & l2 & c & -> & _ & _ & Hc & ->)].
  - apply Forall_app. split; [assumption |].
    constructor; [now apply (new_times ex) | constructor].
  - apply Forall_app in Hx as [H1 H2]. inversion H2; subst.
    apply Forall_app. split; [assumption |].
    constructor; [now apply (update_times cm c ex) | assumption].
Qed.

End DigestProps.

(** ** The version table *)

Module VersionsProps.
Import Str.

Lemma resolveType_three (version : string) (types : list pyval) :
  length types = 3%nat -> resolveType version types = Ok (PyStr "gatk.git").
Proof. intros H. unfold resolveType. now rewrite H. Qed.

Lemma resolveType_two (version : string) (types : list pyval) :
  length types = 2%nat ->
  resolveType version types
  = if bool_decide (PyStr "stable" ∈ types) then Ok (PyStr "stable")
    else Raise StringRaise.
Proof.
  intros H. unfold resolveType. rewrite H. simpl.
  now destruct (bool_decide (PyStr "stable" ∈ types)).
Qed.

Lemma resolveType_one (version : string) (t : pyval) :
  resolveType version [t] = Ok t.
Proof. reflexivity. Qed.

Lemma resolveType_many (version : string) (types : list pyval) :
  (3 < length types)%nat -> resolveType version types = Raise StringRaise.
Proof.
  intros H. unfold resolveType.
  replace (3 <? Z.of_nat (length types)) with true; [reflexivity |].
  symmetry. apply Z.ltb_lt. lia.
Qed.

(** On the tags of a version, which are never none, the only error is the
    string exception. *)
Lemma resolveType_raise (version : string) (types : list pyval) (e : pyerr) :
  types <> [] -> resolveType version types = Raise e -> e = StringRaise.
Proof.
  intros Hne. unfold resolveType.
  destruct (3 <? Z.of_nat (length types)); [congruence |].
  destruct (Z.of_nat (length types) =? 3); [discriminate |].
  destruct (Z.of_nat (length types) =? 2).
  - destruct (negb (bool_decide (PyStr "stable" ∈ types))); [congruence | discriminate].
  - destruct types; [congruence | discriminate].
Qed.

Lemma resolve_all_ok (items : list (string * list pyval)) (r : list (string * pyval)) :
  resolve_all items = Ok r ->
  Forall2 (fun x y => x.1 = y.1 /\ resolveType x.1 x.2 = Ok y.2) items r.
Proof.
  revert r. induction items as [|[v ts] items IH]; intros r H; simpl in H.
  - inversion H. constructor.
  - destruct (resolveType v ts) as [t|] eqn:Et; [| discriminate]. cbn [bind] in H.
    destruct (resolve_all items) as [r'|]; [| discriminate]. cbn [bind] in H.
    inversion H; subst. constructor; [now split | now apply IH].
Qed.

Lemma resolve_all_returns (items : list (string * list pyval)) :
  Forall (fun x => returns (resolveType x.1 x.2) = true) items ->
  exists r, resolve_all items = Ok r.
Proof.
  induction 1 as [|[v ts] items Hx _ IH]; simpl; [now eexists |].
  simpl in Hx. destruct (resolveType v ts); [| discriminate].
  destruct IH as [r ->]. cbn [bind]. now eexists.
Qed.

Lemma resolve_all_raises (items : list (string * list pyval)) :
  Forall (fun x => x.2 <> []) items ->
  Exists (fun x => returns (resolveType x.1 x.2) = false) items ->
  resolve_all items = Raise StringRaise.
Proof.
  intros Hne Hex. induction items as [|[v ts] items IH]; [inversion Hex |].
  inversion Hne as [|? ? Hts Hrest]; subst. simpl in *.
  destruct (resolveType v ts) as [t|e] eqn:Et; cbn [bind].
  - inversion Hex as [? ? Hbad | ? ? Hbad]; subst.
    + simpl in Hbad. rewrite Et in Hbad. discriminate.
    + now rewrite (IH Hrest Hbad).
  - now rewrite (resolveType_raise v ts e Hts Et).
Qed.

(** The table [read_versions] returns binds each version of [d] to what
    [resolveType] makes of its tags, and no other version. *)
Lemma resolve_table_lookup (d : gmap string (list pyval)) (table : gmap string pyval)
    (version : string) :
  resolve_table d = Ok table ->
  match d !! version with
  | Some types => exists t, resolveType version types = Ok t /\ table !! version = Some t
  | None => table !! version = None
  end.
Proof.
  unfold resolve_table. destruct (resolve_all (map_to_list d)) as [r|] eqn:Er; [| discriminate].
  cbn [bind]. intros H. inversion H; subst. clear H.
  apply resolve_all_ok in Er.
  assert (Hkeys : r.*1 = (map_to_list d).*1).
  { clear -Er. induction Er as [|x y l l' [Hxy _] _ IH]; [reflexivity |].
    rewrite !fmap_cons. now rewrite IH, Hxy. }
  destruct (d !! version) as [types|] eqn:Ed.
  - apply elem_of_map_to_list in Ed.
    assert (Ht : exists t, (version, t) ∈ r /\ resolveType version types = Ok t).
    { clear Hkeys. induction Er as [|x y l l' [Hxy Hres] _ IH]; [inversion Ed |].
      apply elem_of_cons in Ed as [<- | Ed].
      - simpl in *. exists y.2. split; [| assumption].
        destruct y as [v' t']. simpl in *. subst. now left.
      - destruct (IH Ed) as (t & Hin & Ht). exists t. split; [now right | assumption]. }
    destruct Ht as (t & Hin & Ht). exists t. split; [assumption |].
    apply elem_of_list_to_map; [| assumption].
    rewrite Hkeys. apply NoDup_fst_map_to_list.
  - apply not_elem_of_list_to_map. rewrite Hkeys.
    intros Hin. apply list_elem_of_fmap in Hin as ([v' ts] & -> & Hin).
    apply elem_of_map_to_list in Hin. simpl in Ed. congruence.
Qed.

(** [read_lines] records no version without a tag. *)
Definition tagged (d : gmap string (list pyval)) : Prop :=
  forall version types, d !! version = Some types -> types <> [].

Lemma record_type_tagged (line : string) (type : pyval) (d : gmap string (list pyval)) :
  tagged d -> tagged (record_type line type d).
Proof.
  intros Hd version types. unfold record_type.
  rewrite lookup_insert. case_decide; [| apply Hd].
  intros Heq. inversion Heq. now destruct (default [] (d !! line)).
Qed.

Lemma read_lines_tagged (lines : list string) (type : pyval)
    (d d' : gmap string (list pyval)) :
  tagged d -> read_lines lines type d = Ok d' -> tagged d'.
Proof.
  revert type d. induction lines as [|line rest IH]; intros type d Hd H; simpl in H.
  - now inversion H; subst.
  - destruct (split_ws (strip line)) as [|v0 vals]; [discriminate |].
    destruct (String.eqb v0 "type").
    + destruct vals as [|v1 ?]; [discriminate |]. now apply (IH (PyStr v1) d).
    + apply (IH type (record_type (strip line) type d)); [| assumption].
      now apply record_type_tagged.
Qed.

Lemma tagged_empty : tagged ∅.
Proof. intros version types H. rewrite lookup_empty in H. discriminate. Qed.

(** The tags are in order: at most three, and two only with "stable". *)
Definition consistent (types : list pyval) : Prop :=
  (length types <= 3)%nat /\ (length types = 2%nat -> PyStr "stable" ∈ types).

Lemma consistent_returns (version : string) (types : list pyval) :
  types <> [] -> consistent types -> returns (resolveType version types) = true.
Proof.
  intros Hne [Hle Htwo].
  destruct types as [|t1 [|t2 [|t3 [|t4 ?]]]]; [congruence | reflexivity | | reflexivity |].
  - rewrite resolveType_two by reflexivity.
    now rewrite bool_decide_eq_true_2 by now apply Htwo.
  - simpl in Hle. lia.
Qed.

Lemma inconsistent_raises (version : string) (types : list pyval) :
  (3 < length types)%nat \/ (length types = 2%nat /\ PyStr "stable" ∉ types) ->
  returns (resolveType version types) = false.
Proof.
  intros [Hmany | [Htwo Hno]].
  - now rewrite resolveType_many.
  - rewrite resolveType_two by assumption. now rewrite bool_decide_eq_false_2.
Qed.

(** [formatReleaseType] binds the release type of the text of the
    element. *)
Lemma formatReleaseType_releaseType (versions : gmap string pyval) (t : string)
    (c : list elt) :
  formatReleaseType versions (Element "svn-version" (Some t) c)
  = Ok (releaseType versions t).
Proof.
  unfold formatReleaseType, releaseType. simpl. now destruct (versions !! t).
Qed.

(** The line sets the type of the lines that follow. *)
Definition is_type_line (line : string) : bool :=
  match split_ws (strip line) with
  | v0 :: _ => String.eqb v0 "type"
  | [] => false
  end.

(** The lines of the file that list the version [v]. *)
Definition listings (v : string) (lines : list string) : list string :=
  List.filter (fun line => negb (is_type_line line) && String.eqb (strip line) v) lines.

Lemma read_lines_count (lines : list string) (type : pyval)
    (d d' : gmap string (list pyval)) (v : string) :
  read_lines lines type d = Ok d' ->
  length (default [] (d' !! v))
  = (length (default [] (d !! v)) + length (listings v lines))%nat.
Proof.
  revert type d. induction lines as [|line rest IH]; intros type d H; simpl in H.
  - inversion H; subst. simpl. lia.
  - unfold listings, is_type_line. cbn [List.filter].
    destruct (split_ws (strip line)) as [|v0 vals] eqn:E; [discriminate |].
    destruct (String.eqb v0 "type") eqn:Et.
    + destruct vals as [|v1 vals]; [discriminate |]. cbn [negb andb].
      apply (IH _ _ H).
    + cbn [negb andb]. rewrite (IH _ _ H). unfold record_type.
      rewrite lookup_insert. case_decide as Heq.
      * rewrite Heq, String.eqb_refl. simpl. rewrite length_app. simpl.
        unfold listings, is_type_line. lia.
      * apply String.eqb_neq in Heq. rewrite Heq.
        unfold listings, is_type_line. lia.
Qed.

(** C9, amended: [read_versions] collects one tag for each line that
    lists a version, under the same type line or not; with [d] these tags,
    a version without tags has the release type "unknown"; with three
    tags "gatk.git"; with two tags among which is "stable", "stable"; with
    one tag, this tag.  When a version has more than three tags, or two
    without "stable" among them, [read_versions] raises; it returns when
    there is no such version. *)
Theorem releaseType_classification (lines : list string) (d : gmap string (list pyval)) :
  read_lines lines PyNone ∅ = Ok d ->
  (forall version,
      length (default [] (d !! version)) = length (listings version lines))
  /\ (forall table version, table !! version = None ->
     releaseType table version = PyStr "unknown")
  /\ (forall table, read_versions lines = Ok table ->
      forall version,
        match d !! version with
        | None => releaseType table version = PyStr "unknown"
        | Some types =>
            (length types = 3%nat -> releaseType table version = PyStr "gatk.git")
            /\ (length types = 2%nat -> PyStr "stable" ∈ types ->
                releaseType table version = PyStr "stable")
            /\ (forall t, types = [t] -> releaseType table version = t)
        end)
  /\ (forall version types,
        d !! version = Some types ->
        (3 < length types)%nat \/ (length types = 2%nat /\ PyStr "stable" ∉ types) ->
        read_versions lines = Raise StringRaise)
  /\ ((forall version types, d !! version = Some types -> consistent types) ->
      exists table, read_versions lines = Ok table).
Proof.
  intros Hd. pose proof (read_lines_tagged _ _ _ _ tagged_empty Hd) as Htag.
  split.
  { intros version. rewrite (read_lines_count lines PyNone ∅ d version Hd).
    now rewrite lookup_empty. }
  unfold read_versions. rewrite Hd. cbn [bind].
  split; [| split; [| split]].
  - intros table version H. unfold releaseType. now rewrite H.
  - intros table Ht version.
    pose proof (resolve_table_lookup d table version Ht) as Hl.
    unfold releaseType.
    destruct (d !! version) as [types|]; [| now rewrite Hl].
    destruct Hl as (t & Hres & ->).
    split; [| split].
    + intros H3. rewrite resolveType_three in Hres by assumption. congruence.
    + intros H2 Hst. rewrite resolveType_two in Hres by assumption.
      rewrite bool_decide_eq_true_2 in Hres by assumption. congruence.
    + intros t' ->. rewrite resolveType_one in Hres. congruence.
  - intros version types Hv Hbad. unfold resolve_table.
    rewrite resolve_all_raises; [reflexivity | |].
    + apply Forall_forall. intros [v ts] Hin. apply elem_of_map_to_list in Hin.
      now apply (Htag v).
    + apply Exists_exists. exists (version, types).
      split; [now apply elem_of_map_to_list | now apply inconsistent_raises].
  - intros Hcons. unfold resolve_table.
    destruct (resolve_all_returns (map_to_list d)) as [r Hr].
    + apply Forall_forall. intros [v ts] Hin. apply elem_of_map_to_list in Hin.
      apply consistent_returns; [now apply (Htag v) | now apply (Hcons v)].
    + rewrite Hr. cbn [bind]. now eexists.
Qed.

(** The file of the comment above [read_versions], with one version in the
    three repositories. *)
Definition git_versions : list string :=
  ["type unstable"; "1.4-371-g3f76265"; "1.4-28-g26ab3e8"; "1.4-27-g15c5b7a";
   "type stable"; "1.4-28-g26ab3e8"; "1.4-27-g15c5b7a";
   "type gatk.git"; "1.4-28-g7dc6f73"; "1.4-27-g15c5b7a"].

Definition git_tags : gmap string (list pyval) :=
  match read_lines git_versions PyNone ∅ with
  | Ok d => d
  | Raise _ => ∅
  end.

Lemma releaseType_classification_witness :
  exists table,
    read_versions git_versions = Ok table
    /\ releaseType table "1.4-27-g15c5b7a" = PyStr "gatk.git"
    /\ releaseType table "1.4-28-g26ab3e8" = PyStr "stable"
    /\ releaseType table "1.4-371-g3f76265" = PyStr "unstable"
    /\ releaseType table "1.3-1-g0000000" = PyStr "unknown"
    /\ length (default [] (git_tags !! "1.4-27-g15c5b7a"))
       = length (listings "1.4-27-g15c5b7a" git_versions).
Proof.
  assert (Hd : read_lines git_versions PyNone ∅ = Ok git_tags)
    by (vm_compute; reflexivity).
  destruct (releaseType_classification git_versions git_tags Hd)
    as (Hcount & _ & Hok & _ & Hret).
  assert (Hcons : forall version types,
             git_tags !! version = Some types -> consistent types).
  { intros version types Hv.
    apply (map_Forall_lookup_1 (fun _ types => consistent types) git_tags version types);
      [| assumption].
    apply map_Forall_to_list. vm_compute.
    repeat constructor; cbn; try lia; intros; try discriminate;
      repeat (first [apply list_elem_of_here | apply list_elem_of_further]). }
  destruct (Hret Hcons) as [table Ht]. exists table. split; [exact Ht |].
  pose proof (Hok table Ht "1.4-27-g15c5b7a") as H3.
  pose proof (Hok table Ht "1.4-28-g26ab3e8") as H2.
  pose proof (Hok table Ht "1.4-371-g3f76265") as H1.
  pose proof (Hok table Ht "1.3-1-g0000000") as H0.
  assert (E3 : git_tags !! "1.4-27-g15c5b7a"
               = Some [PyStr "unstable"; PyStr "stable"; PyStr "gatk.git"])
    by (vm_compute; reflexivity).
  assert (E2 : git_tags !! "1.4-28-g26ab3e8" = Some [PyStr "unstable"; PyStr "stable"])
    by (vm_compute; reflexivity).
  assert (E1 : git_tags !! "1.4-371-g3f76265" = Some [PyStr "unstable"])
    by (vm_compute; reflexivity).
  assert (E0 : git_tags !! "1.3-1-g0000000" = None) by (vm_compute; reflexivity).
  rewrite E3 in H3. rewrite E2 in H2. rewrite E1 in H1. rewrite E0 in H0.
  destruct H3 as (H3 & _ & _). destruct H2 as (_ & H2 & _). destruct H1 as (_ & _ & H1).
  split; [apply H3; reflexivity |].
  split; [apply H2; [reflexivity | apply list_elem_of_further, list_elem_of_here] |].
  split; [apply H1; reflexivity |]. split; [exact H0 | apply Hcount].
Defined.

(** One version, listed three times under the one type line. *)
Definition listed_thrice : list string :=
  ["type unstable"; "1.4-27-g15c5b7a"; "1.4-27-g15c5b7a"; "1.4-27-g15c5b7a"].

(** C9 as stated fails: a version that three lines list under the one type
    line of the file is tagged in exactly one repository, and its release
    type is "gatk.git", not the tag "unstable" of that repository; listed
    twice under the one type line, it makes [read_versions] raise. *)
Lemma releaseType_repeated_listing_fails :
  read_lines listed_thrice PyNone ∅
  = Ok {[ "1.4-27-g15c5b7a" := [PyStr "unstable"; PyStr "unstable"; PyStr "unstable"] ]}
  /\ (exists table,
        read_versions listed_thrice = Ok table
        /\ releaseType table "1.4-27-g15c5b7a" = PyStr "gatk.git"
        /\ releaseType table "1.4-27-g15c5b7a" <> PyStr "unstable")
  /\ read_versions ["type unstable"; "1.4-27-g15c5b7a"; "1.4-27-g15c5b7a"]
     = Raise StringRaise.
Proof.
  split; [vm_compute; reflexivity |]. split; [| vm_compute; reflexivity].
  eexists. split; [vm_compute; reflexivity |].
  split; vm_compute; [reflexivity | discriminate].
Qed.

(** Four tags for a version, or two without "stable", and [read_versions]
    raises. *)
Example read_versions_inconsistent :
  read_versions ["type unstable"; "1.4-1-gabc"; "type gatk.git"; "1.4-1-gabc"]
  = Raise StringRaise
  /\ read_versions ["type a"; "1.4"; "type b"; "1.4"; "type c"; "1.4"; "type d"; "1.4"]
     = Raise StringRaise.
Proof. split; vm_compute; reflexivity. Qed.

End VersionsProps.

(** * Further properties *)

(** ** More on the matcher: what a match tells about the text *)

Module ReInversion.
Import Str Re ReFacts.

(** The longest run of the class at the head of [s], and what follows. *)
Fixpoint run_of (k : cls) (s : string) : string :=
  match s with
  | String c s' => if in_cls k c then String c (run_of k s') else ""
  | EmptyString => ""
  end.

Fixpoint after (k : cls) (s : string) : string :=
  match s with
  | String c s' => if in_cls k c then after k s' else s
  | EmptyString => ""
  end.

Lemma run_after (k : cls) (s : string) : run_of k s +:+ after k s = s.
Proof.
  induction s as [|c s IH]; simpl; [reflexivity |].
  destruct (in_cls k c); simpl; [now rewrite IH | reflexivity].
Qed.

Lemma run_of_all (k : cls) (s : string) : all (in_cls k) (run_of k s) = true.
Proof.
  induction s as [|c s IH]; simpl; [reflexivity |].
  destruct (in_cls k c) eqn:E; simpl; [now rewrite E | reflexivity].
Qed.

Lemma after_stops (k : cls) (s : string) : stops k (after k s) = true.
Proof.
  induction s as [|c s IH]; simpl; [reflexivity |].
  destruct (in_cls k c) eqn:E; simpl; [assumption | now rewrite E].
Qed.

Lemma run_of_empty (k : cls) (s : string) : run_of k s = "" -> stops k s = true.
Proof.
  destruct s as [|c s]; simpl; [reflexivity |].
  now destruct (in_cls k c).
Qed.

Lemma run_of_stops (k : cls) (s : string) : stops k s = true -> run_of k s = "".
Proof.
  destruct s as [|c s]; simpl; [reflexivity |].
  now destruct (in_cls k c).
Qed.

(** When the rest of the pattern matches after the longest run, a group
    around a star holds this run. *)
Lemma run_group_star_longest (text : string) (k : cls) (p : list atom) (g : groups)
    (s : string) (r : list string) :
  run text p (with_group (run_of k s) g) (after k s) = Some r ->
  run text (Open :: Star k :: Close :: p) g s = Some r.
Proof.
  intros H.
  pose proof (run_group_star text k p g (run_of k s) (after k s) r
                (run_of_all k s) (after_stops k s) H) as Hr.
  now rewrite run_after in Hr.
Qed.

(** A star that matched took some run of the class. *)
Lemma star_inv {R} (k : cls) (cont : string -> option R) (s : string) (r : R) :
  star k cont s = Some r ->
  exists ds rest, s = ds +:+ rest /\ all (in_cls k) ds = true /\ cont rest = Some r.
Proof.
  induction s as [|c s IH]; simpl; intros H.
  - now exists "", "".
  - destruct (in_cls k c) eqn:E.
    + destruct (star k cont s) as [r'|] eqn:Es.
      * inversion H; subst. destruct (IH eq_refl) as (ds & rest & -> & Hds & Hc).
        exists (String c ds), rest. simpl. now rewrite E, Hds.
      * now exists "", (String c s).
    + now exists "", (String c s).
Qed.

(** A star gives up when the rest of the pattern matches at no place of a
    run of the class. *)
Lemma star_none {R} (k : cls) (cont : string -> option R) (s : string) :
  (forall t, all (in_cls k) t = true -> cont t = None) ->
  all (in_cls k) s = true -> star k cont s = None.
Proof.
  intros Hc. induction s as [|c s IH]; simpl; intros Hs.
  - now apply Hc.
  - apply andb_true_iff in Hs as [Hk Hs]. rewrite Hk, (IH Hs).
    apply Hc. simpl. now rewrite Hk, Hs.
Qed.

Lemma run_one_inv (text : string) (k : cls) (p : list atom) (g : groups)
    (s : string) (r : list string) :
  run text (One k :: p) g s = Some r ->
  exists c s', s = String c s' /\ in_cls k c = true /\ run text p g s' = Some r.
Proof.
  destruct s as [|c s']; simpl; [discriminate |].
  destruct (in_cls k c) eqn:E; [| discriminate]. intros H. now exists c, s'.
Qed.

Lemma run_chr_inv (text : string) (a : ascii) (p : list atom) (g : groups)
    (s : string) (r : list string) :
  run text (One (Chr a) :: p) g s = Some r ->
  exists s', s = String a s' /\ run text p g s' = Some r.
Proof.
  intros H. apply run_one_inv in H as (c & s' & -> & Hc & H).
  simpl in Hc. apply Ascii.eqb_eq in Hc as ->. now exists s'.
Qed.

Lemma run_group_one_inv (text : string) (k : cls) (p : list atom) (g : groups)
    (s : string) (r : list string) :
  run text (Open :: One k :: Close :: p) g s = Some r ->
  exists c s', s = String c s' /\ in_cls k c = true
               /\ run text p (with_group (String c "") g) s' = Some r.
Proof.
  destruct s as [|c s']; [discriminate |].
  destruct (in_cls k c) eqn:E.
  - rewrite run_group_one by assumption. intros H. now exists c, s'.
  - change (run text (Open :: One k :: Close :: p) g (String c s'))
      with (run text (One k :: Close :: p) (open_group (String c s') g) (String c s')).
    now rewrite run_one_fails.
Qed.

Lemma run_group_plus_inv (text : string) (k : cls) (p : list atom) (g : groups)
    (s : string) (r : list string) :
  run text (Open :: Plus k :: Close :: p) g s = Some r ->
  exists c ds rest,
    s = String c ds +:+ rest /\ in_cls k c = true /\ all (in_cls k) ds = true
    /\ run text p (with_group (String c ds) g) rest = Some r.
Proof.
  destruct s as [|c s']; [discriminate |].
  change (run text (Open :: Plus k :: Close :: p) g (String c s'))
    with (if in_cls k c
          then star k (run text (Close :: p) (open_group (String c s') g)) s'
          else None).
  destruct (in_cls k c) eqn:E; [| discriminate].
  intros H. apply star_inv in H as (ds & rest & -> & Hds & H).
  exists c, ds, rest. repeat split; try assumption.
  change (run text p (close_group rest (open_group (String c ds +:+ rest) g)) rest
          = Some r) in H.
  now rewrite close_open in H.
Qed.

Lemma run_group_plus_none (text : string) (k : cls) (p : list atom) (g : groups)
    (s : string) :
  all (in_cls k) s = true ->
  (forall g' t, all (in_cls k) t = true -> run text p g' t = None) ->
  run text (Open :: Plus k :: Close :: p) g s = None.
Proof.
  intros Hs Hp. destruct s as [|c s']; [reflexivity |].
  simpl in Hs. apply andb_true_iff in Hs as [Hc Hs].
  change (run text (Open :: Plus k :: Close :: p) g (String c s'))
    with (if in_cls k c
          then star k (run text (Close :: p) (open_group (String c s') g)) s'
          else None).
  rewrite Hc. apply star_none; [| assumption].
  intros t Ht.
  change (run text (Close :: p) (open_group (String c s') g) t)
    with (run text p (close_group t (open_group (String c s') g)) t).
  now apply Hp.
Qed.

Lemma run_star_inv (text : string) (k : cls) (p : list atom) (g : groups)
    (s : string) (r : list string) :
  run text (Star k :: p) g s = Some r ->
  exists ds rest, s = ds +:+ rest /\ all (in_cls k) ds = true
                  /\ run text p g rest = Some r.
Proof. simpl. apply star_inv. Qed.

Lemma run_bol_inv (text : string) (p : list atom) (g : groups) (s : string)
    (r : list string) :
  run text (Bol :: p) g s = Some r -> run text p g s = Some r.
Proof.
  simpl. now destruct (String.length s =? String.length text)%nat.
Qed.

End ReInversion.

(** ** More on the version parser *)

Module VersionMore.
Import Str Re Version ReFacts VersionProps ReInversion.

(** [int] raises a ValueError and nothing else. *)
Lemma py_int_raises (s : string) (e : pyerr) : py_int s = Raise e -> e = ValueError.
Proof. unfold py_int. destruct (nonempty s && all is_digit s); congruence. Qed.

(** The legacy pattern is not anchored at its end: it matches a text that
    goes on after the digits. *)
Lemma svn_prefix (d : ascii) (digits rest : string) :
  is_digit d = true -> all is_digit digits = true -> stops Digit rest = true ->
  re_match svn_re (legacy d digits +:+ rest) = Some [String d ""; digits].
Proof.
  intros Hd Hds Hrest. unfold re_match, legacy, svn_re.
  cbn [lit app String.append]. rewrite run_bol. forget_text.
  rewrite !run_one by reflexivity.
  rewrite run_group_one by assumption.
  apply run_group_star; [assumption | assumption | reflexivity].
Qed.

(** What a match of the legacy pattern tells. *)
Lemma svn_inv (text : string) (m : list string) :
  re_match svn_re text = Some m ->
  exists d s, text = "1.0." +:+ String d s /\ is_digit d = true
              /\ m = [String d ""; run_of Digit s].
Proof.
  unfold re_match, svn_re. cbn [lit app]. intros H.
  apply run_bol_inv in H. revert H. generalize text at 1. intros text0 H.
  apply run_chr_inv in H as (s1 & -> & H).
  apply run_chr_inv in H as (s2 & -> & H).
  apply run_chr_inv in H as (s3 & -> & H).
  apply run_chr_inv in H as (s4 & -> & H).
  apply run_group_one_inv in H as (d & s & -> & Hd & H).
  exists d, s. split; [reflexivity |]. split; [assumption |].
  rewrite (run_group_star_longest text0 Digit [] _ s _ eq_refl) in H.
  inversion H. reflexivity.
Qed.

(** What a match of the full modern pattern tells of its third group. *)
Lemma gitFull_inv (text : string) (m : list string) :
  re_match gitFull_re text = Some m ->
  exists g1 g2 c ds, m = [g1; g2; String c ds]
                     /\ is_digit c = true /\ all is_digit ds = true.
Proof.
  unfold re_match, gitFull_re. intros H.
  apply run_bol_inv in H. revert H. generalize text at 1. intros text0 H.
  apply run_group_one_inv in H as (d & s & -> & Hd & H).
  apply run_chr_inv in H as (s1 & -> & H).
  apply run_group_plus_inv in H as (c2 & ds2 & s2 & -> & Hc2 & Hds2 & H).
  apply run_chr_inv in H as (s3 & -> & H).
  apply run_group_plus_inv in H as (c3 & ds3 & s4 & -> & Hc3 & Hds3 & H).
  apply run_chr_inv in H as (s5 & -> & H).
  apply run_star_inv in H as (w & s6 & -> & Hw & H).
  simpl in H. destruct (at_eol s6); [| discriminate]. inversion H.
  now exists (String d ""), (String c2 ds2), c3, ds3.
Qed.

(** X1: [parseGATKVersion] raises on the texts that begin with [1.0.] and
    one digit that no other digit follows, and on no other text; the
    exception is a ValueError. *)
Theorem parseGATKVersion_raises_iff (text : string) (e : pyerr) :
  parseGATKVersion text = Raise e
  <-> e = ValueError
      /\ exists d rest, text = "1.0." +:+ String d rest
                        /\ is_digit d = true /\ stops Digit rest = true.
Proof.
  split.
  - unfold parseGATKVersion.
    destruct (re_match svn_re text) as [m|] eqn:Esvn.
    + apply svn_inv in Esvn as (d & s & -> & Hd & ->).
      cbn [group nth Nat.sub]. unfold py_int.
      pose proof (run_of_all Digit s) as Hall.
      change (all is_digit (run_of Digit s) = true) in Hall.
      rewrite Hall, andb_true_r.
      destruct (nonempty (run_of Digit s)) eqn:En; [discriminate |].
      cbn [bind]. intros H. inversion H. split; [reflexivity |].
      exists d, s. repeat split; [assumption |].
      apply run_of_empty. now destruct (run_of Digit s).
    + destruct (re_match gitFull_re text) as [m|] eqn:Efull.
      * apply gitFull_inv in Efull as (g1 & g2 & c & ds & -> & Hc & Hds).
        cbn [group nth Nat.sub]. unfold py_int. simpl. rewrite Hc, Hds.
        discriminate.
      * destruct (re_match gitShort_re text); discriminate.
  - intros (-> & d & rest & -> & Hd & Hrest). unfold parseGATKVersion.
    change ("1.0." +:+ String d rest) with (legacy d "" +:+ rest).
    now rewrite svn_prefix.
Qed.

(** X2: the legacy form is recognised at the head of a longer text: after
    [1.0.], a digit and more digits, whatever follows that is not a digit
    is ignored. *)
Theorem parseGATKVersion_legacy_prefix (d : ascii) (digits rest : string) :
  is_digit d = true -> nonempty digits = true -> all is_digit digits = true ->
  stops Digit rest = true ->
  parseGATKVersion (legacy d digits +:+ rest)
  = Ok ("0." +:+ String d "", digits_value 0 digits).
Proof.
  intros Hd Hne Hds Hrest. unfold parseGATKVersion.
  rewrite svn_prefix by assumption. cbn [group nth Nat.sub].
  now rewrite all_digits_int.
Qed.

Lemma parseGATKVersion_legacy_prefix_witness :
  parseGATKVersion "1.0.5777-dirty build" = Ok ("0.5", 777).
Proof.
  exact (parseGATKVersion_legacy_prefix "5" "777" "-dirty build"
           eq_refl eq_refl eq_refl eq_refl).
Defined.

(** No text of the form digit, dot, digits matches the legacy pattern when
    no dot follows. *)
Lemma svn_not_dotted (d : ascii) (ds1 rest : string) :
  nonempty ds1 = true -> all is_digit ds1 = true -> stops (Chr ".") rest = true ->
  re_match svn_re (String d ("." +:+ ds1 +:+ rest)) = None.
Proof.
  intros Hne Hds Hrest. unfold re_match, svn_re.
  cbn [lit app String.append]. rewrite run_bol. forget_text.
  destruct ds1 as [|a ds1]; [discriminate |].
  simpl in Hds. apply andb_true_iff in Hds as [Ha Hds].
  cbn [String.append].
  destruct (in_cls (Chr "1") d) eqn:E1; [| now rewrite run_one_fails].
  rewrite run_one by assumption. rewrite run_one by reflexivity.
  destruct (in_cls (Chr "0") a) eqn:E0; [| now rewrite run_one_fails].
  rewrite run_one by assumption.
  destruct ds1 as [|b ds1]; cbn [String.append].
  - destruct rest as [|c rest]; [reflexivity |].
    simpl in Hrest. apply negb_true_iff in Hrest. now rewrite run_one_fails.
  - simpl in Hds. apply andb_true_iff in Hds as [Hb _].
    rewrite run_one_fails; [reflexivity |].
    simpl. now apply digit_not.
Qed.

Lemma gitFull_not_bare (d : ascii) (ds1 : string) :
  all is_digit ds1 = true ->
  re_match gitFull_re (String d ("." +:+ ds1)) = None.
Proof.
  intros Hds. unfold re_match, gitFull_re. rewrite run_bol. forget_text.
  destruct (is_digit d) eqn:Hd.
  - rewrite run_group_one by assumption.
    cbn [String.append]. rewrite run_one by reflexivity.
    apply run_group_plus_none; [assumption |].
    intros g' t Ht. destruct t as [|c t]; [reflexivity |].
    simpl in Ht. apply andb_true_iff in Ht as [Hc _].
    apply run_one_fails. simpl. now apply digit_not.
  - change (run text [Open; One Digit; Close; One (Chr "."); Open; Plus Digit; Close;
                      One (Chr "-"); Open; Plus Digit; Close; One (Chr "-");
                      Star Word; Eol] no_groups (String d ("." +:+ ds1)))
      with (run text [One Digit; Close; One (Chr "."); Open; Plus Digit; Close;
                      One (Chr "-"); Open; Plus Digit; Close; One (Chr "-");
                      Star Word; Eol]
              (open_group (String d ("." +:+ ds1)) no_groups) (String d ("." +:+ ds1))).
    now apply run_one_fails.
Qed.

Lemma gitShort_bare (d : ascii) (ds1 : string) :
  is_digit d = true -> nonempty ds1 = true -> all is_digit ds1 = true ->
  re_match gitShort_re (String d ("." +:+ ds1)) = Some [String d ""; ds1].
Proof.
  intros Hd Hne Hds. unfold re_match, gitShort_re. rewrite run_bol. forget_text.
  rewrite run_group_one by assumption.
  cbn [String.append]. rewrite run_one by reflexivity.
  rewrite <- (append_empty ds1) at 1.
  apply run_group_plus; [assumption | assumption | reflexivity | reflexivity].
Qed.

(** X3: on the bare modern form, a digit, a dot and digits,
    [parseGATKVersion] returns this text as the major version and the
    minor version 0. *)
Theorem parseGATKVersion_bare (d : ascii) (ds1 : string) :
  is_digit d = true -> nonempty ds1 = true -> all is_digit ds1 = true ->
  parseGATKVersion (String d ("." +:+ ds1)) = Ok (String d ("." +:+ ds1), 0).
Proof.
  intros Hd Hne Hds. unfold parseGATKVersion.
  rewrite <- (append_empty ds1) at 1.
  rewrite svn_not_dotted by (assumption || reflexivity).
  rewrite gitFull_not_bare by assumption.
  rewrite gitShort_bare by assumption. reflexivity.
Qed.

Lemma parseGATKVersion_bare_witness :
  parseGATKVersion "2.17" = Ok ("2.17", 0).
Proof. exact (parseGATKVersion_bare "2" "17" eq_refl eq_refl eq_refl). Defined.

(** X4: a text that does not begin with a digit, the empty text among
    them, has the major version "unknown" and the minor version 0. *)
Theorem parseGATKVersion_no_digit (text : string) :
  match text with
  | EmptyString => True
  | String c _ => is_digit c = false
  end ->
  parseGATKVersion text = Ok ("unknown", 0).
Proof.
  intros H. unfold parseGATKVersion.
  assert (Hsvn : re_match svn_re text = None).
  { unfold re_match, svn_re. cbn [lit app]. rewrite run_bol.
    destruct text as [|c t]; [reflexivity |].
    apply run_one_fails. simpl.
    destruct (Ascii.eqb_spec c "1") as [->|]; [discriminate H | reflexivity]. }
  assert (Hgroup : forall p, run text (Bol :: Open :: One Digit :: p) no_groups text = None).
  { intros p. rewrite run_bol. destruct text as [|c t]; [reflexivity |].
    change (run (String c t) (Open :: One Digit :: p) no_groups (String c t))
      with (run (String c t) (One Digit :: p)
              (open_group (String c t) no_groups) (String c t)).
    now apply run_one_fails. }
  rewrite Hsvn. unfold re_match, gitFull_re, gitShort_re. now rewrite !Hgroup.
Qed.

Lemma parseGATKVersion_no_digit_witness :
  parseGATKVersion "<unknown>" = Ok ("unknown", 0).
Proof. exact (parseGATKVersion_no_digit "<unknown>" eq_refl). Defined.

End VersionMore.

(** ** Splitting and joining *)

Module StrFacts.
Import Str.

(** [x] has no character [c]. *)
Definition free_of (c : ascii) (x : string) : Prop := contains_char c x = false.

Lemma split_on_free (sep : ascii) (x : string) :
  free_of sep x -> split_on sep x = [x].
Proof.
  unfold free_of. induction x as [|c x IH]; simpl; [reflexivity |].
  intros H. apply orb_false_iff in H as [Hc Hx]. rewrite Hc, (IH Hx). reflexivity.
Qed.

Lemma split_on_cons (sep : ascii) (x rest : string) :
  free_of sep x ->
  split_on sep (x +:+ String sep rest) = x :: split_on sep rest.
Proof.
  unfold free_of. induction x as [|c x IH]; simpl.
  - intros _. now rewrite Ascii.eqb_refl.
  - intros H. apply orb_false_iff in H as [Hc Hx]. rewrite Hc, (IH Hx). reflexivity.
Qed.

(** Splitting what was joined gives the parts back, when no part holds the
    separator. *)
Lemma split_join (sep : ascii) (l : list string) :
  l <> [] -> Forall (free_of sep) l ->
  split_on sep (join (String sep "") l) = l.
Proof.
  intros Hne Hl. induction Hl as [|x l Hx Hl IH]; [congruence |].
  destruct l as [|y l].
  - simpl. now apply split_on_free.
  - change (join (String sep "") (x :: y :: l))
      with (x +:+ String sep (join (String sep "") (y :: l))).
    rewrite split_on_cons by assumption. f_equal. now apply IH.
Qed.

Lemma split_on_not_nil (sep : ascii) (s : string) : split_on sep s <> [].
Proof.
  destruct s as [|c s]; simpl; [discriminate |].
  destruct (Ascii.eqb c sep); [discriminate |].
  destruct (split_on sep s); discriminate.
Qed.

(** Joining what was split gives the string back. *)
Lemma join_split (sep : ascii) (s : string) :
  join (String sep "") (split_on sep s) = s.
Proof.
  induction s as [|c s IH]; simpl; [reflexivity |].
  destruct (Ascii.eqb_spec c sep) as [->|Hne].
  - pose proof (split_on_not_nil sep s) as Hn.
    destruct (split_on sep s) as [|y l] eqn:E; [congruence |].
    change (join (String sep "") ("" :: y :: l))
      with ("" +:+ String sep (join (String sep "") (y :: l))).
    cbn [String.append]. now rewrite IH.
  - pose proof (split_on_not_nil sep s) as Hn.
    destruct (split_on sep s) as [|y l] eqn:E; [congruence |].
    destruct l as [|z l]; simpl in *; now rewrite <- IH.
Qed.

Lemma replace_char_free (a b : ascii) (s : string) :
  a <> b -> free_of a (replace_char a b s).
Proof.
  intros Hab. unfold free_of. induction s as [|c s IH]; simpl; [reflexivity |].
  rewrite IH, orb_false_r.
  destruct (Ascii.eqb_spec c a) as [->|Hc].
  - apply Ascii.eqb_neq. congruence.
  - now apply Ascii.eqb_neq.
Qed.

Lemma replace_char_length (a b : ascii) (s : string) :
  String.length (replace_char a b s) = String.length s.
Proof. induction s as [|c s IH]; simpl; [reflexivity | now rewrite IH]. Qed.

Lemma replace_char_id (a b : ascii) (s : string) :
  free_of a s -> replace_char a b s = s.
Proof.
  unfold free_of. induction s as [|c s IH]; simpl; [reflexivity |].
  intros H. apply orb_false_iff in H as [Hc Hs]. now rewrite Hc, (IH Hs).
Qed.

End StrFacts.

(** ** More on the record decoder *)

Module DecoderMore.
Import Str Re Version DecoderProps StrFacts VersionMore.

Lemma foldM_app {A B} (f : B -> A -> result B) (l1 l2 : list A) (b : B) :
  foldM f (l1 ++ l2) b = bind (foldM f l1 b) (foldM f l2).
Proof.
  revert b. induction l1 as [|a l1 IH]; intros b; simpl; [reflexivity |].
  destruct (f b a); simpl; [apply IH | reflexivity].
Qed.

(** A loop that raises does so in its body. *)
Lemma foldM_raise {A B} (f : B -> A -> result B) (l : list A) (b : B) (e : pyerr) :
  foldM f l b = Raise e -> exists x a, a ∈ l /\ f x a = Raise e.
Proof.
  revert b. induction l as [|a l IH]; intros b H; simpl in H; [discriminate |].
  destruct (f b a) as [y|e'] eqn:E; simpl in H.
  - destruct (IH y H) as (x & a' & Hin & Hx). exists x, a'. split; [now right | assumption].
  - inversion H; subst. exists b, a. split; [now left | assumption].
Qed.

(** A loop raises when its body does on one of the items, whatever the
    state. *)
Lemma foldM_raises {A B} (f : B -> A -> result B) (l : list A) (b : B) (a : A) :
  a ∈ l -> (forall x, returns (f x a) = false) -> returns (foldM f l b) = false.
Proof.
  revert b. induction l as [|a' l IH]; intros b Hin Ha; [inversion Hin |].
  simpl. apply elem_of_cons in Hin as [<- | Hin].
  - specialize (Ha b). now destruct (f b a).
  - destruct (f b a'); [now apply IH | reflexivity].
Qed.

(** X5: a child whose tag has no formatter plays no part in [decode]:
    with or without it the result is the same. *)
Theorem decode_ignores_unregistered (self : RecordDecoder) (t : string)
    (x : option string) (l1 l2 : list elt) (e : elt) :
  formatters self !! tag e = None ->
  decode self (Element t x (l1 ++ e :: l2)) = decode self (Element t x (l1 ++ l2)).
Proof.
  intros He. unfold decode, decode_children. cbn [children].
  rewrite !foldM_app. destruct (foldM _ l1 ∅) as [b1|]; [| reflexivity].
  cbn [bind foldM]. now rewrite He.
Qed.

Lemma decode_ignores_unregistered_witness :
  decode (new_decoder ∅)
    (Element "GATK-run-report" None
       ([Element "id" (Some "D7uhPv") []]
        ++ Element "command-line" (Some "-T CountReads") []
        :: [Element "run-time" (Some "12") []]))
  = decode (new_decoder ∅)
      (Element "GATK-run-report" None
         ([Element "id" (Some "D7uhPv") []] ++ [Element "run-time" (Some "12") []])).
Proof.
  apply decode_ignores_unregistered. vm_compute. reflexivity.
Defined.

(** The formatters of an element bind each of their fields to what the
    formatter returns. *)
Lemma apply_formats_binds (e : elt) (ffs : list (string * formatter))
    (b b' : gmap string pyval) :
  NoDup ffs.*1 -> apply_formats e ffs b = Ok b' ->
  forall f fmt, (f, fmt) ∈ ffs -> exists v, fmt e = Ok v /\ b' !! f = Some v.
Proof.
  revert b. induction ffs as [|[f0 fmt0] ffs IH]; intros b Hnd H f fmt Hin.
  - inversion Hin.
  - rewrite fmap_cons in Hnd. apply NoDup_cons in Hnd as [Hf0 Hnd].
    unfold apply_formats in H. simpl in H.
    destruct (fmt0 e) as [v0|] eqn:E0; simpl in H; [| discriminate].
    apply elem_of_cons in Hin as [Heq | Hin].
    + inversion Heq; subst. exists v0. split; [assumption |].
      rewrite (apply_formats_other e ffs (<[f0:=v0]> b) b' f0 Hf0 H).
      apply lookup_insert_eq.
    + now apply (IH (<[f0:=v0]> b)).
Qed.

(** X6: when a tag occurs more than once the last child wins: after the
    last child of a record, the fields of its tag have the values of its
    formatters. *)
Theorem decode_last_child_wins (self : RecordDecoder) (t : string) (x : option string)
    (l : list elt) (e : elt) (ffs : list (string * formatter)) (b : gmap string pyval) :
  formatters self !! tag e = Some ffs -> NoDup ffs.*1 ->
  decode self (Element t x (l ++ [e])) = Ok b ->
  forall f fmt, (f, fmt) ∈ ffs -> exists v, fmt e = Ok v /\ b !! f = Some v.
Proof.
  intros He Hnd H f fmt Hin. unfold decode, decode_children in H. cbn [children] in H.
  rewrite foldM_app in H. destruct (foldM _ l ∅) as [b1|]; [| discriminate].
  cbn [bind foldM] in H. rewrite He in H.
  destruct (apply_formats e ffs b1) as [b2|] eqn:E; [| discriminate].
  cbn [bind] in H. inversion H; subst.
  destruct (apply_formats_binds e ffs b1 b2 Hnd E f fmt Hin) as (v & Hv & Hb).
  exists v. split; [assumption |]. rewrite add_missing_lookup. now rewrite Hb.
Qed.

Lemma decode_last_child_wins_witness :
  exists b,
    decode (new_decoder ∅)
      (Element "GATK-run-report" None
         ([Element "host-name" (Some "first.example.com") []]
          ++ [Element "host-name" (Some "second.example.org") []])) = Ok b
    /\ b !! "host-name" = Some (PyStr "second.example.org")
    /\ b !! "domain-name" = Some (PyStr "example.org").
Proof.
  destruct (decode_returns ∅
              (Element "GATK-run-report" None
                 ([Element "host-name" (Some "first.example.com") []]
                  ++ [Element "host-name" (Some "second.example.org") []])))
    as [b Hb]; [vm_compute; reflexivity |].
  exists b. split; [exact Hb |].
  assert (Hffs : formatters (new_decoder ∅)
                 !! tag (Element "host-name" (Some "second.example.org") [])
                 = Some [("host-name", formatHostName); ("domain-name", formatDomainName)])
    by (vm_compute; reflexivity).
  assert (Hnd : NoDup [("host-name", formatHostName); ("domain-name", formatDomainName)].*1)
    by (cbn; apply NoDup_cons; split; [| apply NoDup_singleton];
        intros Hin; apply list_elem_of_singleton in Hin; discriminate).
  pose proof (decode_last_child_wins (new_decoder ∅) "GATK-run-report" None
                [Element "host-name" (Some "first.example.com") []]
                (Element "host-name" (Some "second.example.org") [])
                _ b Hffs Hnd Hb) as Hlast.
  split.
  - destruct (Hlast "host-name" formatHostName) as (v & Hv & ->); [now left |].
    vm_compute in Hv. now inversion Hv.
  - destruct (Hlast "domain-name" formatDomainName) as (v & Hv & ->);
      [right; now left |].
    vm_compute in Hv. now inversion Hv.
Defined.

(** The fields of every entry of the formatter table are declared. *)
Lemma formatters_declared (versions : gmap string pyval) (t f : string)
    (ffs : list (string * formatter)) :
  formatters (new_decoder versions) !! t = Some ffs ->
  f ∈ ffs.*1 -> f ∈ fields (new_decoder versions).
Proof.
  intros H Hf. rewrite declared_fields.
  formatter_cases H ltac:(idtac).
  all: cbn in Hf.
  all: repeat (apply elem_of_cons in Hf as [-> | Hf];
               [repeat (first [apply list_elem_of_here | apply list_elem_of_further]) |]).
  all: inversion Hf.
Qed.

(** For a decoder whose formatters write declared fields only, the keys
    of what [decode] returns are the declared fields. *)
Lemma decode_keys_declared (self : RecordDecoder) (report : elt)
    (b : gmap string pyval) :
  (forall t ffs f, formatters self !! t = Some ffs -> f ∈ ffs.*1 -> f ∈ fields self) ->
  decode self report = Ok b ->
  forall f, is_Some (b !! f) <-> f ∈ fields self.
Proof.
  intros Hdecl H f. split; [| now apply (proj1 (decode_binds_fields _ _ _ H))].
  unfold decode in H.
  destruct (decode_children self report ∅) as [b0|] eqn:E; [| discriminate].
  cbn [bind] in H. inversion H; subst. rewrite add_missing_lookup.
  destruct (b0 !! f) as [v|] eqn:Ef.
  - intros _. destruct (decide (f ∈ fields self)) as [|Hno]; [assumption | exfalso].
    assert (Hu : underivable self report f).
    { intros child ffs _ Hffs Hf. apply Hno. eapply Hdecl; eassumption. }
    rewrite (decode_children_other _ _ _ _ _ Hu E), lookup_empty in Ef. discriminate.
  - destruct (decide (f ∈ fields self)) as [|Hno]; [intros _; assumption |].
    rewrite bool_decide_eq_false_2 by assumption. intros [? ?]. discriminate.
Qed.

(** X7: the keys of the mapping [decode] returns are the declared fields,
    no more and no less. *)
Theorem decode_keys (versions : gmap string pyval) (report : elt)
    (b : gmap string pyval) :
  decode (new_decoder versions) report = Ok b ->
  forall f, is_Some (b !! f) <-> f ∈ fields (new_decoder versions).
Proof.
  intros H. apply (decode_keys_declared _ report); [| exact H].
  intros t ffs f. apply formatters_declared.
Qed.

Lemma decode_keys_witness :
  exists b, decode (new_decoder ∅) sample_report = Ok b
            /\ is_Some (b !! "domain-name") /\ ~ is_Some (b !! "command-line").
Proof.
  destruct (decode_returns ∅ sample_report) as [b Hb]; [vm_compute; reflexivity |].
  exists b. split; [exact Hb |].
  pose proof (decode_keys ∅ sample_report b Hb) as Hk. split.
  - apply Hk. rewrite declared_fields.
    repeat (first [apply list_elem_of_here | apply list_elem_of_further]).
  - intros Hs. apply Hk in Hs. rewrite declared_fields in Hs.
    repeat (apply elem_of_cons in Hs as [Hs | Hs]; [discriminate Hs |]).
    inversion Hs.
Defined.

Lemma strings_of_raise (l : list pyval) (err : pyerr) :
  strings_of l = Raise err <-> err = TypeError /\ PyNone ∈ l.
Proof.
  induction l as [|[|s] l IH]; simpl.
  - split; [discriminate | intros [_ H]; inversion H].
  - split; [intros H; inversion H; split; [reflexivity | now left] | intros [-> _]; reflexivity].
  - destruct (strings_of l) as [r|e'] eqn:E; cbn [bind].
    + split; [discriminate |]. intros [He Hin].
      apply elem_of_cons in Hin as [Hin | Hin]; [discriminate |].
      assert (Ok r = Raise err) by (apply IH; now split). discriminate.
    + split.
      * intros H. inversion H; subst. destruct (proj1 IH eq_refl) as [-> Hin].
        split; [reflexivity | now right].
      * intros [-> Hin]. apply elem_of_cons in Hin as [Hin | Hin]; [discriminate |].
        apply IH. now split.
Qed.

(** X8: [parseException] raises when a frame of the stack trace has no
    text, and only then; the exception is a TypeError. *)
Theorem parseException_raises_iff (e : elt) (err : pyerr) :
  parseException e = Raise err
  <-> err = TypeError
      /\ exists stackTrace frame,
           find e "stacktrace" = Some stackTrace
           /\ frame ∈ findall stackTrace "string" /\ text frame = PyNone.
Proof.
  unfold parseException.
  destruct (find e "stacktrace") as [st|] eqn:Est.
  - destruct (findall st "string") as [|fr frames] eqn:Efr.
    + cbn. destruct (find e "is-user-exception"); cbn.
      * split; [discriminate | intros (_ & st' & frame & Hst & Hin & _)].
        inversion Hst; subst. rewrite Efr in Hin. inversion Hin.
      * split; [discriminate | intros (_ & st' & frame & Hst & Hin & _)].
        inversion Hst; subst. rewrite Efr in Hin. inversion Hin.
    + replace (0 <? Z.of_nat (length (fr :: frames))) with true by (symmetry; apply Z.ltb_lt; simpl; lia).
      unfold join_vals.
      destruct (strings_of (map text (fr :: frames))) as [r|e'] eqn:Es; cbn [bind].
      * destruct (find e "is-user-exception"); cbn.
        -- split; [discriminate | intros (-> & st' & frame & Hst & Hin & Ht)].
           inversion Hst; subst. rewrite Efr in Hin.
           assert (Ok r = Raise TypeError); [| discriminate].
           rewrite <- Es. apply strings_of_raise. split; [reflexivity |].
           rewrite <- Ht. apply list_elem_of_fmap. now exists frame.
        -- split; [discriminate | intros (-> & st' & frame & Hst & Hin & Ht)].
           inversion Hst; subst. rewrite Efr in Hin.
           assert (Ok r = Raise TypeError); [| discriminate].
           rewrite <- Es. apply strings_of_raise. split; [reflexivity |].
           rewrite <- Ht. apply list_elem_of_fmap. now exists frame.
      * apply strings_of_raise in Es as [-> Hin].
        apply list_elem_of_fmap in Hin as (frame & Ht & Hin).
        split.
        -- intros H. inversion H. split; [reflexivity |].
           exists st, frame. rewrite Efr. now repeat split.
        -- now intros [-> _].
  - cbn. destruct (find e "is-user-exception"); cbn.
    + split; [discriminate | intros (_ & st' & frame & Hst & _)]. discriminate.
    + split; [discriminate | intros (_ & st' & frame & Hst & _)]. discriminate.
Qed.

Lemma formatters_svn (versions : gmap string pyval) :
  formatters (new_decoder versions) !! "svn-version"
  = Some (combine ["svn-version"; "gatk-version"; "gatk-minor-version"; "release-type"]
                  [id; formatMajorVersion; formatMinorVersion;
                   formatReleaseType versions]).
Proof.
  unfold new_decoder, add, addComplex, empty_decoder.
  cbn [fold_left formatters fields].
  repeat (rewrite lookup_insert_ne by discriminate). apply lookup_insert_eq.
Qed.

Lemma formatters_exception (versions : gmap string pyval) :
  formatters (new_decoder versions) !! "exception"
  = Some (combine ["exception-msg"; "stacktrace"; "exception-at-brief";
                   "is-user-exception"; "run-status"]
                  [formatExceptionMsg; formatExceptionAt; formatExceptionAtBrief;
                   formatExceptionUser; formatRunStatus]).
Proof.
  unfold new_decoder, add, addComplex, empty_decoder.
  cbn [fold_left formatters fields]. apply lookup_insert_eq.
Qed.

(** On a child that is not decodable the body of the loop of [decode]
    raises. *)
Lemma undecodable_raises (versions : gmap string pyval) (e : elt)
    (b : gmap string pyval) :
  decodable e = false ->
  returns (match formatters (new_decoder versions) !! tag e with
           | Some fieldFormats => apply_formats e fieldFormats b
           | None => Ok b
           end) = false.
Proof.
  unfold decodable. intros H.
  destruct (String.eqb_spec (tag e) "svn-version") as [Ht|_].
  - rewrite Ht, formatters_svn. unfold apply_formats.
    cbn [combine foldM fst snd]. unfold id at 1. cbn [bind].
    unfold formatMajorVersion.
    now destruct (parseGATKVersion_val (text e)).
  - destruct (String.eqb_spec (tag e) "exception") as [Ht|_]; [| discriminate].
    rewrite Ht, formatters_exception. unfold apply_formats.
    cbn [combine foldM fst snd]. unfold formatExceptionMsg.
    now destruct (parseException e).
Qed.

Lemma forallb_false {A} (f : A -> bool) (l : list A) :
  forallb f l = false -> exists x, In x l /\ f x = false.
Proof.
  induction l as [|a l IH]; simpl; [discriminate |].
  destruct (f a) eqn:E; simpl.
  - intros H. destruct (IH H) as (x & Hin & Hx). exists x. split; [now right | assumption].
  - intros _. exists a. split; [now left | assumption].
Qed.

(** X9: [decode] returns on the records whose children are all decodable,
    and raises on every other record: one version element without a text
    the parser accepts, or one exception element with a frame without
    text, and the whole record is lost. *)
Theorem decode_returns_iff (versions : gmap string pyval) (report : elt) :
  returns (decode (new_decoder versions) report) = true
  <-> forallb decodable (children report) = true.
Proof.
  split.
  - intros H. apply not_false_iff_true. intros Hno.
    apply forallb_false in Hno as (child & Hin & Hc).
    assert (Hr : returns (decode_children (new_decoder versions) report ∅) = false).
    { unfold decode_children.
      apply (foldM_raises _ _ _ child); [now apply list_elem_of_In |].
      intros x. now apply undecodable_raises. }
    unfold decode in H.
    destruct (decode_children (new_decoder versions) report ∅); discriminate.
  - intros H. destruct (decode_returns versions report H) as [b Hb]. now rewrite Hb.
Qed.

Lemma apply_formats_raise (e : elt) (ffs : list (string * formatter))
    (b : gmap string pyval) (err : pyerr) :
  apply_formats e ffs b = Raise err -> exists ff, ff ∈ ffs /\ ff.2 e = Raise err.
Proof.
  intros H. unfold apply_formats in H.
  apply foldM_raise in H as (x & ff & Hin & Hx).
  exists ff. split; [assumption |]. cbn beta in Hx.
  destruct (ff.2 e); cbn [bind] in Hx; [discriminate | congruence].
Qed.

Lemma parseGATKVersion_val_raises (v : pyval) (err : pyerr) :
  parseGATKVersion_val v = Raise err -> err = TypeError \/ err = ValueError.
Proof.
  destruct v as [|t]; simpl; [intros H; inversion H; now left |].
  unfold parseGATKVersion.
  destruct (re_match svn_re t);
    [| destruct (re_match gitFull_re t); [| destruct (re_match gitShort_re t)]].
  all: cbv beta iota zeta.
  all: match goal with |- context [py_int ?m] => destruct (py_int m) eqn:E end.
  all: cbn [bind]; try discriminate.
  all: intros H; injection H as <-; apply py_int_raises in E; now right.
Qed.

Lemma parseException_raises (e : elt) (err : pyerr) :
  parseException e = Raise err -> err = TypeError.
Proof.
  unfold parseException.
  destruct (find e "stacktrace") as [st|].
  - destruct (0 <? Z.of_nat (length (findall st "string"))).
    + unfold join_vals.
      destruct (strings_of (map text (findall st "string"))) eqn:Es; cbn [bind].
      * destruct (find e "is-user-exception"); cbn; discriminate.
      * apply strings_of_raise in Es as [-> _]. congruence.
    + cbn. destruct (find e "is-user-exception"); cbn; discriminate.
  - cbn. destruct (find e "is-user-exception"); cbn; discriminate.
Qed.

Lemma decode_raise_kinds (versions : gmap string pyval) (report : elt) (err : pyerr) :
  decode (new_decoder versions) report = Raise err ->
  err = TypeError \/ err = ValueError.
Proof.
  intros H. unfold decode in H.
  destruct (decode_children (new_decoder versions) report ∅) eqn:E; [discriminate |].
  cbn [bind] in H. inversion H; subst. clear H.
  unfold decode_children in E. apply foldM_raise in E as (x & child & _ & Hx).
  destruct (formatters (new_decoder versions) !! tag child) as [ffs|] eqn:Hffs;
    [| discriminate].
  apply apply_formats_raise in Hx as ([f fmt] & Hin & Hfmt). simpl in Hfmt.
  formatter_cases Hffs ltac:(idtac).
  all: cbn in Hin.
  all: repeat (apply elem_of_cons in Hin as [Hin | Hin];
               [injection Hin as -> -> |]); try (inversion Hin; fail).
  all: try discriminate Hfmt.
  all: unfold formatMajorVersion, formatMinorVersion, formatExceptionMsg,
         formatExceptionAt, formatExceptionAtBrief, formatExceptionUser,
         formatRunStatus, formatDomainName, formatReleaseType in Hfmt.
  all: try match type of Hfmt with
           | context [parseGATKVersion_val ?t] =>
               destruct (parseGATKVersion_val t) eqn:Ep; [discriminate Hfmt |];
               cbn [bind] in Hfmt; injection Hfmt as <-;
               exact (parseGATKVersion_val_raises _ _ Ep)
           | context [parseException ?c] =>
               destruct (parseException c) as [[[[? ?] ?] ?]|] eqn:Ep;
               [discriminate Hfmt |];
               cbn [bind] in Hfmt; injection Hfmt as <-;
               left; exact (parseException_raises _ _ Ep)
           end.
  - now destruct (2 <=? Z.of_nat (length (split_on "." (hostName child)))).
  - destruct (text child) as [|t]; [discriminate |]. now destruct (versions !! t).
Qed.

(** X10: the exceptions [decode] raises are TypeError and ValueError, and
    no other: a TypeError on a version element without text, a ValueError
    on the version "1.0.5". *)
Theorem decode_raises_only (versions : gmap string pyval) :
  (forall report err,
      decode (new_decoder versions) report = Raise err ->
      err = TypeError \/ err = ValueError)
  /\ decode (new_decoder versions)
       (Element "GATK-run-report" None [Element "svn-version" None []])
     = Raise TypeError
  /\ decode (new_decoder versions)
       (Element "GATK-run-report" None [Element "svn-version" (Some "1.0.5") []])
     = Raise ValueError.
Proof.
  split; [apply decode_raise_kinds |].
  split; unfold decode, decode_children; cbn [children foldM tag];
    rewrite formatters_svn; reflexivity.
Qed.

(** X11: the domain name is made of the last two labels of the host name;
    a host name without a dot has the domain "unknown", and so has an
    element without text, whose host name is "unknown". *)
Theorem formatDomainName_last_two (e : elt) :
  (forall pre l1 l2,
      Forall (free_of ".") (pre ++ [l1; l2]) ->
      hostName e = join "." (pre ++ [l1; l2]) ->
      formatDomainName e = Ok (PyStr (l1 +:+ "." +:+ l2)))
  /\ (free_of "." (hostName e) -> formatDomainName e = Ok (PyStr "unknown"))
  /\ (text e = PyNone -> formatDomainName e = Ok (PyStr "unknown")).
Proof.
  split; [| split].
  - intros pre l1 l2 Hfree Hhost. unfold formatDomainName. rewrite Hhost.
    change "." with (String "."%char "") at 1 2.
    rewrite split_join by (assumption || now destruct pre).
    rewrite length_app. cbn [length].
    replace (2 <=? Z.of_nat (length pre + 2)) with true by (symmetry; apply Z.leb_le; lia).
    replace (length pre + 2 - 2)%nat with (length pre) by lia.
    rewrite drop_app_length. reflexivity.
  - intros Hfree. unfold formatDomainName. now rewrite split_on_free.
  - intros Ht. unfold formatDomainName, hostName. rewrite Ht. reflexivity.
Qed.

Lemma formatDomainName_last_two_witness :
  formatDomainName (Element "host-name" (Some "node1.cluster.broadinstitute.org") [])
  = Ok (PyStr "broadinstitute.org")
  /\ formatDomainName (Element "host-name" (Some "localhost") []) = Ok (PyStr "unknown").
Proof.
  destruct (formatDomainName_last_two
              (Element "host-name" (Some "node1.cluster.broadinstitute.org") []))
    as (H1 & _ & _).
  destruct (formatDomainName_last_two (Element "host-name" (Some "localhost") []))
    as (_ & H2 & _).
  split.
  - apply (H1 ["node1"; "cluster"] "broadinstitute" "org"); [| reflexivity].
    repeat constructor.
  - apply H2. reflexivity.
Defined.

End DecoderMore.

(** ** More on dates and the record filter *)

Module FilterMore.
Import Str ReFacts VersionProps DurationProps StageProps.

(** *** The number of a day *)

Definition leap_day (y : Z) : Z := if is_leap y then 1 else 0.

Lemma days_before_year_next (y : Z) :
  days_before_year (y + 1) = days_before_year y + 365 + leap_day y.
Proof.
  unfold days_before_year, leap_day, is_leap.
  replace (y + 1 - 1) with y by lia.
  destruct (Z.eqb_spec (y mod 4) 0) as [H4|H4];
    destruct (Z.eqb_spec (y mod 100) 0) as [H100|H100];
    destruct (Z.eqb_spec (y mod 400) 0) as [H400|H400]; cbn [andb orb negb];
    Z.div_mod_to_equations; lia.
Qed.

Lemma days_before_year_mono (y1 y2 : Z) :
  y1 <= y2 -> days_before_year y1 <= days_before_year y2.
Proof.
  intros H. replace y2 with (y1 + Z.of_nat (Z.to_nat (y2 - y1))) by lia.
  induction (Z.to_nat (y2 - y1)) as [|n IH].
  - replace (y1 + Z.of_nat 0) with y1 by lia. lia.
  - replace (y1 + Z.of_nat (S n)) with (y1 + Z.of_nat n + 1) by lia.
    rewrite days_before_year_next. unfold leap_day.
    destruct (is_leap (y1 + Z.of_nat n)); lia.
Qed.

Lemma days_in_month_pos (y m : Z) : 28 <= days_in_month y m.
Proof.
  unfold days_in_month.
  destruct (m =? 2); [destruct (is_leap y); lia |].
  destruct ((m =? 4) || (m =? 6) || (m =? 9) || (m =? 11)); lia.
Qed.

Lemma days_before_month_aux_mono (y : Z) (n n' : nat) :
  (n <= n')%nat -> days_before_month_aux y n <= days_before_month_aux y n'.
Proof.
  induction 1 as [|k _ IH]; [lia |].
  cbn [days_before_month_aux]. pose proof (days_in_month_pos y (Z.of_nat (S k))). lia.
Qed.

Lemma days_before_month_aux_year (y : Z) :
  days_before_month_aux y 12 = 365 + leap_day y.
Proof.
  unfold leap_day. cbn -[is_leap]. unfold days_in_month. cbn -[is_leap].
  destruct (is_leap y); reflexivity.
Qed.

(** The days of the year up to the end of the month [m]. *)
Lemma days_before_month_end (y m : Z) :
  1 <= m -> days_before_month y m + days_in_month y m
            = days_before_month_aux y (Z.to_nat m).
Proof.
  intros Hm. unfold days_before_month.
  replace (Z.to_nat m) with (S (Z.to_nat (m - 1))) by lia.
  cbn [days_before_month_aux].
  now replace (Z.of_nat (S (Z.to_nat (m - 1)))) with m by lia.
Qed.

Lemma date_ok_bounds (d : datetime) :
  date_ok d ->
  1 <= year d /\ 1 <= month d <= 12 /\ 1 <= day d <= days_in_month (year d) (month d).
Proof.
  unfold date_ok, valid_date. rewrite !andb_true_iff, !Z.leb_le. lia.
Qed.

(** A date comes before the first day of the next year. *)
Lemma toordinal_within_year (d : datetime) :
  date_ok d ->
  days_before_year (year d) < toordinal d <= days_before_year (year d + 1).
Proof.
  intros Hd. apply date_ok_bounds in Hd as (Hy & Hm & Hday).
  unfold toordinal. rewrite days_before_year_next.
  pose proof (days_before_month_aux_year (year d)) as Hyear.
  pose proof (days_before_month_end (year d) (month d) (proj1 Hm)) as Hend.
  pose proof (days_before_month_aux_mono (year d) (Z.to_nat (month d)) 12) as Hmono.
  pose proof (days_before_month_aux_mono (year d) 0 (Z.to_nat (month d - 1))) as H0.
  unfold days_before_month in *. cbn [days_before_month_aux] in H0. lia.
Qed.

Lemma toordinal_lt (a b : datetime) :
  date_ok a -> date_ok b -> dt_leb b a = false -> toordinal a < toordinal b.
Proof.
  intros Ha Hb Hlt. apply not_true_iff_false in Hlt. rewrite dt_leb_le in Hlt.
  unfold dt_le in Hlt.
  pose proof (toordinal_within_year a Ha) as Hwa.
  pose proof (toordinal_within_year b Hb) as Hwb.
  apply date_ok_bounds in Ha as (Hya & Hma & Hda).
  apply date_ok_bounds in Hb as (Hyb & Hmb & Hdb).
  destruct (Z.lt_trichotomy (year a) (year b)) as [Hy | [Hy | Hy]]; [| | lia].
  - pose proof (days_before_year_mono (year a + 1) (year b)). lia.
  - unfold toordinal. rewrite Hy in *.
    destruct (Z.lt_trichotomy (month a) (month b)) as [Hm | [Hm | Hm]]; [| | lia].
    + pose proof (days_before_month_end (year b) (month a) (proj1 Hma)) as Hend.
      pose proof (days_before_month_aux_mono (year b) (Z.to_nat (month a))
                    (Z.to_nat (month b - 1))) as Hmono.
      unfold days_before_month in *. lia.
    + rewrite Hm in *. lia.
Qed.

Lemma toordinal_mono (a b : datetime) :
  date_ok a -> date_ok b -> dt_leb a b = true -> toordinal a <= toordinal b.
Proof.
  intros Ha Hb Hle. destruct (dt_leb b a) eqn:E.
  - apply dt_leb_le in Hle, E. unfold dt_le in *.
    assert (a = b); [| subst; lia].
    destruct a, b; simpl in *. f_equal; lia.
  - pose proof (toordinal_lt a b Ha Hb E). lia.
Qed.

(** The number of the day [toordinal] follows the calendar: on days
    of the calendar it is smaller exactly for the earlier date, so that the
    difference of two of them is the number of days between the dates. *)
Theorem toordinal_order (a b : datetime) :
  date_ok a -> date_ok b ->
  (toordinal a <= toordinal b <-> dt_leb a b = true)
  /\ (toordinal a = toordinal b <-> a = b).
Proof.
  intros Ha Hb.
  assert (Hle : toordinal a <= toordinal b <-> dt_leb a b = true).
  { split.
    - intros H. destruct (dt_leb a b) eqn:E; [reflexivity |].
      pose proof (toordinal_lt b a Hb Ha E). lia.
    - intros H. destruct (dt_leb b a) eqn:E.
      + apply dt_leb_le in H, E. unfold dt_le in *.
        assert (a = b); [| subst; lia].
        destruct a, b; simpl in *. f_equal; lia.
      + pose proof (toordinal_lt a b Ha Hb E). lia. }
  split; [exact Hle |]. split; [| now intros ->].
  intros Heq. destruct (dt_leb a b) eqn:E1, (dt_leb b a) eqn:E2.
  - apply dt_leb_le in E1, E2. unfold dt_le in *.
    destruct a, b; simpl in *. f_equal; lia.
  - pose proof (toordinal_lt a b Ha Hb E2). lia.
  - pose proof (toordinal_lt b a Hb Ha E1). lia.
  - apply dt_leb_total in E1. congruence.
Qed.

Lemma toordinal_order_witness :
  (toordinal {| year := 2011; month := 12; day := 31 |}
   <= toordinal {| year := 2012; month := 3; day := 1 |}
   <-> dt_leb {| year := 2011; month := 12; day := 31 |}
              {| year := 2012; month := 3; day := 1 |} = true)
  /\ (toordinal {| year := 2011; month := 12; day := 31 |}
      = toordinal {| year := 2012; month := 3; day := 1 |}
      <-> {| year := 2011; month := 12; day := 31 |}
          = {| year := 2012; month := 3; day := 1 |}).
Proof.
  exact (toordinal_order {| year := 2011; month := 12; day := 31 |}
           {| year := 2012; month := 3; day := 1 |} eq_refl eq_refl).
Defined.

(** *** The filter *)

Lemma startswith_prefix (p s : string) :
  startswith p s = true <-> exists rest, s = p +:+ rest.
Proof.
  revert s. induction p as [|a p IH]; intros s; simpl.
  - split; [intros _; now exists s | reflexivity].
  - destruct s as [|b s].
    + split; [discriminate | intros [rest H]; discriminate].
    + rewrite andb_true_iff, Ascii.eqb_eq, IH. split.
      * intros [-> [rest ->]]. now exists rest.
      * intros [rest H]. inversion H. split; [reflexivity | now exists rest].
Qed.

(** The tests of the type and of the revision raise on no record. *)
Lemma passesFilters_no_max_days (O : options) (today : datetime) (e : elt) :
  maxDays O = None -> exists b, passesFilters O today e = Ok b.
Proof.
  intros Hmax. unfold passesFilters. rewrite Hmax.
  assert (Hdev : exists b,
             (if noDev O
              then eltTagEquals (find e "argument-collection") "phone-home-type"
                                (PyStr "DEV") None
              else Ok false) = Ok b).
  { destruct (noDev O); [| now eexists].
    destruct (find e "argument-collection") as [a|]; [| now eexists].
    rewrite FilterProps.eltTagEquals_no_prefix. now eexists. }
  destruct Hdev as [dev ->]. cbn [bind]. destruct dev; [now eexists |].
  destruct (rev O) as [r|]; [| now eexists].
  unfold eltTagEquals. destruct (find e "svn-version") as [v|]; [| now eexists].
  destruct (decide (text v = PyNone)) as [_|Hv]; [now eexists |].
  destruct (text v) as [|t]; [congruence |]. cbn [bind].
  destruct (negb (startswith r t)); now eexists.
Qed.

(** X12: without the option [--max_days], [passesFilters] raises on no
    record: not on a record without the children it looks for, and not on
    a version element without text. *)
Theorem passesFilters_returns (O : options) (today : datetime) (e : elt) :
  maxDays O = None -> exists b, passesFilters O today e = Ok b.
Proof. apply passesFilters_no_max_days. Qed.

Lemma passesFilters_returns_witness :
  exists b, passesFilters FilterProps.no_dev DurationProps.aug31
              (FilterProps.report_with_phone_home None) = Ok b.
Proof.
  exact (passesFilters_returns FilterProps.no_dev DurationProps.aug31
           (FilterProps.report_with_phone_home None) eq_refl).
Defined.

(** X13: with the option [--rev] alone, a record passes when it has a
    version element whose text begins with the revision, or whose text is
    missing; a record without a version element is rejected. *)
Theorem passesFilters_rev (O : options) (today : datetime) (e : elt) (r : string) :
  noDev O = false -> rev O = Some r -> maxDays O = None ->
  passesFilters O today e
  = Ok (match find e "svn-version" with
        | None => false
        | Some v =>
            match text v with
            | PyNone => true
            | PyStr t => startswith r t
            end
        end)
  /\ (passesFilters O today e = Ok true
      <-> exists v, find e "svn-version" = Some v
                    /\ (text v = PyNone \/ exists rest, text v = PyStr (r +:+ rest))).
Proof.
  intros Hdev Hrev Hmax.
  assert (Heq : passesFilters O today e
                = Ok (match find e "svn-version" with
                      | None => false
                      | Some v =>
                          match text v with
                          | PyNone => true
                          | PyStr t => startswith r t
                          end
                      end)).
  { unfold passesFilters. rewrite Hdev, Hrev, Hmax. cbn [bind].
    unfold eltTagEquals. destruct (find e "svn-version") as [v|]; [| reflexivity].
    destruct (decide (text v = PyNone)) as [Hv|Hv]; [now rewrite Hv |].
    destruct (text v) as [|t]; [congruence |]. cbn [bind].
    now destruct (startswith r t). }
  split; [exact Heq |]. rewrite Heq.
  destruct (find e "svn-version") as [v|].
  - destruct (text v) as [|t] eqn:Et.
    + split; [intros _; exists v; now split; [| left] | reflexivity].
    + split.
      * intros H. injection H as H. apply startswith_prefix in H as [rest ->].
        exists v. split; [reflexivity |]. right. now exists rest.
      * intros (v' & Hv' & [Hn | [rest Hr]]); injection Hv' as <-; [congruence |].
        f_equal. apply startswith_prefix. exists rest. congruence.
  - split; [discriminate | intros (v & Hv & _); discriminate].
Qed.

Definition only_rev (r : string) : options :=
  {| verbose := false; ID := None; maxRecords := None; noDev := false;
     rev := Some r; exception_selection := "all"; dryRun := false;
     versions := ∅; maxDays := None; updateFreq := -1 |}.

Lemma passesFilters_rev_witness :
  passesFilters (only_rev "1.4") DurationProps.aug31
    (Element "GATK-run-report" None [Element "svn-version" (Some "1.4-28-g26ab3e8") []])
  = Ok true
  /\ passesFilters (only_rev "1.4") DurationProps.aug31
       (Element "GATK-run-report" None [Element "svn-version" None []])
     = Ok true.
Proof.
  split.
  - exact (proj1 (passesFilters_rev (only_rev "1.4") DurationProps.aug31
                    (Element "GATK-run-report" None
                       [Element "svn-version" (Some "1.4-28-g26ab3e8") []])
                    "1.4" eq_refl eq_refl eq_refl)).
  - exact (proj1 (passesFilters_rev (only_rev "1.4") DurationProps.aug31
                    (Element "GATK-run-report" None [Element "svn-version" None []])
                    "1.4" eq_refl eq_refl eq_refl)).
Defined.

(** A report whose end time is the text [t]. *)
Definition ended (t : option string) : elt :=
  Element "GATK-run-report" None
    [Element "id" (Some "D7uhPv") []; Element "end-time" t []].

Definition only_max_days (m : Z) : options :=
  {| verbose := false; ID := None; maxRecords := None; noDev := false;
     rev := None; exception_selection := "all"; dryRun := false;
     versions := ∅; maxDays := Some m; updateFreq := -1 |}.

Lemma passesFilters_max_days (O : options) (today : datetime) (e endTime : elt)
    (m : Z) (d : datetime) :
  noDev O = false -> rev O = None -> maxDays O = Some m ->
  find e "end-time" = Some endTime -> decodeTime (text endTime) = Ok (DT d) ->
  passesFilters O today e = Ok (negb (m <? toordinal today - toordinal d)).
Proof.
  intros Hdev Hrev Hmax Hfind Hd. unfold passesFilters.
  rewrite Hdev, Hrev, Hmax. cbn [bind negb]. now rewrite Hfind, Hd.
Qed.

(** X14: with the option [--max_days] alone, the filter follows the
    calendar: when a record passes, a record that ended on a later day
    passes as well, and with a threshold that is not negative a record that
    ended today or later passes.  A record without an end time makes the
    filter raise an AttributeError, and the end time "ND" a TypeError. *)
Theorem passesFilters_max_days_order (O : options) (today : datetime) (m : Z) :
  noDev O = false -> rev O = None -> maxDays O = Some m -> date_ok today ->
  (forall e1 e2 t1 t2 d1 d2,
      find e1 "end-time" = Some t1 -> decodeTime (text t1) = Ok (DT d1) ->
      find e2 "end-time" = Some t2 -> decodeTime (text t2) = Ok (DT d2) ->
      dt_leb d1 d2 = true ->
      passesFilters O today e1 = Ok true -> passesFilters O today e2 = Ok true)
  /\ (forall e t d,
        find e "end-time" = Some t -> decodeTime (text t) = Ok (DT d) ->
        0 <= m -> dt_leb today d = true -> passesFilters O today e = Ok true)
  /\ (forall e, find e "end-time" = None ->
                passesFilters O today e = Raise AttributeError)
  /\ (forall e t, find e "end-time" = Some t -> text t = PyStr "ND" ->
                  passesFilters O today e = Raise TypeError).
Proof.
  intros Hdev Hrev Hmax Htoday. split; [| split; [| split]].
  - intros e1 e2 t1 t2 d1 d2 Hf1 Hd1 Hf2 Hd2 Hle.
    rewrite (passesFilters_max_days O today e1 t1 m d1) by assumption.
    rewrite (passesFilters_max_days O today e2 t2 m d2) by assumption.
    pose proof (DigestProps.decodeTime_ok _ _ Hd1) as Hok1.
    pose proof (DigestProps.decodeTime_ok _ _ Hd2) as Hok2.
    pose proof (toordinal_mono d1 d2 Hok1 Hok2 Hle) as Hord.
    intros Hp. injection Hp as Hp. apply negb_true_iff, Z.ltb_ge in Hp.
    f_equal. apply negb_true_iff, Z.ltb_ge. lia.
  - intros e t d Hf Hd Hm Hle.
    rewrite (passesFilters_max_days O today e t m d) by assumption.
    pose proof (DigestProps.decodeTime_ok _ _ Hd) as Hok.
    pose proof (toordinal_mono today d Htoday Hok Hle) as Hord.
    f_equal. apply negb_true_iff, Z.ltb_ge. lia.
  - intros e Hf. unfold passesFilters. rewrite Hdev, Hrev, Hmax. cbn [bind negb].
    now rewrite Hf.
  - intros e t Hf Ht. unfold passesFilters. rewrite Hdev, Hrev, Hmax. cbn [bind negb].
    now rewrite Hf, Ht.
Qed.

Lemma passesFilters_max_days_order_witness :
  passesFilters (only_max_days 7) {| year := 2010; month := 9; day := 2 |}
    (ended (Some "2010/09/05 10.00.00")) = Ok true
  /\ passesFilters (only_max_days 7) {| year := 2010; month := 9; day := 2 |}
       (ended None) = Raise AttributeError.
Proof.
  destruct (passesFilters_max_days_order (only_max_days 7)
              {| year := 2010; month := 9; day := 2 |} 7
              eq_refl eq_refl eq_refl eq_refl) as (_ & Hlater & _ & _).
  split.
  - apply (Hlater _ (Element "end-time" (Some "2010/09/05 10.00.00") [])
             {| year := 2010; month := 9; day := 5 |});
      [reflexivity | vm_compute; reflexivity | lia | reflexivity].
  - vm_compute. reflexivity.
Defined.

(** Whether the filter accepts an element. *)
Definition passes (O : options) (today : datetime) (e : elt) : bool :=
  match passesFilters O today e with
  | Ok true => true
  | _ => false
  end.

Lemma read_file_sound (O : options) (today : datetime) (elems : list elt) (r : elt) :
  r ∈ read_file O today elems ->
  r ∈ elems /\ has_tag RUN_REPORT r = true /\ passesFilters O today r = Ok true.
Proof.
  induction elems as [|elem rest IH]; simpl; [intros H; inversion H |].
  destruct (has_tag RUN_REPORT elem) eqn:Etag.
  - destruct (passesFilters O today elem) as [[|]|] eqn:Ep.
    + intros [-> | Hin]%elem_of_cons; [now repeat split; try left |].
      destruct (IH Hin) as (H1 & H2 & H3). repeat split; [now right | assumption..].
    + intros Hin. destruct (IH Hin) as (H1 & H2 & H3).
      repeat split; [now right | assumption..].
    + intros Hin. inversion Hin.
  - intros Hin. destruct (IH Hin) as (H1 & H2 & H3).
    repeat split; [now right | assumption..].
Qed.

(** X15: [readReports] yields only elements with the tag of a run report
    that the filter accepts, each from one of the files; without the
    option [--max_days] it yields all of them, in the order of the
    files. *)
Theorem readReports_filtered (O : options) (today : datetime) (files : list (list elt)) :
  (forall r, r ∈ readReports O today files ->
             has_tag RUN_REPORT r = true /\ passesFilters O today r = Ok true
             /\ exists file, file ∈ files /\ r ∈ file)
  /\ (maxDays O = None ->
      readReports O today files
      = List.filter (fun e => has_tag RUN_REPORT e && passes O today e) (concat files)).
Proof.
  split.
  - intros r Hr. unfold readReports in Hr.
    apply list_elem_of_In, in_concat in Hr as (l & Hl & Hr).
    apply in_map_iff in Hl as (file & <- & Hfile).
    apply list_elem_of_In in Hr, Hfile.
    apply read_file_sound in Hr as (H1 & H2 & H3).
    repeat split; [assumption.. |]. now exists file.
  - intros Hmax. unfold readReports.
    induction files as [|file files IH]; [reflexivity |].
    cbn [map concat]. rewrite List.filter_app, IH. f_equal.
    induction file as [|elem rest IHf]; [reflexivity |].
    cbn [read_file List.filter]. unfold passes at 1.
    destruct (passesFilters_no_max_days O today elem Hmax) as [b ->].
    destruct (has_tag RUN_REPORT elem); cbn [andb]; [| exact IHf].
    destruct b; [now rewrite IHf | exact IHf].
Qed.

Lemma readReports_filtered_witness :
  readReports FilterProps.no_dev DurationProps.aug31
    [[FilterProps.report_with_phone_home (Some "DEV"); report_with_id "a"];
     [Element "GATK-run-reports" None []; report_with_id "b"]]
  = [report_with_id "a"; report_with_id "b"].
Proof.
  destruct (readReports_filtered FilterProps.no_dev DurationProps.aug31
              [[FilterProps.report_with_phone_home (Some "DEV"); report_with_id "a"];
               [Element "GATK-run-reports" None []; report_with_id "b"]])
    as [_ H].
  rewrite (H eq_refl). vm_compute. reflexivity.
Defined.

(** *** The end time *)

Lemma split_ws_aux_token (cur tok rest : string) (c : ascii) :
  all (fun a => negb (is_space a)) tok = true -> is_space c = true ->
  nonempty (cur +:+ tok) = true ->
  split_ws_aux cur (tok +:+ String c rest) = (cur +:+ tok) :: split_ws_aux "" rest.
Proof.
  revert cur. induction tok as [|a tok IH]; intros cur Htok Hc Hne.
  - simpl. rewrite Hc. rewrite append_empty in *. now rewrite Hne.
  - simpl in Htok. apply andb_true_iff in Htok as [Ha Htok].
    apply negb_true_iff in Ha. simpl. rewrite Ha.
    rewrite IH; [| assumption | assumption |].
    + f_equal. now rewrite append_assoc.
    + rewrite append_assoc. exact Hne.
Qed.

(** X16: [decodeTime] reads the date and nothing else: what follows the
    first white space of the end time, the time of the day, plays no
    part. *)
Theorem decodeTime_date_only (date rest : string) (c : ascii) :
  nonempty date = true -> all (fun a => negb (is_space a)) date = true ->
  is_space c = true ->
  decodeTime (PyStr (date +:+ String c rest)) = bind (strptime date) (fun d => Ok (DT d)).
Proof.
  intros Hne Hdate Hc. unfold decodeTime.
  assert (Hnd : String.eqb (date +:+ String c rest) "ND" = false).
  { apply String.eqb_neq. intros H.
    destruct date as [|a [|b [|x date]]]; simpl in H; try discriminate;
      inversion H; subst; discriminate. }
  rewrite Hnd. unfold split_ws.
  rewrite split_ws_aux_token by assumption. reflexivity.
Qed.

Lemma decodeTime_date_only_witness :
  decodeTime (PyStr "2010/08/31 15.38.00") = Ok (DT DurationProps.aug31).
Proof.
  exact (decodeTime_date_only "2010/08/31" "15.38.00" " " eq_refl eq_refl eq_refl).
Defined.

End FilterMore.

(** ** More on the driver loop and the handlers *)

Module StageMore.
Import Str DecoderProps StageProps StrFacts DecoderMore.

(** The cutoff is off: no maximum, or one that is not positive. *)
Definition no_cutoff (O : options) : Prop :=
  match maxRecords O with
  | None => True
  | Some m => m <= 0
  end.

Lemma no_cutoff_never (O : options) (c : Z) : no_cutoff O -> cutoff O c = false.
Proof.
  unfold no_cutoff, cutoff. destruct (maxRecords O) as [m|]; [| reflexivity].
  intros H. replace (0 <? m) with false; [reflexivity |].
  symmetry. apply Z.ltb_ge. exact H.
Qed.

(** The loop depends on the handler through its results only. *)
Lemma main_loop_ext (O : options) {H : Type} (p1 p2 : H -> elt -> result H)
    (reports : list elt) (st : loop H) :
  (forall h r, p1 h r = p2 h r) ->
  main_loop O p1 reports st = main_loop O p2 reports st.
Proof.
  intros Hp. revert st. induction reports as [|report rest IH]; intros st; [reflexivity |].
  cbn [main_loop]. destruct (find report "id") as [idElt|]; [| reflexivity].
  destruct (selected O (text idElt)); [| apply IH].
  rewrite Hp. destruct (p2 (the_handler st) report); cbn [bind]; [| reflexivity].
  destruct (cutoff O (counter st + 1)); [reflexivity | apply IH].
Qed.



(** X17: with no maximum, or with a maximum that is not positive, the
    loop of [main] gives a handler that does not raise every wanted report
    of the stream, in order, and the counter is their number. *)
Theorem main_loop_all (O : options) {H : Type} (f : H -> elt -> H)
    (reports : list elt) (h0 : H) :
  no_cutoff O -> Forall has_id reports ->
  exists st,
    main_loop O (fun h r => Ok (f h r)) reports (start h0) = Ok st
    /\ counter st = Z.of_nat (length (List.filter (wanted O) reports))
    /\ the_handler st = fold_left f (List.filter (wanted O) reports) h0.
Proof.
  intros Hno Hid.
  assert (Hgen : forall st,
             exists st',
               main_loop O (fun h r => Ok (f h r)) reports st = Ok st'
               /\ counter st' = counter st
                                + Z.of_nat (length (List.filter (wanted O) reports))
               /\ the_handler st'
                  = fold_left f (List.filter (wanted O) reports) (the_handler st)).
  { induction reports as [|report rest IH]; intros st.
    - exists st. cbn. repeat split. lia.
    - inversion Hid as [|? ? [idElt Hfind] Hrest]; subst.
      assert (Hw : wanted O report = selected O (text idElt))
        by (unfold wanted; now rewrite Hfind).
      cbn [main_loop List.filter]. rewrite Hfind, Hw.
      destruct (selected O (text idElt)); [| now apply IH].
      cbn [bind]. rewrite no_cutoff_never by assumption.
      destruct (IH Hrest {| the_handler := f (the_handler st) report;
                            counter := counter st + 1;
                            progress := if (0 <? updateFreq O)
                                           && ((counter st + 1) mod updateFreq O =? 0)
                                        then progress st ++ [counter st + 1]
                                        else progress st |})
        as (st' & Hrun & Hc & Hh).
      exists st'. split; [exact Hrun |]. cbn in Hc, Hh. cbn [length fold_left].
      split; [lia | exact Hh]. }
  destruct (Hgen (start h0)) as (st & H1 & H2 & H3).
  exists st. split; [exact H1 |]. split; [cbn in H2; lia | exact H3].
Qed.

Definition max_zero : options :=
  {| verbose := false; ID := Some "b"; maxRecords := Some 0; noDev := false;
     rev := None; exception_selection := "all"; dryRun := false;
     versions := ∅; maxDays := None; updateFreq := -1 |}.

Lemma main_loop_all_witness :
  exists st,
    main_loop max_zero (fun h r => Ok (h ++ [r]))
      (map report_with_id ["a"; "b"; "c"; "b"]) (start []) = Ok st
    /\ counter st = 2
    /\ the_handler st = map report_with_id ["b"; "b"].
Proof.
  assert (Hno : no_cutoff max_zero) by (cbn; lia).
  assert (Hid : Forall has_id (map report_with_id ["a"; "b"; "c"; "b"]))
    by (repeat constructor; eexists; reflexivity).
  exact (main_loop_all max_zero (fun h r => h ++ [r])
           (map report_with_id ["a"; "b"; "c"; "b"]) [] Hno Hid).
Defined.









Lemma dquote_not_quote : dquote_char <> "'"%char.
Proof. discriminate. Qed.

(** X21: no value of the sinks can close its own quotes: a value of an
    INSERT statement is enclosed in double quotes and holds no double quote
    inside; a value of a table line holds none when it has no space, and
    with a space it is enclosed in double quotes and holds none inside. *)
Theorem sink_values_quoted (parsed : gmap string pyval) (field v : string) :
  (oneField_sql parsed field = PyStr v ->
   parsed !! field = None
   \/ exists body, v = dquote +:+ body +:+ dquote /\ free_of dquote_char body)
  /\ (oneField_table parsed field = PyStr v ->
      parsed !! field = None
      \/ (free_of " " v /\ free_of dquote_char v)
      \/ exists body, v = dquote +:+ body +:+ dquote
                      /\ free_of dquote_char body /\ ~ free_of " " body).
Proof.
  split.
  - unfold oneField_sql. destruct (parsed !! field) as [[|val]|]; [discriminate | | now left].
    intros H. injection H as <-. right. eexists. split; [reflexivity |].
    apply replace_char_free, dquote_not_quote.
  - unfold oneField_table. destruct (parsed !! field) as [[|val]|]; [discriminate | | now left].
    destruct (contains_char " " (replace_char dquote_char "'" val)) eqn:Esp;
      intros H; injection H as <-; right.
    + right. eexists. split; [reflexivity |].
      split; [apply replace_char_free, dquote_not_quote |].
      unfold free_of. congruence.
    + left. split; [exact Esp | apply replace_char_free, dquote_not_quote].
Qed.

Lemma sink_values_quoted_witness :
  exists body,
    String dquote_char ("say 'hi'" +:+ dquote) = dquote +:+ body +:+ dquote
    /\ free_of dquote_char body.
Proof.
  destruct (sink_values_quoted
              {[ "exception-msg" := PyStr ("say " +:+ dquote +:+ "hi" +:+ dquote) ]}
              "exception-msg" (String dquote_char ("say 'hi'" +:+ dquote)))
    as [Hsql _].
  destruct (Hsql eq_refl) as [Hnone | Hbody]; [discriminate Hnone | exact Hbody].
Defined.

(** X22: for a record without an exception child that [decode] accepts,
    the run status is the sentinel "NA" in a table line, and the value
    "success", in quotes, in the INSERT statement. *)
Theorem run_status_without_exception (versions : gmap string pyval) (report : elt)
    (parsed : gmap string pyval) :
  existsb eltIsException (children report) = false ->
  decode (new_decoder versions) report = Ok parsed ->
  oneField_table parsed "run-status" = PyStr "NA"
  /\ oneField_sql parsed "run-status" = PyStr (dquote +:+ "success" +:+ dquote).
Proof.
  intros Hno Hd. destruct (decode_binds_fields _ _ _ Hd) as [_ Hna].
  assert (Hrs : parsed !! "run-status" = Some (PyStr "NA")).
  { apply Hna.
    - rewrite declared_fields.
      repeat (first [apply list_elem_of_here | apply list_elem_of_further]).
    - apply no_exception_underivable; [assumption |]. unfold exception_fields.
      repeat (first [apply list_elem_of_here | apply list_elem_of_further]). }
  unfold oneField_table, oneField_sql. rewrite Hrs. split; reflexivity.
Qed.

Lemma run_status_without_exception_witness :
  exists parsed,
    decode (new_decoder ∅) sample_report = Ok parsed
    /\ oneField_sql parsed "run-status" = PyStr (dquote +:+ "success" +:+ dquote).
Proof.
  destruct (decode_returns ∅ sample_report) as [parsed Hp]; [vm_compute; reflexivity |].
  exists parsed. split; [exact Hp |].
  exact (proj2 (run_status_without_exception ∅ sample_report parsed eq_refl Hp)).
Defined.

Lemma strings_of_ok (l : list pyval) (r : list string) :
  strings_of l = Ok r -> l = map PyStr r.
Proof.
  revert r. induction l as [|[|s] l IH]; intros r H; simpl in H.
  - now inversion H.
  - discriminate.
  - destruct (strings_of l) as [r'|]; [| discriminate]. cbn [bind] in H.
    inversion H; subst. simpl. f_equal. now apply IH.
Qed.

Definition tab_char : ascii := ascii_of_N 9.

(** X23: a line of the table is the values of the fields joined by tabs,
    one value for each field; when no value holds a tab, splitting the
    line at the tabs gives the values back. *)
Theorem table_line_fields (O : options) (getFields : list string) (record : elt)
    (line : string) :
  getFields <> [] ->
  table_line O getFields record = Ok line ->
  exists parsed vals,
    decode (decoder O) record = Ok parsed
    /\ map (oneField_table parsed) getFields = map PyStr vals
    /\ line = join tab vals
    /\ (Forall (free_of tab_char) vals -> split_on tab_char line = vals).
Proof.
  intros Hne H. unfold table_line in H.
  destruct (decode (decoder O) record) as [parsed|] eqn:Ed; [| discriminate].
  cbn [bind] in H. unfold join_vals in H.
  destruct (strings_of (map (oneField_table parsed) getFields)) as [vals|] eqn:Es;
    [| discriminate].
  cbn [bind] in H. injection H as <-.
  exists parsed, vals. split; [reflexivity |].
  apply strings_of_ok in Es. split; [exact Es |]. split; [reflexivity |].
  intros Hfree. apply split_join; [| assumption].
  intros ->. destruct getFields; [congruence | discriminate].
Qed.

Lemma table_line_fields_witness :
  exists line parsed vals,
    table_line default_options FIELDS_TO_TAKE sample_report = Ok line
    /\ decode (decoder default_options) sample_report = Ok parsed
    /\ map (oneField_table parsed) FIELDS_TO_TAKE = map PyStr vals
    /\ line = join tab vals
    /\ (Forall (free_of tab_char) vals -> split_on tab_char line = vals).
Proof.
  assert (Hl : exists line,
             table_line default_options FIELDS_TO_TAKE sample_report = Ok line)
    by (eexists; vm_compute; reflexivity).
  destruct Hl as (line & Hline).
  assert (Hne : FIELDS_TO_TAKE <> []) by discriminate.
  destruct (table_line_fields default_options FIELDS_TO_TAKE sample_report line Hne Hline)
    as (parsed & vals & H1 & H2 & H3 & H4).
  exists line, parsed, vals. repeat split; assumption.
Defined.

End StageMore.

(** ** More about the digest of the exceptions *)

Module DigestMore.
Import Str DecoderProps DurationProps DigestProps.

(** The sum of the counts of the entries. *)
Definition total (cs : list CommonException) : Z :=
  fold_right Z.add 0 (map counts cs).

(** In ascending order of the key. *)
Definition ascending {A} (key : A -> Z) (l : list A) : Prop :=
  StronglySorted (fun a b => key a <= key b) l.

(** The members with the key [k], in their order. *)
Definition with_key {A} (key : A -> Z) (k : Z) (l : list A) : list A :=
  List.filter (fun y => key y =? k) l.

Lemma total_app (cs1 cs2 : list CommonException) :
  total (cs1 ++ cs2) = total cs1 + total cs2.
Proof.
  unfold total. induction cs1 as [|c cs1 IH]; simpl; [reflexivity |].
  rewrite IH. lia.
Qed.

Lemma addToCommons_total (cs cs' : list CommonException) (ex : gmap string pyval) :
  addToCommons cs ex = Ok cs' -> total cs' = total cs + 1.
Proof.
  intros H. destruct (addToCommons_spec _ _ _ H) as (s & _ & Hcase).
  destruct Hcase as [[_ (c & Hc & ->)] | (l1 & cm & l2 & c & -> & _ & _ & Hc & ->)].
  - destruct (new_spec _ _ Hc) as (_ & Hone & _).
    rewrite total_app. unfold total at 2. simpl. lia.
  - destruct (update_spec _ _ _ Hc) as (_ & Hcount & _).
    rewrite !total_app. unfold total. simpl. lia.
Qed.

Lemma aggregate_total_loop (l : list (gmap string pyval)) (cs cs' : list CommonException) :
  foldM addToCommons l cs = Ok cs' -> total cs' = total cs + Z.of_nat (length l).
Proof.
  revert cs. induction l as [|ex l IH]; intros cs H; simpl in H.
  - inversion H; subst. simpl. lia.
  - destruct (addToCommons cs ex) as [cs1|] eqn:E; [| discriminate].
    cbn [bind] in H. rewrite (IH _ H), (addToCommons_total _ _ _ E).
    simpl length. lia.
Qed.

Lemma insert_by_perm {A} (key : A -> Z) (x : A) (l : list A) :
  insert_by key x l ≡ₚ x :: l.
Proof.
  induction l as [|y l IH]; simpl; [reflexivity |].
  destruct (key x <=? key y); [reflexivity |].
  rewrite IH. apply perm_swap.
Qed.

Lemma sorted_by_perm {A} (key : A -> Z) (l : list A) : sorted_by key l ≡ₚ l.
Proof.
  unfold sorted_by. induction l as [|x l IH]; simpl; [reflexivity |].
  rewrite insert_by_perm. now rewrite IH.
Qed.

Lemma insert_by_ascending {A} (key : A -> Z) (x : A) (l : list A) :
  ascending key l -> ascending key (insert_by key x l).
Proof.
  unfold ascending. induction l as [|y l IH]; intros Hs; simpl.
  - constructor; constructor.
  - apply StronglySorted_inv in Hs as [Hs Hall].
    destruct (key x <=? key y) eqn:E.
    + apply Z.leb_le in E. constructor.
      * constructor; assumption.
      * constructor; [assumption |].
        eapply Forall_impl; [exact Hall |]. simpl. intros; lia.
    + apply Z.leb_gt in E. constructor; [now apply IH |].
      rewrite (insert_by_perm key x l). constructor; [lia | assumption].
Qed.

Lemma sorted_by_ascending {A} (key : A -> Z) (l : list A) :
  ascending key (sorted_by key l).
Proof.
  unfold sorted_by. induction l as [|x l IH]; simpl.
  - constructor.
  - now apply insert_by_ascending.
Qed.

Lemma insert_by_with_key {A} (key : A -> Z) (k : Z) (x : A) (l : list A) :
  with_key key k (insert_by key x l) = with_key key k (x :: l).
Proof.
  unfold with_key. induction l as [|y l IH]; [reflexivity |].
  cbn [insert_by]. destruct (key x <=? key y) eqn:E; [reflexivity |].
  apply Z.leb_gt in E. cbn [List.filter] in *. rewrite IH.
  destruct (key x =? k) eqn:Ex; destruct (key y =? k) eqn:Ey; try reflexivity.
  apply Z.eqb_eq in Ex, Ey. lia.
Qed.

Lemma sorted_by_with_key {A} (key : A -> Z) (k : Z) (l : list A) :
  with_key key k (sorted_by key l) = with_key key k l.
Proof.
  unfold sorted_by. induction l as [|x l IH]; [reflexivity |].
  cbn [fold_right]. rewrite insert_by_with_key.
  unfold with_key in *. cbn [List.filter]. now rewrite IH.
Qed.

(** The sort of the entries by their counts keeps the entries, puts
    them in ascending order of the count, and leaves the entries of the
    same count in the order they had. *)
Theorem sorted_by_stable {A} (key : A -> Z) (l : list A) :
  sorted_by key l ≡ₚ l
  /\ ascending key (sorted_by key l)
  /\ forall k, with_key key k (sorted_by key l) = with_key key k l.
Proof.
  split; [apply sorted_by_perm |]. split; [apply sorted_by_ascending |].
  intros k. apply sorted_by_with_key.
Qed.

(** [takeShorter] on two strings. *)
Definition shorter (x y : string) : string :=
  if Z.of_nat (String.length y) <? Z.of_nat (String.length x) then y else x.

Lemma takeShorter_strings (x y : string) :
  takeShorter (PyStr x) (PyStr y) = Ok (PyStr (shorter x y)).
Proof.
  unfold takeShorter, shorter. cbn [py_len bind].
  now destruct (Z.of_nat (String.length y) <? Z.of_nat (String.length x)).
Qed.

Lemma bestExample_loop (l : list string) (a : string) :
  exists s l1 l2,
    foldM takeShorter (map PyStr l) (PyStr a) = Ok (PyStr s)
    /\ a :: l = l1 ++ s :: l2
    /\ Forall (fun x => (String.length s < String.length x)%nat) l1
    /\ Forall (fun x => (String.length s <= String.length x)%nat) l2.
Proof.
  revert a. induction l as [|y l IH]; intros a.
  - exists a, [], []. repeat split; constructor.
  - cbn [map foldM]. rewrite takeShorter_strings. cbn [bind].
    destruct (IH (shorter a y)) as (s & l1 & l2 & Hs & Hsplit & H1 & H2).
    exists s.
    enough (exists l1' l2',
               a :: y :: l = l1' ++ s :: l2'
               /\ Forall (fun x => (String.length s < String.length x)%nat) l1'
               /\ Forall (fun x => (String.length s <= String.length x)%nat) l2')
      as (l1' & l2' & Hrest)
      by (exists l1', l2'; split; [exact Hs | exact Hrest]).
    clear Hs IH. unfold shorter in Hsplit.
    destruct (Z.of_nat (String.length y) <? Z.of_nat (String.length a)) eqn:E.
    + apply Z.ltb_lt in E.
      destruct l1 as [|z l1]; simpl in Hsplit; injection Hsplit as Hh Ht.
      * subst s l2. exists [a], l. repeat split; [| assumption].
        constructor; [lia | constructor].
      * subst z l. exists (a :: y :: l1), l2. repeat split; [| assumption].
        apply Forall_cons in H1 as [Hz H1].
        constructor; [lia |]. constructor; assumption.
    + apply Z.ltb_ge in E.
      destruct l1 as [|z l1]; simpl in Hsplit; injection Hsplit as Hh Ht.
      * subst s l2. exists [], (y :: l). repeat split; [constructor |].
        constructor; [lia | assumption].
      * subst z l. exists (a :: y :: l1), l2. repeat split; [| assumption].
        apply Forall_cons in H1 as [Hz H1].
        constructor; [assumption |]. constructor; [lia | assumption].
Qed.

(** X24: of a set of messages, [bestExample] returns a shortest one, and
    among the shortest ones the first of the iteration. *)
Theorem bestExample_shortest (l : list string) :
  l <> [] ->
  exists s l1 l2,
    bestExample (map PyStr l) = Ok (PyStr s)
    /\ l = l1 ++ s :: l2
    /\ Forall (fun x => (String.length s < String.length x)%nat) l1
    /\ Forall (fun x => (String.length s <= String.length x)%nat) l2.
Proof.
  destruct l as [|a l]; [congruence |]. intros _.
  cbn [map bestExample]. apply bestExample_loop.
Qed.

Lemma bestExample_shortest_witness :
  exists s l1 l2,
    bestExample (map PyStr ["a long message"; "short"; "brief"; "tiny"; "four"])
    = Ok (PyStr s)
    /\ ["a long message"; "short"; "brief"; "tiny"; "four"] = l1 ++ s :: l2
    /\ Forall (fun x => (String.length s < String.length x)%nat) l1
    /\ Forall (fun x => (String.length s <= String.length x)%nat) l2.
Proof.
  apply (bestExample_shortest ["a long message"; "short"; "brief"; "tiny"; "four"]).
  discriminate.
Defined.

Lemma takeShorter_none (l : list pyval) (acc : pyval) :
  (acc = PyNone /\ l <> []) \/ PyNone ∈ l ->
  foldM takeShorter l acc = Raise TypeError.
Proof.
  revert acc. induction l as [|y l IH]; intros acc H.
  - destruct H as [[_ H] | H]; [congruence | inversion H].
  - cbn [foldM]. destruct y as [|y]; [reflexivity |].
    destruct acc as [|a]; [reflexivity |].
    unfold takeShorter. cbn [py_len bind]. apply IH. right.
    destruct H as [[H _] | H]; [discriminate |].
    apply elem_of_cons in H as [H | H]; [discriminate | assumption].
Qed.

(** X25: with two messages or more, one of them [None], [bestExample]
    raises a TypeError; the only message of a set is returned as it is,
    [None] as well. *)
Theorem bestExample_none (examples : list pyval) :
  (PyNone ∈ examples -> (2 <= length examples)%nat ->
   bestExample examples = Raise TypeError)
  /\ (forall v, examples = [v] -> bestExample examples = Ok v).
Proof.
  split.
  - intros Hin Hlen. destruct examples as [|x l]; [inversion Hin |].
    cbn [bestExample]. apply takeShorter_none.
    apply elem_of_cons in Hin as [<- | Hin]; [left | now right].
    split; [reflexivity |]. destruct l; [simpl in Hlen; lia | discriminate].
  - intros v ->. reflexivity.
Qed.

Lemma bestExample_none_witness :
  bestExample [PyStr "boom"; PyNone] = Raise TypeError
  /\ bestExample [PyNone] = Ok PyNone.
Proof.
  destruct (bestExample_none [PyStr "boom"; PyNone]) as [H _].
  destruct (bestExample_none [PyNone]) as [_ H'].
  split; [apply H; [right; left | simpl; lia] | now apply H'].
Defined.

Definition is_str (v : pyval) : bool :=
  match v with PyStr _ => true | PyNone => false end.

(** The fields whose values [toStrings] joins or measures. *)
Definition shown_keys : list string :=
  ["exception-msg"; "svn-version"; "walker-name"; "id"; "user-name"].

(** The times [strftime] has a text for: "ND", which is not formatted, and
    the dates from the year 1900 on. *)
Definition modern (t : timeval) : bool :=
  match t with
  | ND => true
  | DT d => 1900 <=? year d
  end.

(** The end time of the record is "ND" or a date from 1900 on. *)
Definition ends_modern (ex : gmap string pyval) : bool :=
  match ex !! "end-time" with
  | Some endTime =>
      match decodeTime endTime with
      | Ok t => modern t
      | Raise _ => false
      end
  | None => false
  end.

(** The records the digest can print: an entry can be built from them,
    their end time is "ND" or a date from 1900 on, and the values
    [toStrings] works on are strings. *)
Definition printable (ex : gmap string pyval) : bool :=
  aggregable ex && ends_modern ex
  && forallb (fun k => match ex !! k with Some v => is_str v | None => false end)
       shown_keys.

(** The entries [toStrings] returns on. *)
Definition showable (c : CommonException) : Prop :=
  msgs c <> []
  /\ forallb is_str (msgs c) = true /\ forallb is_str (svns c) = true
  /\ forallb is_str (walkers c) = true /\ forallb is_str (ids c) = true
  /\ forallb is_str (users c) = true
  /\ times_ok c /\ forallb modern (times c) = true.

(** The entries [finalize] prints for a selection. *)
Definition chosen (O : options) (c : CommonException) : bool :=
  matchesExceptionSelection O (userError c).

(** The body of the last loop of [finalize]. *)
Definition print_step (O : options) (printed : list digest) (common : CommonException)
  : result (list digest) :=
  d <- toStrings common ;;
  Ok (if matchesExceptionSelection O (d_userError d) then printed ++ [d] else printed).

Lemma finalize_unfold (O : options) (exs : list (gmap string pyval)) :
  finalize O exs
  = bind (aggregate exs) (fun cs => foldM (print_step O) (sorted_by counts cs) []).
Proof. reflexivity. Qed.

Lemma set_add_str (v : pyval) (l : list pyval) :
  is_str v = true -> forallb is_str l = true -> forallb is_str (set_add v l) = true.
Proof.
  intros Hv Hl. unfold set_add. destruct (decide (v ∈ l)); [assumption |].
  rewrite forallb_app, Hl. simpl. now rewrite Hv.
Qed.

Lemma set_add_not_nil {A} `{EqDecision A} (v : A) (l : list A) :
  l <> [] -> set_add v l <> [].
Proof.
  intros Hl. unfold set_add. destruct (decide (v ∈ l)); [assumption |].
  destruct l; [congruence | discriminate].
Qed.

(** The values of the shown fields of a printable record, after the
    lookups of the hypotheses. *)
Ltac shown_values Hp :=
  let Hm := fresh "Hmodern" in
  unfold printable in Hp; apply andb_true_iff in Hp as [Hm Hp];
  apply andb_true_iff in Hm as [_ Hm]; unfold ends_modern in Hm;
  cbn [shown_keys forallb] in Hp;
  repeat match goal with E : _ !! _ = Some _ |- _ => rewrite E in Hp end;
  repeat match goal with E : _ !! _ = Some _ |- _ => rewrite E in Hm end;
  repeat match goal with E : decodeTime _ = Ok _ |- _ => rewrite E in Hm end;
  repeat (apply andb_true_iff in Hp as [? Hp]).

Lemma set_add_modern (t : timeval) (l : list timeval) :
  modern t = true -> forallb modern l = true -> forallb modern (set_add t l) = true.
Proof.
  intros Ht Hl. unfold set_add. destruct (decide (t ∈ l)); [assumption |].
  rewrite forallb_app, Hl. simpl. now rewrite Ht.
Qed.

Lemma new_showable (ex : gmap string pyval) (c : CommonException) :
  printable ex = true -> new_CommonException ex = Ok c -> showable c.
Proof.
  intros Hp H. pose proof (new_times ex c H) as Htimes.
  unfold new_CommonException in H. repeat step_get H.
  inversion H; subst. shown_values Hp.
  unfold showable. cbn [msgs svns walkers ids users times forallb].
  rewrite !andb_true_r. repeat split; try assumption; try discriminate.
  all: apply Htimes.
Qed.

Lemma update_showable (self c : CommonException) (ex : gmap string pyval) :
  printable ex = true -> showable self -> update self ex = Ok c -> showable c.
Proof.
  intros Hp (Hne & H1 & H2 & H3 & H4 & H5 & H6 & H7) H.
  pose proof (update_times self c ex H H6) as Htimes.
  unfold update in H. repeat step_get H.
  inversion H; subst. shown_values Hp.
  unfold showable. cbn [msgs svns walkers ids users times].
  split; [now apply set_add_not_nil |].
  repeat split; try (apply set_add_str; assumption); try apply Htimes.
  now apply set_add_modern.
Qed.

Lemma valid_dates_modern (ts : list timeval) (d : datetime) :
  forallb modern ts = true -> d ∈ valid_dates ts -> 1900 <= year d.
Proof.
  intros Hts Hd. apply elem_of_valid_dates in Hd.
  rewrite forallb_forall in Hts. apply list_elem_of_In in Hd.
  specialize (Hts _ Hd). simpl in Hts. now apply Z.leb_le.
Qed.

(** [duration] returns when no date is before 1900. *)
Lemma duration_returns (c : CommonException) :
  forallb modern (times c) = true -> exists r, duration c = Ok r.
Proof.
  intros Hm. unfold duration.
  pose proof (fun d => sorted_dates_elem d (valid_dates (times c))) as Hel.
  destruct (sorted_dates (valid_dates (times c))) as [|lo s] eqn:Es;
    [now eexists |].
  destruct (2 <=? Z.of_nat (length (lo :: s))).
  - cbn [nth]. unfold strftime.
    replace (year lo <? 1900) with false.
    + replace (year (List.last (lo :: s) epoch) <? 1900) with false;
        [cbn [bind]; now eexists |].
      symmetry. apply Z.ltb_ge. apply (valid_dates_modern (times c)); [assumption |].
      apply Hel, last_elem.
    + symmetry. apply Z.ltb_ge. apply (valid_dates_modern (times c)); [assumption |].
      apply Hel. now left.
  - destruct (Z.of_nat (length (lo :: s)) =? 1); now eexists.
Qed.

Lemma addToCommons_showable (cs cs' : list CommonException) (ex : gmap string pyval) :
  printable ex = true -> Forall showable cs -> addToCommons cs ex = Ok cs' ->
  Forall showable cs'.
Proof.
  intros Hp Hcs H. destruct (addToCommons_spec _ _ _ H) as (s & _ & Hcase).
  destruct Hcase as [[_ (c & Hc & ->)] | (l1 & cm & l2 & c & -> & _ & _ & Hc & ->)].
  - apply Forall_app. split; [assumption |].
    constructor; [| constructor]. now apply (new_showable ex).
  - apply Forall_app in Hcs as [Hl1 Hl2]. apply Forall_cons in Hl2 as [Hcm Hl2].
    apply Forall_app. split; [assumption |].
    constructor; [| assumption]. now apply (update_showable cm c ex).
Qed.

Lemma aggregate_showable (exs : list (gmap string pyval)) (cs : list CommonException) :
  forallb printable exs = true -> aggregate exs = Ok cs -> Forall showable cs.
Proof.
  unfold aggregate. intros Hp H.
  apply (foldM_invariant (Forall showable) _ _ _ _) in H; [assumption | | constructor].
  intros x ex y Hin Hx Hy. apply (addToCommons_showable x y ex); try assumption.
  rewrite forallb_forall in Hp. apply Hp. now apply list_elem_of_In.
Qed.

Lemma is_str_strings (l : list pyval) :
  forallb is_str l = true -> exists r, l = map PyStr r /\ strings_of l = Ok r.
Proof.
  induction l as [|[|x] l IH]; simpl; intros H.
  - now exists [].
  - discriminate.
  - destruct (IH H) as (r & -> & Hr). exists (x :: r).
    split; [reflexivity |]. now rewrite Hr.
Qed.

Lemma firstn_str (n : nat) (l : list pyval) :
  forallb is_str l = true -> forallb is_str (firstn n l) = true.
Proof.
  revert n. induction l as [|x l IH]; intros [|n] H; simpl in *; try reflexivity.
  apply andb_true_iff in H as [-> H]. simpl. now apply IH.
Qed.

Lemma setString_returns (l : list pyval) :
  forallb is_str l = true -> exists r, setString l = Ok r.
Proof.
  intros H. unfold setString, join_vals.
  destruct (MAX_SET_ITEMS_TO_SHOW <? Z.of_nat (length l)).
  - destruct (is_str_strings (firstn (Z.to_nat MAX_SET_ITEMS_TO_SHOW) l ++ [PyStr "..."]))
      as (r & _ & Hr).
    { rewrite forallb_app, firstn_str by assumption. reflexivity. }
    rewrite Hr. cbn [bind]. now eexists.
  - destruct (is_str_strings l H) as (r & _ & Hr).
    rewrite Hr. cbn [bind]. now eexists.
Qed.

Lemma toStrings_returns (c : CommonException) :
  showable c -> exists d, toStrings c = Ok d.
Proof.
  intros (Hne & H1 & H2 & H3 & H4 & H5 & _ & H7). unfold toStrings.
  destruct (is_str_strings _ H1) as (r & Hr & _). rewrite Hr.
  destruct r as [|a r]; [rewrite Hr in Hne; now contradiction Hne |].
  cbn [map bestExample].
  destruct (bestExample_loop r a) as (m & _ & _ & -> & _). cbn [bind].
  destruct (setString_returns _ H2) as [? ->]. cbn [bind].
  destruct (setString_returns _ H3) as [? ->]. cbn [bind].
  destruct (setString_returns _ H4) as [? ->]. cbn [bind].
  destruct (duration_returns _ H7) as [? ->]. cbn [bind].
  destruct (setString_returns _ H5) as [? ->]. cbn [bind].
  now eexists.
Qed.

Lemma toStrings_fields (c : CommonException) (d : digest) :
  toStrings c = Ok d ->
  d_at d = at_ c /\ d_counts d = counts c /\ d_userError d = userError c.
Proof.
  unfold toStrings. intros H.
  destruct (bestExample (msgs c)); [| discriminate]. cbn [bind] in H.
  destruct (setString (svns c)); [| discriminate]. cbn [bind] in H.
  destruct (setString (walkers c)); [| discriminate]. cbn [bind] in H.
  destruct (setString (ids c)); [| discriminate]. cbn [bind] in H.
  destruct (duration c); [| discriminate]. cbn [bind] in H.
  destruct (setString (users c)); [| discriminate]. cbn [bind] in H.
  inversion H; subst. now simpl.
Qed.

(** What the last loop of [finalize] adds to the entries printed: the
    digests of the chosen entries, in their order. *)
Lemma print_loop (O : options) (l : list CommonException) (printed res : list digest) :
  foldM (print_step O) l printed = Ok res ->
  exists ds, res = printed ++ ds
    /\ Forall2 (fun c d => toStrings c = Ok d) (List.filter (chosen O) l) ds.
Proof.
  revert printed. induction l as [|c l IH]; intros printed H; simpl in H.
  - inversion H; subst. exists []. split; [now rewrite app_nil_r | constructor].
  - unfold print_step at 1 in H.
    destruct (toStrings c) as [d|] eqn:Ed; [| discriminate]. cbn [bind] in H.
    destruct (toStrings_fields _ _ Ed) as (_ & _ & Hu).
    cbn [List.filter]. unfold chosen at 1. rewrite <- Hu.
    destruct (matchesExceptionSelection O (d_userError d)).
    + destruct (IH _ H) as (ds & -> & Hds). exists (d :: ds).
      split; [now rewrite <- app_assoc | now constructor].
    + apply (IH _ H).
Qed.

Lemma printed_fields (l : list CommonException) (ds : list digest) :
  Forall2 (fun c d => toStrings c = Ok d) l ds ->
  d_counts <$> ds = counts <$> l /\ d_at <$> ds = at_ <$> l
  /\ forall d, d ∈ ds -> exists c, c ∈ l /\ toStrings c = Ok d.
Proof.
  induction 1 as [|c d l ds Hcd _ (IH1 & IH2 & IH3)].
  - repeat split. intros d Hd. inversion Hd.
  - destruct (toStrings_fields _ _ Hcd) as (Hat & Hcount & _).
    rewrite !fmap_cons, IH1, IH2, Hat, Hcount. repeat split.
    intros d' [-> | Hd]%elem_of_cons.
    + exists c. split; [now left | assumption].
    + destruct (IH3 d' Hd) as (c' & Hc' & Hd'). exists c'. split; [now right | assumption].
Qed.

Lemma filter_ascending {A} (key : A -> Z) (q : A -> bool) (l : list A) :
  ascending key l -> ascending key (List.filter q l).
Proof.
  unfold ascending. induction 1 as [|x l Hs IH Hall]; simpl; [constructor |].
  destruct (q x); [| assumption]. constructor; [assumption |].
  rewrite Forall_forall in *. intros y Hy. apply Hall.
  apply list_elem_of_In in Hy. apply List.filter_In in Hy as [Hy _].
  now apply list_elem_of_In.
Qed.

Lemma ascending_keys {A} (key : A -> Z) (l : list A) :
  ascending key l -> StronglySorted Z.le (key <$> l).
Proof.
  unfold ascending. induction 1 as [|x l Hs IH Hall]; [constructor |].
  rewrite fmap_cons. constructor; [assumption |]. now apply Forall_fmap.
Qed.

Lemma filter_NoDup_fmap {A B} (f : A -> B) (q : A -> bool) (l : list A) :
  NoDup (f <$> l) -> NoDup (f <$> List.filter q l).
Proof.
  induction l as [|x l IH]; cbn [List.filter]; [trivial |].
  rewrite fmap_cons. intros [Hx Hl]%NoDup_cons.
  destruct (q x); [| now apply IH].
  rewrite fmap_cons. apply NoDup_cons. split; [| now apply IH].
  intros (y & Hy & Hin)%list_elem_of_fmap. apply Hx. apply list_elem_of_fmap.
  exists y. split; [assumption |].
  apply list_elem_of_In in Hin. apply List.filter_In in Hin as [Hin _].
  now apply list_elem_of_In.
Qed.

Lemma insert_by_total (x : CommonException) (l : list CommonException) :
  total (insert_by counts x l) = counts x + total l.
Proof.
  unfold total. induction l as [|y l IH]; simpl; [reflexivity |].
  destruct (counts x <=? counts y); simpl; [reflexivity |]. rewrite IH. lia.
Qed.

Lemma sorted_by_total (l : list CommonException) : total (sorted_by counts l) = total l.
Proof.
  unfold sorted_by. induction l as [|x l IH]; [reflexivity |].
  cbn [fold_right]. rewrite insert_by_total, IH. reflexivity.
Qed.

Lemma filter_all {A} (q : A -> bool) (l : list A) :
  (forall x, q x = true) -> List.filter q l = l.
Proof.
  intros Hq. induction l as [|x l IH]; simpl; [reflexivity |].
  now rewrite Hq, IH.
Qed.

Lemma finalize_returns (O : options) (exs : list (gmap string pyval)) :
  forallb printable exs = true -> exists ds, finalize O exs = Ok ds.
Proof.
  intros Hp. rewrite finalize_unfold.
  destruct (aggregate_returns exs) as [cs Hcs].
  { rewrite forallb_forall in *. intros ex Hex. specialize (Hp ex Hex).
    unfold printable in Hp. apply andb_true_iff in Hp as [Hp _].
    now apply andb_true_iff in Hp as [Hp _]. }
  rewrite Hcs. cbn [bind].
  pose proof (aggregate_showable exs cs Hp Hcs) as Hshow.
  apply foldM_returns. intros printed c Hc.
  rewrite sorted_by_perm in Hc. rewrite Forall_forall in Hshow.
  destruct (toStrings_returns c (Hshow c Hc)) as [d Hd].
  unfold print_step. rewrite Hd. cbn [bind]. now eexists.
Qed.

(** The number of records with the stack trace [s]. *)
Definition occurrences (s : pyval) (exs : list (gmap string pyval)) : Z :=
  Z.of_nat (length (List.filter
                      (fun ex => bool_decide (ex !! "stacktrace" = Some s)) exs)).

(** X26: on printable records, whose end times are "ND" or dates from
    1900 on, the digest returns.  What it prints is in
    ascending order of the occurrences, with one entry for a stack trace;
    each entry passes the selection and its occurrences are the number of
    records with its stack trace, one at least; with the selection all,
    the occurrences of the entries add up to the number of records. *)
Theorem finalize_prints (O : options) (exs : list (gmap string pyval)) :
  (forallb printable exs = true -> exists ds, finalize O exs = Ok ds)
  /\ (forall ds, finalize O exs = Ok ds ->
        StronglySorted Z.le (d_counts <$> ds)
        /\ NoDup (d_at <$> ds)
        /\ (forall d, d ∈ ds ->
              matchesExceptionSelection O (d_userError d) = true
              /\ d_counts d = occurrences (d_at d) exs
              /\ 1 <= d_counts d)
        /\ (exception_selection O = "all" ->
            fold_right Z.add 0 (d_counts <$> ds) = Z.of_nat (length exs))).
Proof.
  split; [apply finalize_returns |].
  intros ds H. rewrite finalize_unfold in H.
  destruct (aggregate exs) as [cs|] eqn:Hcs; [| discriminate]. cbn [bind] in H.
  apply print_loop in H as (ds' & Hds & Hall). simpl in Hds. subst ds'.
  destruct (printed_fields _ _ Hall) as (Hcounts & Hats & Hfrom).
  destruct (aggregate_grouped exs cs Hcs) as [Hnd _ Hcnt].
  split; [| split; [| split]].
  - rewrite Hcounts. apply ascending_keys, filter_ascending, sorted_by_ascending.
  - rewrite Hats. apply filter_NoDup_fmap. now rewrite sorted_by_perm.
  - intros d Hd. destruct (Hfrom d Hd) as (c & Hc & Hcd).
    destruct (toStrings_fields _ _ Hcd) as (Hat & Hcount & Hu).
    apply list_elem_of_In in Hc. apply List.filter_In in Hc as [Hc Hsel].
    apply list_elem_of_In in Hc. rewrite sorted_by_perm in Hc.
    destruct (Hcnt c Hc) as (Hn & Hone & _).
    split; [now rewrite Hu |]. rewrite Hat, Hcount. split; [exact Hn | exact Hone].
  - intros Hsel. rewrite Hcounts, filter_all.
    + change (total (sorted_by counts cs) = Z.of_nat (length exs)).
      rewrite sorted_by_total. unfold aggregate in Hcs.
      rewrite (aggregate_total_loop _ _ _ Hcs). reflexivity.
    + intros c. unfold chosen, matchesExceptionSelection. now rewrite Hsel.
Qed.

(** Two records with the same stack trace, the one of the year 1850. *)
Definition old_records : list (gmap string pyval) :=
  [exception_record "a" "a.b.C(Foo.java:12)" "1850/01/01 12.00.00";
   exception_record "b" "a.b.C(Foo.java:12)" "2010/09/02 09.00.01"].

(** An entry with two dates, the earlier before 1900, ends the digest with
    the ValueError of [strftime]; such records are not printable. *)
Example finalize_before_1900 :
  forallb aggregable old_records = true
  /\ forallb printable old_records = false
  /\ finalize default_options old_records = Raise ValueError.
Proof. repeat split; vm_compute; reflexivity. Qed.

Lemma finalize_prints_witness :
  exists ds,
    finalize default_options sample_records = Ok ds
    /\ StronglySorted Z.le (d_counts <$> ds)
    /\ NoDup (d_at <$> ds)
    /\ fold_right Z.add 0 (d_counts <$> ds) = Z.of_nat (length sample_records).
Proof.
  destruct (finalize_prints default_options sample_records) as (Hret & Hprop).
  assert (Hp : forallb printable sample_records = true) by (vm_compute; reflexivity).
  destruct (Hret Hp) as [ds Hds]. exists ds.
  destruct (Hprop ds Hds) as (H1 & H2 & _ & H4).
  split; [exact Hds |]. split; [exact H1 |]. split; [exact H2 |].
  apply H4. reflexivity.
Defined.

End DigestMore.

(** ** More about the summary of the day *)

Module SummaryMore.
Import Str Summary DigestProps DecoderMore DigestMore.

(** The record has the three fields the summary reads. *)
Definition keyed (rec : gmap string pyval) : Prop :=
  is_Some (rec !! "stacktrace") /\ is_Some (rec !! "is-user-exception")
  /\ is_Some (rec !! "user-name").

Lemma isException_exclusive (rec : gmap string pyval) (a b : bool) :
  isStingException rec = Ok a -> isUserException rec = Ok b -> a && b = false.
Proof.
  unfold isStingException, isUserException, isException, getitem.
  destruct (rec !! "stacktrace") as [at'|]; cbn [bind]; [| discriminate].
  destruct (negb (bool_decide (at' = PyStr "NA"))).
  - destruct (rec !! "is-user-exception") as [u|]; cbn [bind]; [| discriminate].
    intros [= <-] [= <-].
    destruct (bool_decide_reflect (u = PyStr "false")) as [->|]; [| reflexivity].
    reflexivity.
  - intros [= <-] [= <-]. reflexivity.
Qed.

Lemma isException_none (flag : string) (rec : gmap string pyval) :
  rec !! "stacktrace" = Some (PyStr "NA") -> isException flag rec = Ok false.
Proof. intros H. unfold isException, getitem. now rewrite H. Qed.

Lemma isException_returns (flag : string) (rec : gmap string pyval) :
  keyed rec -> exists b, isException flag rec = Ok b.
Proof.
  intros ([at' Hat] & [u Hu] & _). unfold isException, getitem.
  rewrite Hat. cbn [bind]. destruct (negb (bool_decide (at' = PyStr "NA"))).
  - rewrite Hu. cbn [bind]. now eexists.
  - now eexists.
Qed.

Lemma count_if_returns (flag : string) (reports : list (gmap string pyval)) :
  Forall keyed reports -> exists n, count_if (isException flag) reports = Ok n.
Proof.
  induction 1 as [|rec reports Hrec _ [n IH]]; simpl; [now eexists |].
  destruct (isException_returns flag rec Hrec) as [b ->]. cbn [bind].
  rewrite IH. cbn [bind]. now eexists.
Qed.

Lemma count_if_pair (reports : list (gmap string pyval)) (a b : Z) :
  count_if isStingException reports = Ok a ->
  count_if isUserException reports = Ok b ->
  0 <= a /\ 0 <= b /\ a + b <= Z.of_nat (length reports).
Proof.
  revert a b. induction reports as [|rec reports IH]; intros a b Ha Hb; simpl in Ha, Hb.
  - inversion Ha; inversion Hb; subst. simpl. lia.
  - destruct (isStingException rec) as [x|] eqn:Ex; [| discriminate]. cbn [bind] in Ha.
    destruct (isUserException rec) as [y|] eqn:Ey; [| discriminate]. cbn [bind] in Hb.
    destruct (count_if isStingException reports) as [n|]; [| discriminate].
    destruct (count_if isUserException reports) as [m|]; [| discriminate].
    cbn [bind] in Ha, Hb. inversion Ha; inversion Hb; subst. clear Ha Hb.
    destruct (IH n m eq_refl eq_refl) as (Hn & Hm & Hnm).
    pose proof (isException_exclusive rec x y Ex Ey) as Hxy.
    rewrite length_cons, Nat2Z.inj_succ.
    destruct x, y; try discriminate; lia.
Qed.

Lemma count_if_none (flag : string) (reports : list (gmap string pyval)) (n : Z) :
  (forall rec, rec ∈ reports -> rec !! "stacktrace" = Some (PyStr "NA")) ->
  count_if (isException flag) reports = Ok n -> n = 0.
Proof.
  revert n. induction reports as [|rec reports IH]; intros n Hna H; simpl in H.
  - now inversion H.
  - rewrite isException_none in H by (apply Hna; now left). cbn [bind] in H.
    destruct (count_if (isException flag) reports) as [m|] eqn:Em; [| discriminate].
    cbn [bind] in H. inversion H; subst. apply IH; [| reflexivity].
    intros rec' Hin. apply Hna. now right.
Qed.

Lemma user_set_spec (reports : list (gmap string pyval)) (seen : list pyval) :
  Forall keyed reports ->
  exists us, user_set reports seen = Ok us
    /\ forall v, v ∈ us <->
         v ∈ seen \/ exists rec, rec ∈ reports /\ rec !! "user-name" = Some v.
Proof.
  intros Hk. revert seen. induction Hk as [|rec reports Hrec _ IH]; intros seen; simpl.
  - exists seen. split; [reflexivity |]. intros v. split; [now left |].
    intros [H | (rec & Hin & _)]; [assumption | inversion Hin].
  - destruct Hrec as (_ & _ & [u Hu]). unfold userID, getitem. rewrite Hu. cbn [bind].
    destruct (IH (set_add u seen)) as (us & Hus & Hmem). exists us.
    split; [exact Hus |]. intros v. rewrite Hmem, elem_of_set_add. split.
    + intros [[-> | H] | (rec' & Hin & Hv)].
      * right. exists rec. split; [now left | assumption].
      * now left.
      * right. exists rec'. split; [now right | assumption].
    + intros [H | (rec' & [-> | Hin]%elem_of_cons & Hv)].
      * left. now right.
      * left. left. congruence.
      * right. now exists rec'.
Qed.

Lemma all_str (l : list pyval) : PyNone ∉ l -> forallb is_str l = true.
Proof.
  induction l as [|[|x] l IH]; intros H; simpl; [reflexivity | |].
  - exfalso. apply H. now left.
  - apply IH. intros Hin. apply H. now right.
Qed.

(** X27: on records with the stack trace, the flag and the user name, the
    summary of the day raises a TypeError when a user name is none and
    returns when no user name is.  The number of runs is the number of
    records; a run is counted as one exception of the tool at most or as
    one error of the user, never as both, and runs without a stack trace
    are counted as neither. *)
Theorem summary_finalize_counts (reports : list (gmap string pyval)) :
  Forall keyed reports ->
  ((exists rec, rec ∈ reports /\ rec !! "user-name" = Some PyNone) ->
   summary_finalize reports = Raise TypeError)
  /\ ((forall rec, rec ∈ reports -> rec !! "user-name" <> Some PyNone) ->
      exists s, summary_finalize reports = Ok s)
  /\ (forall s, summary_finalize reports = Ok s ->
        n_runs s = Z.of_nat (length reports)
        /\ 0 <= n_sting s /\ 0 <= n_user s
        /\ n_sting s + n_user s <= n_runs s
        /\ ((forall rec, rec ∈ reports -> rec !! "stacktrace" = Some (PyStr "NA")) ->
            n_sting s = 0 /\ n_user s = 0)).
Proof.
  intros Hk. unfold summary_finalize.
  destruct (count_if_returns "false" reports Hk) as [a Ha].
  destruct (count_if_returns "true" reports Hk) as [b Hb].
  change (isException "false") with isStingException in Ha.
  change (isException "true") with isUserException in Hb.
  rewrite Ha, Hb. cbn [bind].
  destruct (user_set_spec reports [] Hk) as (us & -> & Hmem). cbn [bind].
  split; [| split].
  - intros (rec & Hin & Hnone). unfold join_vals.
    assert (Hr : strings_of us = Raise TypeError).
    { apply strings_of_raise. split; [reflexivity |].
      apply Hmem. right. now exists rec. }
    now rewrite Hr.
  - intros Hnames. unfold join_vals.
    destruct (is_str_strings us) as (r & _ & ->).
    { apply all_str. intros Hin. apply Hmem in Hin as [Hin | (rec & Hin & Hv)].
      - inversion Hin.
      - now apply (Hnames rec). }
    cbn [bind]. now eexists.
  - intros s Hs. destruct (join_vals ", " us); [| discriminate]. cbn [bind] in Hs.
    inversion Hs; subst. clear Hs. cbn [n_runs n_sting n_user].
    destruct (count_if_pair reports a b Ha Hb) as (H1 & H2 & H3).
    repeat split; try assumption.
    + now apply (count_if_none "false" reports).
    + now apply (count_if_none "true" reports).
Qed.

Lemma summary_finalize_counts_witness :
  exists s,
    summary_finalize sample_records = Ok s
    /\ n_runs s = 3 /\ n_sting s + n_user s <= n_runs s.
Proof.
  assert (Hk : Forall keyed sample_records).
  { repeat constructor; vm_compute; eauto. }
  destruct (summary_finalize_counts sample_records Hk) as (_ & Hret & Hprop).
  destruct Hret as [s Hs].
  { intros rec Hin.
    repeat (apply elem_of_cons in Hin as [-> | Hin]); [| | | inversion Hin];
      vm_compute; discriminate. }
  exists s. destruct (Hprop s Hs) as (H1 & _ & _ & H4 & _).
  split; [exact Hs |]. split; [exact H1 | exact H4].
Defined.

End SummaryMore.

(** ** More about the version table *)

Module VersionsMore.
Import Str VersionsProps.

(** A blank line, or a line with the word type alone. *)
Definition malformed (line : string) : Prop :=
  split_ws (strip line) = [] \/ split_ws (strip line) = ["type"].

Lemma read_lines_raise (lines : list string) (type : pyval) (d : gmap string (list pyval))
    (e : pyerr) :
  read_lines lines type d = Raise e ->
  e = IndexError /\ exists line, line ∈ lines /\ malformed line.
Proof.
  revert type d. induction lines as [|line rest IH]; intros type d H; simpl in H.
  - discriminate.
  - destruct (split_ws (strip line)) as [|v0 vals] eqn:E.
    + inversion H. split; [reflexivity |]. exists line. split; [now left | now left].
    + destruct (String.eqb_spec v0 "type") as [-> | Hne].
      * destruct vals as [|v1 vals].
        -- inversion H. split; [reflexivity |].
           exists line. split; [now left | now right].
        -- destruct (IH _ _ H) as (He & l' & Hin & Hl').
           split; [assumption |]. exists l'. split; [now right | assumption].
      * destruct (IH _ _ H) as (He & l' & Hin & Hl').
        split; [assumption |]. exists l'. split; [now right | assumption].
Qed.

Lemma read_lines_malformed (lines : list string) (type : pyval)
    (d : gmap string (list pyval)) :
  (exists line, line ∈ lines /\ malformed line) ->
  read_lines lines type d = Raise IndexError.
Proof.
  intros (bad & Hin & Hbad). revert type d.
  induction lines as [|line rest IH]; intros type d; [inversion Hin |].
  cbn [read_lines]. unfold malformed in Hbad.
  destruct (split_ws (strip line)) as [|v0 vals] eqn:E; [reflexivity |].
  destruct (String.eqb_spec v0 "type") as [-> | Hne].
  - destruct vals as [|v1 vals]; [reflexivity |].
    apply elem_of_cons in Hin as [-> | Hin]; [| now apply IH].
    rewrite E in Hbad. destruct Hbad; discriminate.
  - apply elem_of_cons in Hin as [-> | Hin]; [| now apply IH].
    rewrite E in Hbad. destruct Hbad as [Hbad | Hbad]; [discriminate |].
    inversion Hbad. congruence.
Qed.

Lemma read_lines_returns (lines : list string) (type : pyval)
    (d : gmap string (list pyval)) :
  Forall (fun line => ~ malformed line) lines ->
  exists d', read_lines lines type d = Ok d'.
Proof.
  intros H. revert type d. induction H as [|line rest Hline _ IH]; intros type d; simpl.
  - now eexists.
  - unfold malformed in Hline.
    destruct (split_ws (strip line)) as [|v0 vals] eqn:E; [tauto |].
    destruct (String.eqb_spec v0 "type") as [-> | Hne]; [| apply IH].
    destruct vals as [|v1 vals]; [tauto | apply IH].
Qed.

(** The tags in [d] are [type] or the second words of type lines. *)
Definition tags_from (lines : list string) (type : pyval) (d : gmap string (list pyval))
  : Prop :=
  forall v ts t, d !! v = Some ts -> t ∈ ts ->
    t = type \/ exists line s rest',
      line ∈ lines /\ split_ws (strip line) = "type" :: s :: rest' /\ t = PyStr s.

Lemma read_lines_tags (pre lines : list string) (type type0 : pyval)
    (d d' : gmap string (list pyval)) :
  (type = type0 \/ exists line s rest',
      line ∈ pre /\ split_ws (strip line) = "type" :: s :: rest' /\ type = PyStr s) ->
  tags_from pre type0 d ->
  read_lines lines type d = Ok d' -> tags_from (pre ++ lines) type0 d'.
Proof.
  revert pre type d. induction lines as [|line rest IH]; intros pre type d Ht Hd H;
    simpl in H.
  - inversion H; subst. now rewrite app_nil_r.
  - replace (pre ++ line :: rest) with ((pre ++ [line]) ++ rest)
      by now rewrite <- app_assoc.
    assert (Hweak : forall t,
               (t = type0 \/ exists l' s rest',
                   l' ∈ pre /\ split_ws (strip l') = "type" :: s :: rest' /\ t = PyStr s) ->
               t = type0 \/ exists l' s rest',
                   l' ∈ pre ++ [line] /\ split_ws (strip l') = "type" :: s :: rest'
                   /\ t = PyStr s).
    { intros t [-> | (l' & s & r' & Hin & Hs & ->)]; [now left |].
      right. exists l', s, r'. split; [apply elem_of_app; now left | now split]. }
    assert (Hd' : tags_from (pre ++ [line]) type0 d).
    { intros v ts t Hv Hin. apply Hweak. now apply (Hd v ts). }
    destruct (split_ws (strip line)) as [|v0 vals] eqn:E; [discriminate |].
    destruct (String.eqb_spec v0 "type") as [-> | Hne].
    + destruct vals as [|v1 vals]; [discriminate |].
      apply (IH (pre ++ [line]) (PyStr v1) d); [| assumption | assumption].
      right. exists line, v1, vals.
      split; [apply elem_of_app; right; now left | now split].
    + apply (IH (pre ++ [line]) type (record_type (strip line) type d));
        [now apply Hweak | | assumption].
      intros v ts t. unfold record_type. rewrite lookup_insert. case_decide as Heq.
      * intros [= <-] [Hin | Hin]%elem_of_app.
        -- destruct (d !! strip line) as [ts'|] eqn:Ed; simpl in Hin; [| inversion Hin].
           now apply (Hd' (strip line) ts').
        -- apply list_elem_of_singleton in Hin as ->. now apply Hweak.
      * apply Hd'.
Qed.

(** A file with a line that has the word type alone. *)
Definition bare_type_file : list string :=
  ["type unstable"; "1.4-371-g3f76265"; "type"; "1.4-28-g26ab3e8"].

(** X28: the first loop of [read_versions] raises on the files with a
    blank line or a line with the word type alone, and on no other file;
    the exception is an IndexError.  When it returns, a version has one
    tag for each line that lists it, be these lines under the same type
    line or not; a tag is the second word of a type line of the file, or
    none for a version listed before the first type line. *)
Theorem read_lines_listings (lines : list string) :
  (forall e, read_lines lines PyNone ∅ = Raise e
             <-> e = IndexError /\ exists line, line ∈ lines /\ malformed line)
  /\ (returns (read_lines lines PyNone ∅) = true
      <-> Forall (fun line => ~ malformed line) lines)
  /\ (forall d, read_lines lines PyNone ∅ = Ok d ->
        forall v,
          length (default [] (d !! v)) = length (listings v lines)
          /\ (d !! v = None <-> listings v lines = [])
          /\ (forall ts t, d !! v = Some ts -> t ∈ ts ->
                t = PyNone \/ exists line s rest,
                  line ∈ lines /\ split_ws (strip line) = "type" :: s :: rest
                  /\ t = PyStr s)).
Proof.
  split; [| split].
  - intros e. split; [apply read_lines_raise |].
    intros [-> Hbad]. now apply read_lines_malformed.
  - split.
    + intros Hret. apply Forall_forall. intros line Hin Hbad.
      rewrite (read_lines_malformed lines PyNone ∅) in Hret; [discriminate |].
      now exists line.
    + intros Hok. destruct (read_lines_returns lines PyNone ∅ Hok) as [d ->].
      reflexivity.
  - intros d H v.
    pose proof (read_lines_count lines PyNone ∅ d v H) as Hcount.
    rewrite lookup_empty in Hcount. simpl in Hcount.
    pose proof (read_lines_tagged _ _ _ _ tagged_empty H) as Htag.
    split; [exact Hcount |]. split.
    + split.
      * intros Hnone. rewrite Hnone in Hcount. simpl in Hcount.
        destruct (listings v lines); [reflexivity | discriminate].
      * intros Hnil. rewrite Hnil in Hcount. simpl in Hcount.
        destruct (d !! v) as [ts|] eqn:Ed; [| reflexivity].
        exfalso. apply (Htag v ts Ed). simpl in Hcount.
        now destruct ts.
    + intros ts t. apply (read_lines_tags [] lines PyNone PyNone ∅ d).
      * now left.
      * intros v' ts' t' Hv'. rewrite lookup_empty in Hv'. discriminate.
      * exact H.
Qed.

Lemma read_lines_listings_witness :
  (exists d,
      read_lines git_versions PyNone ∅ = Ok d
      /\ length (default [] (d !! "1.4-27-g15c5b7a"))
         = length (listings "1.4-27-g15c5b7a" git_versions)
      /\ d !! "1.3-1-g0000000" = None)
  /\ read_lines bare_type_file PyNone ∅ = Raise IndexError
  /\ read_lines ["type stable"; ""; "1.4-28-g26ab3e8"] PyNone ∅ = Raise IndexError.
Proof.
  split; [| split].
  - destruct (read_lines_listings git_versions) as (_ & Hret & Hprop).
    assert (Hr : returns (read_lines git_versions PyNone ∅) = true).
    { apply Hret. unfold malformed.
      repeat constructor; vm_compute; intros [H | H]; discriminate. }
    destruct (read_lines git_versions PyNone ∅) as [d|]; [| discriminate Hr].
    exists d.
    destruct (Hprop d eq_refl "1.4-27-g15c5b7a") as (H1 & _).
    destruct (Hprop d eq_refl "1.3-1-g0000000") as (_ & H2 & _).
    split; [reflexivity |]. split; [exact H1 |]. apply H2. vm_compute. reflexivity.
  - destruct (read_lines_listings bare_type_file) as (Hraise & _).
    apply Hraise. split; [reflexivity |]. exists "type".
    split; [| right; vm_compute; reflexivity].
    do 2 apply list_elem_of_further. apply list_elem_of_here.
  - destruct (read_lines_listings ["type stable"; ""; "1.4-28-g26ab3e8"]) as (Hraise & _).
    apply Hraise. split; [reflexivity |]. exists "".
    split; [| left; vm_compute; reflexivity].
    apply list_elem_of_further, list_elem_of_here.
Defined.

End VersionsMore.
